(** * Gangplank: stage planner, stage executor and worker-pod runner

    A shallow embedding of the Go package [spec] (stage model, shorthand
    planner, stage executor, deep copy) and of the cluster runner of
    package [ocp], followed by the properties established about them. *)

From Stdlib Require Import ZArith List String Ascii Lia Permutation DecimalString.
From Stdlib Require DecimalPos DecimalZ.
From stdpp Require Import base option list gmap strings sorting.

Set Warnings "-register-all".

Local Open Scope Z_scope.
Local Open Scope string_scope.
Local Open Scope list_scope.

(** ** The fragments of Go's standard library the packages call *)

Module GoLib.

(** A Go [error] is carried by its message; [None] stands for [nil]. *)
Definition error : Type := string.

(** [strings.Split(s, sep)] for a one-byte separator: [n] separators
    give [n + 1] pieces, and the empty string gives one empty piece. *)
Fixpoint Split (s : string) (sep : ascii) : list string :=
  match s with
  | EmptyString => [EmptyString]
  | String c s' =>
      if Ascii.eqb c sep then EmptyString :: Split s' sep
      else match Split s' sep with
           | piece :: pieces => String c piece :: pieces
           | [] => [String c EmptyString]
           end
  end.

(** [strings.Join(elems, sep)]. *)
Fixpoint Join (elems : list string) (sep : string) : string :=
  match elems with
  | [] => EmptyString
  | [e] => e
  | e :: rest => e +:+ sep +:+ Join rest sep
  end.

(** The verb [%d] of [fmt.Sprintf] on an [int]. *)
Definition Itoa (z : Z) : string := NilZero.string_of_int (Z.to_int z).

(** The lower case of an ASCII letter; any other byte is kept. *)
Definition lowerAscii (c : ascii) : ascii :=
  let n := nat_of_ascii c in
  if (65 <=? n)%nat && (n <=? 90)%nat then ascii_of_nat (n + 32) else c.

Fixpoint lowerBytes (s : string) : string :=
  match s with
  | EmptyString => EmptyString
  | String c s' => String (lowerAscii c) (lowerBytes s')
  end.

(** No byte of the string is [utf8.RuneSelf] (0x80) or more. *)
Fixpoint isASCII (s : string) : bool :=
  match s with
  | EmptyString => true
  | String c s' => (nat_of_ascii c <? 128)%nat && isASCII s'
  end.

(** [strings.ToLower(s)]: a string of ASCII bytes is lowered byte by
    byte; any other string goes through
    [strings.Map(unicode.ToLower, s)], which works from the case
    tables of package [unicode] and is the argument [unicodeLower]
    here. *)
Definition ToLower (unicodeLower : string -> string) (s : string) : string :=
  if isASCII s then lowerBytes s else unicodeLower s.

(** UTF-8, as [unicode/utf8] reads it.  [runeWidth c0] is the number
    of bytes of the sequence that the first byte [c0] announces, and 0
    for a byte that begins none; [acceptSecond c0 c1] tells whether
    [c1] may follow [c0], which excludes the overlong forms, the
    surrogates and what lies beyond U+10FFFF. *)
Definition between (lo hi : nat) (c : ascii) : bool :=
  ((lo <=? nat_of_ascii c) && (nat_of_ascii c <=? hi))%nat.

Definition continuation (c : ascii) : bool := between 128 191 c.

Definition runeWidth (c0 : ascii) : nat :=
  if (nat_of_ascii c0 <? 128)%nat then 1
  else if between 194 223 c0 then 2
  else if between 224 239 c0 then 3
  else if between 240 244 c0 then 4
  else 0.

Definition acceptSecond (c0 c1 : ascii) : bool :=
  if (nat_of_ascii c0 =? 224)%nat then between 160 191 c1
  else if (nat_of_ascii c0 =? 237)%nat then between 128 159 c1
  else if (nat_of_ascii c0 =? 240)%nat then between 144 191 c1
  else if (nat_of_ascii c0 =? 244)%nat then between 128 143 c1
  else continuation c1.

(** The bytes of U+FFFD, the replacement character. *)
Definition replacement : string :=
  String "239"%char (String "191"%char (String "189"%char EmptyString)).

(** [utf8.ValidString(s)]. *)
Fixpoint ValidString (s : string) : bool :=
  match s with
  | EmptyString => true
  | String c0 s1 =>
      match runeWidth c0 with
      | 1%nat => ValidString s1
      | 2%nat =>
          match s1 with
          | String c1 s2 => acceptSecond c0 c1 && ValidString s2
          | _ => false
          end
      | 3%nat =>
          match s1 with
          | String c1 (String c2 s3) =>
              acceptSecond c0 c1 && continuation c2 && ValidString s3
          | _ => false
          end
      | 4%nat =>
          match s1 with
          | String c1 (String c2 (String c3 s4)) =>
              acceptSecond c0 c1 && continuation c2 && continuation c3
              && ValidString s4
          | _ => false
          end
      | _ => false
      end
  end.

(** A Go string written by [encoding/json] as a JSON string and read
    back: the encoder goes through the string with
    [utf8.DecodeRuneInString], and a byte at which no valid sequence
    begins ([RuneError] of size 1) is written as U+FFFD; the sequences
    that are valid come back as they were, escaped or not. *)
Fixpoint jsonText (s : string) : string :=
  match s with
  | EmptyString => EmptyString
  | String c0 s1 =>
      let invalid := replacement +:+ jsonText s1 in
      match runeWidth c0 with
      | 1%nat => String c0 (jsonText s1)
      | 2%nat =>
          match s1 with
          | String c1 s2 =>
              if acceptSecond c0 c1 then String c0 (String c1 (jsonText s2))
              else invalid
          | _ => invalid
          end
      | 3%nat =>
          match s1 with
          | String c1 (String c2 s3) =>
              if acceptSecond c0 c1 && continuation c2
              then String c0 (String c1 (String c2 (jsonText s3)))
              else invalid
          | _ => invalid
          end
      | 4%nat =>
          match s1 with
          | String c1 (String c2 (String c3 s4)) =>
              if acceptSecond c0 c1 && continuation c2 && continuation c3
              then String c0 (String c1 (String c2 (String c3 (jsonText s4))))
              else invalid
          | _ => invalid
          end
      | _ => invalid
      end
  end.

(** The order in which a [range] statement visits the keys of a map is
    left open by the language.  A [MapRange] is one resolution of that
    choice: from the keys of the map, the sequence in which they are
    visited.  Only resolutions that visit every key once are runs of
    the program ([fairRange]). *)
Definition MapRange (K : Type) : Type := list K -> list K.

Definition fairRange {K : Type} (rng : MapRange K) : Prop :=
  forall keys, Permutation (rng keys) keys.

(** Two resolutions used to exhibit runs: lowest key first, and
    highest key first. *)
Definition ascending : MapRange Z := merge_sort Z.le.
Definition descending : MapRange Z := fun keys => rev (merge_sort Z.le keys).

(** A slice of strings: a window of [len] elements on a backing array.
    Slices obtained from one another by re-slicing or by an in-place
    [append] share the array; [backing] holds the cells that the
    function at hand can reach. *)
Record slice : Type := mkSlice { backing : list string; len : nat }.

Definition elems (s : slice) : list string := take (len s) (backing s).

Definition sliceOf (l : list string) : slice := mkSlice l (length l).

(** A window that fits in its array. *)
Definition fits (s : slice) : Prop := (len s <= length (backing s))%nat.

(** [s'] comes from [s] by taking elements out of the window, on the
    same array, without touching the cells from the last one of the
    window of [s] on. *)
Definition shrinks (s s' : slice) : Prop :=
  fits s'
  /\ length (backing s') = length (backing s)
  /\ (len s' <= len s)%nat
  /\ (forall j, (len s - 1 <= j)%nat -> backing s' !! j = backing s !! j)
  /\ (forall a, (count_occ string_dec (elems s') a
                 <= count_occ string_dec (elems s) a)%nat).

End GoLib.

(** ** Package spec: stages *)

Module Spec.
Import GoLib.

(** Stage is a single stage. *)
Record Stage : Type := mkStage {
  ID : string;
  Description : string;
  ConcurrentExecution : bool;
  DirectExec : bool;
  NotBlocking : bool;
  RequireArtifacts : list string;
  BuildArtifacts : list string;
  Commands : list string;
  PrepCommands : list string;
  PostCommands : list string;
  PostAlways : bool;
  ExecutionOrder : Z
}.

(** The zero value of [Stage] ([var s Stage]). *)
Definition zeroStage : Stage :=
  mkStage "" "" false false false [] [] [] [] [] false 0.

(** Modelled from the spec: the declaration of [JobSpec] is not among
    the sources; these are the fields the functions below read and
    write ([j.Stages], [j.DelayedMetaMerge], [j.Job.StrictMode]). *)
Record Job : Type := mkJob { StrictMode : bool }.

Record JobSpec : Type := mkJobSpec {
  Stages : list Stage;
  DelayedMetaMerge : bool;
  JobOf : Job
}.

Definition defaultBaseCommand : string := "cosa fetch; cosa build;".
Definition defaultBaseDelayMergeCommand : string :=
  "cosa fetch; cosa build --delay-meta-merge;".
Definition defaultFinalizeCommand : string := "cosa meta --finalize;".

Section Planner.

(** [cosa.CanArtifact], the catalogue of buildable artifacts, lives
    in another package. *)
Variable CanArtifact : string -> bool.

(** A stage literal of [quickStage]: the fields it does not name are
    zero. *)
Definition template (order : Z) (build requires : list string) : Stage :=
  mkStage "" "" false false false requires build [] [] [] false order.

(** The closure [quickStage] of [addShorthandToStage].  Its default
    case consults and builds the enclosing [artifact], not its own
    argument [noun].  [None] is the [log.Fatalf] that ends the
    process. *)
Definition quickStage (artifact noun : string) : option Stage :=
  if String.eqb noun "base" then Some (template 1 ["base"] ["base"])
  else if String.eqb noun "finalize" then Some (template 999 ["finalize"] [])
  else if String.eqb noun "live-iso" then
    Some (template 2 ["live-iso"] ["qemu"; "metal"; "metal4k"])
  else if String.eqb noun "metal" then Some (template 2 ["metal"] [])
  else if String.eqb noun "metal4k" then Some (template 2 ["metal4k"] [])
  else if CanArtifact artifact then Some (template 3 [artifact] ["qemu"])
  else None.

(** Position of the first element equal to [key]. *)
Fixpoint indexOf (key : string) (l : list string) : option nat :=
  match l with
  | [] => None
  | e :: l' => if String.eqb e key then Some 0%nat else S <$> indexOf key l'
  end.

(** A list without the first of its elements equal to [key]. *)
Fixpoint removeFirst (key : string) (l : list string) : list string :=
  match l with
  | [] => []
  | e :: l' => if String.eqb e key then l' else e :: removeFirst key l'
  end.

(** The closure [remove]: [append(slice[:x], slice[x+1:]...)] moves the
    elements after position [x] one cell down inside the backing
    array and returns a window one shorter on the same array; the
    cell that held the last element keeps its content. *)
Definition remove (s : slice) (key : string) : slice * bool :=
  match indexOf key (elems s) with
  | Some x =>
      (mkSlice (take x (backing s) ++ drop (S x) (elems s)
                  ++ drop (len s - 1) (backing s))
               (len s - 1), true)
  | None => (s, false)
  end.

(** The closure [unique]: [keys] is the set of entries met so far. *)
Fixpoint uniqueFrom (keys : gset string) (strSlice : list string) : list string :=
  match strSlice with
  | [] => []
  | entry :: rest =>
      if decide (entry ∈ keys) then uniqueFrom keys rest
      else entry :: uniqueFrom ({[entry]} ∪ keys) rest
  end.

Definition unique (strSlice : list string) : list string :=
  uniqueFrom ∅ strSlice.

(** [artifactOrder]: every build artifact filed under the execution
    order of its template, in arrival order. *)
Fixpoint fileByOrder (artifact : string) (build : list string)
         (artifactOrder : gmap Z (list string)) : option (gmap Z (list string)) :=
  match build with
  | [] => Some artifactOrder
  | v :: rest =>
      fakeStage ← quickStage artifact v;
      fileByOrder artifact rest
        (<[ExecutionOrder fakeStage :=
             default [] (artifactOrder !! ExecutionOrder fakeStage) ++ [v]]>
           artifactOrder)
  end.

(** [for _, v := range artifactOrder { newOrder = append(newOrder, v...) }] *)
Definition rangeArtifactOrder (rng : MapRange Z)
           (artifactOrder : gmap Z (list string)) : list string :=
  concat ((fun k => default [] (artifactOrder !! k))
            <$> rng (map fst (map_to_list artifactOrder))).

(** One turn of the inner loop over [stage.RequireArtifacts], for the
    build artifact [ba] and the index [i]: [ra] is read from the array
    when its turn comes, and [realRequires] is a window on that same
    array. *)
Definition pruneStep (ba : string) (realRequires : slice) (i : nat) : slice :=
  match backing realRequires !! i with
  | Some ra => if String.eqb ra ba then fst (remove realRequires ra) else realRequires
  | None => realRequires
  end.

(** The inner loop for one build artifact [ba]: the range was fixed to
    the [n] cells of [stage.RequireArtifacts] when the loop began. *)
Definition pruneScan (ba : string) (n : nat) (realRequires : slice) : slice :=
  foldl (pruneStep ba) realRequires (seq 0 n).

(** The two nested loops: for every build artifact, a scan of
    [stage.RequireArtifacts]; [realRequires] starts as that very
    slice. *)

Definition prune (build requires : list string) : slice :=
  foldl (fun real ba => pruneScan ba (length requires) real)
        (sliceOf requires) build.

(** The part of [addShorthandToStage] that follows the range over
    [artifactOrder], whose outcome is [newOrder]. *)
Definition settle (stage working : Stage) (newOrder : list string) : Stage :=
  let build := BuildArtifacts stage ++ BuildArtifacts working in
  let requires := RequireArtifacts stage ++ RequireArtifacts working in
  let order :=
    if ((ExecutionOrder working <? ExecutionOrder stage)%Z
        || (ExecutionOrder stage =? 0)%Z)%bool
    then ExecutionOrder working else ExecutionOrder stage in
  let id := "Generated Stage in Execution Order " +:+ Itoa order in
  let description :=
    "Stage " +:+ Itoa order +:+ " execution for " +:+ Join build "," in
  let build' := unique newOrder in
  let realRequires := prune build' requires in
  let '(realRequires, foundBase) := remove realRequires "base" in
  let realRequires :=
    if foundBase
    then fst (remove (fst (remove realRequires "ostree")) "qemu")
    else realRequires in
  mkStage id description
    (ConcurrentExecution stage) (DirectExec stage) (NotBlocking stage)
    (unique (elems realRequires)) build'
    (Commands stage) (PrepCommands stage) (PostCommands stage)
    (PostAlways stage) order.

(** addShorthandToStage adds in a build shorthand into the stage. *)
Definition addShorthandToStage (rng : MapRange Z) (artifact : string)
           (stage : Stage) : option Stage :=
  working ← quickStage artifact artifact;
  artifactOrder ←
    fileByOrder artifact (BuildArtifacts stage ++ BuildArtifacts working) ∅;
  Some (settle stage working (rangeArtifactOrder rng artifactOrder)).

(** A run of the planner meets one map range per shorthand; [rt k] is
    the resolution of the [k]-th of them. *)
Fixpoint addShorthands (rt : nat -> MapRange Z) (k : nat)
         (names : list string) (s : Stage) : option (Stage * nat) :=
  match names with
  | [] => Some (s, k)
  | name :: rest =>
      s' ← addShorthandToStage (rt k) name s;
      addShorthands rt (S k) rest s'
  end.

Fixpoint generateLoop (rt : nat -> MapRange Z) (k : nat)
         (fromNames : list string) (stages : list Stage) : option (list Stage) :=
  match fromNames with
  | [] => Some stages
  | group :: rest =>
      '(s, k') ← addShorthands rt k (Split group "+") zeroStage;
      generateLoop rt k' rest (stages ++ [s])
  end.

(** GenerateStages creates stages. *)
Definition GenerateStages (rt : nat -> MapRange Z) (fromNames : list string)
           (j : JobSpec) : option JobSpec :=
  match fromNames with
  | [] => Some j
  | _ =>
      stages ← generateLoop rt 0 fromNames (Stages j);
      Some (mkJobSpec stages true (mkJob true))
  end.

End Planner.

Section Lookup.

(** [%q] of [fmt]: the string as a quoted Go literal; the formatting
    lives in another package. *)
Variable Quote : string -> string.

(** The loop of [GetStage] over [j.Stages]. *)
Fixpoint rangeStages (id : string) (stages : list Stage) : option Stage :=
  match stages with
  | [] => None
  | stage :: rest =>
      if String.eqb (ID stage) id then Some stage else rangeStages id rest
  end.

(** GetStage returns the stage with the matching ID. *)
Definition GetStage (j : JobSpec) (id : string) : Stage + error :=
  match rangeStages id (Stages j) with
  | Some stage => inl stage
  | None => inr ("no such stage with ID " +:+ Quote id)
  end.

End Lookup.

(** What the planner keeps true of the stages it makes: no artifact is
    built twice or required twice, none is both built and required, and
    only qemu, metal and metal4k are ever required. *)
Definition planned (s : Stage) : Prop :=
  NoDup (BuildArtifacts s)
  /\ NoDup (RequireArtifacts s)
  /\ (forall a, In a (BuildArtifacts s) -> ~ In a (RequireArtifacts s))
  /\ (forall a, In a (RequireArtifacts s) ->
                a = "qemu" \/ a = "metal" \/ a = "metal4k").

(** *** The stage executor *)

(** What a call of [Execute] does to the outside, in the order it does
    it. *)
Inductive Event : Type :=
| EvTempDir (result : string + error)
| EvWriteFile (filename data : string) (err : option error)
| EvRender (script : string) (err : option error)
| EvRemoveAll (path : string).

(** How a call ends: it returns an [error] (or [nil]), or it waits for
    ever on a channel. *)
Inductive outcome : Type :=
| Returned (err : option error)
| Blocked.

(** The choices a run leaves to the Go runtime: the order in which
    [range scripts] visits the map, and for the concurrent branch the
    order in which the renderer calls of the tasks take effect and the
    order in which the tasks publish their result on the channel. *)
Record Schedule : Type := mkSchedule {
  visits : MapRange nat;
  calls : MapRange nat;
  sends : MapRange nat
}.

Definition fairSchedule (sch : Schedule) : Prop :=
  fairRange (visits sch) /\ fairRange (calls sch) /\ fairRange (sends sch).

(** The schedule that takes everything in index order. *)
Definition inOrder : Schedule :=
  mkSchedule (merge_sort Nat.le) (merge_sort Nat.le) (merge_sort Nat.le).

Definition newline : string := String "010"%char EmptyString.

(** [filepath.Join] of a clean directory and a file name. *)
Definition filepathJoin (dir name : string) : string := dir +:+ "/" +:+ name.

Definition prepPath (tmpd : string) : string := filepathJoin tmpd "prep.sh".
Definition postPath (tmpd : string) : string := filepathJoin tmpd "post.sh".
Definition scriptPath (tmpd : string) (i : nat) : string :=
  filepathJoin tmpd ("script-" +:+ Itoa (Z.of_nat i) +:+ ".sh").

(** [if err != nil { e = err }] *)
Definition latest (e err : option error) : option error :=
  match err with
  | Some _ => err
  | None => e
  end.

(** The loop that empties the channel [errors] after [wg.Wait()]:
    [for x := 0; x <= len(errors); x++], where [len] is the number of
    results still queued.  Nobody closes the channel, so a receive on
    the empty channel never comes back. *)
Fixpoint drain (x : nat) (errors : list (option error)) (e : option error)
  : option (option error) :=
  if (x <=? length errors)%nat then
    match errors with
    | [] => None
    | err :: rest => drain (S x) rest (latest e err)
    end
  else Some e.

Section Executor.

Variable CanArtifact : string -> bool.

(** [strings.Map(unicode.ToLower, s)], where [strings.ToLower] ends
    for a string that is not ASCII; the case tables live in package
    [unicode]. *)
Variable unicodeLower : string -> string.

(** The world outside the process (file system, whatever the
    renderer acts on) and the operations on it. *)
Variable World : Type.
Variable TempDir : World -> (string + error) * World.
Variable WriteFile : string -> string -> World -> option error * World.
Variable RemoveAll : string -> World -> World.

Variable Context : Type.

(** Modelled from the spec: the declaration of [RenderData] is not
    among the sources; it carries the job spec and the
    [RendererExecuter] capability, which runs the script at a path
    under a context and environment bindings. *)
Record RenderData : Type := mkRenderData {
  JobSpecOf : JobSpec;
  RendererExecuter : Context -> list string -> string -> World -> option error * World
}.

(** cosaBuildCmd checks if b is a buildable artifact type. *)
Definition cosaBuildCmd (b : string) (js : JobSpec) : list string + error :=
  if String.eqb (ToLower unicodeLower b) "base" then
    if DelayedMetaMerge js then inl [defaultBaseDelayMergeCommand]
    else inl [defaultBaseCommand]
  else if String.eqb (ToLower unicodeLower b) "finalize" then
    inl [defaultFinalizeCommand]
  else if CanArtifact b then inl ["cosa buildextend-" +:+ b]
  else inr (b +:+ " is not a known buildable artifact").

Fixpoint mapArtifacts (bas : list string) (js : JobSpec) : list string + error :=
  match bas with
  | [] => inl []
  | ba :: rest =>
      match cosaBuildCmd ba js with
      | inr err => inr err
      | inl cmds =>
          match mapArtifacts rest js with
          | inr err => inr err
          | inl ret => inl (Join cmds newline :: ret)
          end
      end
  end.

(** getCommands renders the automatic artifacts. *)
Definition getCommands (s : Stage) (rd : RenderData) : list string + error :=
  match mapArtifacts (BuildArtifacts s) (JobSpecOf rd) with
  | inr err => inr err
  | inl ret => inl (ret ++ Commands s)
  end.

(** Computations that act on the world and leave a trace. *)
Definition Exec (A : Type) : Type := World -> A * World * list Event.

Definition ret {A : Type} (a : A) : Exec A := fun w => (a, w, []).

Definition bind {A B : Type} (m : Exec A) (k : A -> Exec B) : Exec B :=
  fun w =>
    let '(a, w1, t1) := m w in
    let '(b, w2, t2) := k a w1 in
    (b, w2, t1 ++ t2).

Local Notation "'let*' x ':=' m 'in' k" :=
  (bind m (fun x => k)) (at level 10, x name, k at level 200).

Definition tempDir : Exec (string + error) :=
  fun w => let '(r, w') := TempDir w in (r, w', [EvTempDir r]).

Definition writeFile (filename data : string) : Exec (option error) :=
  fun w =>
    let '(err, w') := WriteFile filename data w in
    (err, w', [EvWriteFile filename data err]).

Definition removeAll (path : string) : Exec unit :=
  fun w => (tt, RemoveAll path w, [EvRemoveAll path]).

Definition render (rd : RenderData) (ctx : Context) (envVars : list string)
           (script : string) : Exec (option error) :=
  fun w =>
    let '(err, w') := RendererExecuter rd ctx envVars script w in
    (err, w', [EvRender script err]).

(** Write out each command to their own file.  [None]: a write
    failed. *)
Fixpoint writeScripts (tmpd : string) (i : nat) (cmds : list string)
         (scripts : gmap nat string) : Exec (option (gmap nat string)) :=
  match cmds with
  | [] => ret (Some scripts)
  | c :: rest =>
      let outf := scriptPath tmpd i in
      let* err := writeFile outf c in
      match err with
      | Some _ => ret None
      | None => writeScripts tmpd (S i) rest (<[i := outf]> scripts)
      end
  end.

(** The scripts in the order a range statement visits the map. *)
Definition rangeScripts (rng : MapRange nat) (scripts : gmap nat string)
  : list (nat * string) :=
  omap (fun i => (fun v => (i, v)) <$> scripts !! i)
       (rng (map fst (map_to_list scripts))).

(** Non-concurrent commands are run serially. *)
Fixpoint runSerial (rd : RenderData) (ctx : Context) (envVars : list string)
         (vs : list string) : Exec (option error) :=
  match vs with
  | [] => ret None
  | v :: rest =>
      let* err := render rd ctx envVars v in
      match err with
      | Some e => ret (Some e)
      | None => runSerial rd ctx envVars rest
      end
  end.

(** The renderer calls of the tasks, in the order in which they take
    effect; each task keeps its result. *)
Fixpoint runTasks (rd : RenderData) (ctx : Context) (envVars : list string)
         (tasks : list (nat * string)) : Exec (list (nat * option error)) :=
  match tasks with
  | [] => ret []
  | (i, s) :: rest =>
      let* e := render rd ctx envVars s in
      let* es := runTasks rd ctx envVars rest in
      ret ((i, e) :: es)
  end.

Definition resultOf (results : list (nat * option error)) (i : nat)
  : option (option error) :=
  snd <$> find (fun r => Nat.eqb (fst r) i) results.

(** Concurrent commands: one task per script, each calling the
    renderer once and publishing its result on a channel with room
    for all; after all are done the channel is emptied by [drain]. *)
Definition runConcurrent (sch : Schedule) (rd : RenderData) (ctx : Context)
           (envVars : list string) (scripts : gmap nat string) : Exec outcome :=
  let launched := rangeScripts (visits sch) scripts in
  let called :=
    omap (fun i => (fun v => (i, v)) <$> scripts !! i)
         (calls sch (map fst launched)) in
  let* results := runTasks rd ctx envVars called in
  let errors := omap (resultOf results) (sends sch (map fst launched)) in
  match drain 0 errors None with
  | Some e => ret (Returned e)
  | None => ret Blocked
  end.

(** Execute the main command stage. *)
Definition runCommands (sch : Schedule) (s : Stage) (ctx : Context)
           (rd : RenderData) (envVars : list string)
           (scripts : gmap nat string) : Exec outcome :=
  if negb (ConcurrentExecution s)
  then let* err := runSerial rd ctx envVars
                     (map snd (rangeScripts (visits sch) scripts)) in
       ret (Returned err)
  else runConcurrent sch rd ctx envVars scripts.

(** From the scripts on: the main commands, then [post.sh] when it
    is not left to the deferred call. *)
Definition runMain (sch : Schedule) (s : Stage) (ctx : Context)
           (rd : RenderData) (envVars : list string)
           (tmpd : string) (cmds : list string) : Exec outcome :=
  let* written := writeScripts tmpd 0 cmds ∅ in
  match written with
  | None => ret (Returned None)
  | Some scripts =>
      let* main := runCommands sch s ctx rd envVars scripts in
      match main with
      | Blocked => ret Blocked
      | Returned (Some e) => ret (Returned (Some e))
      | Returned None =>
          if negb (PostAlways s)
          then let* err := render rd ctx envVars (postPath tmpd) in
               ret (Returned err)
          else ret (Returned None)
      end
  end.

(** A deferred call runs when the function returns, and only then. *)
Definition deferred {A : Type} (out : outcome) (call : Exec A) : Exec outcome :=
  match out with
  | Blocked => ret Blocked
  | Returned _ => let* _ := call in ret out
  end.

(** Inside the scratch directory: prep, registration of post, main. *)
Definition runStage (sch : Schedule) (s : Stage) (ctx : Context)
           (rd : RenderData) (envVars : list string)
           (tmpd : string) (cmds : list string) : Exec outcome :=
  let* err := writeFile (prepPath tmpd) (Join (PrepCommands s) newline) in
  match err with
  | Some e => ret (Returned (Some e))
  | None =>
      let* err := render rd ctx envVars (prepPath tmpd) in
      match err with
      | Some e =>
          ret (Returned (Some ("Failed execution of the prep stage: " +:+ e)))
      | None =>
          let* err := writeFile (postPath tmpd) (Join (PostCommands s) newline) in
          match err with
          | Some e => ret (Returned (Some e))
          | None =>
              let* out := runMain sch s ctx rd envVars tmpd cmds in
              if PostAlways s
              then deferred out (render rd ctx envVars (postPath tmpd))
              else ret out
          end
      end
  end.

(** Execute runs the commands of a stage. *)
Definition Execute (sch : Schedule) (s : Stage) (ctx : option Context)
           (rd : option RenderData) (envVars : list string) : Exec outcome :=
  match ctx with
  | None => ret (Returned (Some "context must not be nil"))
  | Some ctx =>
      match rd with
      | None => ret (Returned (Some "render data must not be nil"))
      | Some rd =>
          match getCommands s rd with
          | inr err => ret (Returned (Some err))
          | inl cmds =>
              if (length cmds =? 0)%nat
              then ret (Returned (Some "no commands to execute"))
              else
                let* dir := tempDir in
                match dir with
                | inr err => ret (Returned (Some err))
                | inl tmpd =>
                    let* out := runStage sch s ctx rd envVars tmpd cmds in
                    deferred out (removeAll tmpd)
                end
          end
      end
  end.

End Executor.

Arguments ret {World A} a _.
Arguments bind {World A B} m k _.
Arguments tempDir {World} TempDir _.
Arguments writeFile {World} WriteFile filename data _.
Arguments removeAll {World} RemoveAll path _.
Arguments render {World Context} rd ctx envVars script _.
Arguments writeScripts {World} WriteFile tmpd i cmds scripts _.
Arguments runSerial {World Context} rd ctx envVars vs _.
Arguments runTasks {World Context} rd ctx envVars tasks _.
Arguments runConcurrent {World Context} sch rd ctx envVars scripts _.
Arguments runCommands {World Context} sch s ctx rd envVars scripts _.
Arguments runMain {World} WriteFile {Context} sch s ctx rd envVars tmpd cmds _.
Arguments deferred {World A} out call _.
Arguments runStage {World} WriteFile {Context} sch s ctx rd envVars tmpd cmds _.
Arguments getCommands CanArtifact unicodeLower {World Context} s rd.
Arguments Execute CanArtifact unicodeLower {World} TempDir WriteFile RemoveAll {Context}
  sch s ctx rd envVars _.

(** Kinds of events. *)
Definition isWrite (ev : Event) : Prop :=
  match ev with EvWriteFile _ _ _ => True | _ => False end.

Definition isRender (ev : Event) : Prop :=
  match ev with EvRender _ _ => True | _ => False end.

(** The scripts the renderer was called on, in the order of the
    calls. *)
Definition rendered (evs : list Event) : list string :=
  omap (fun ev => match ev with EvRender script _ => Some script | _ => None end) evs.

(** *** Deep copy *)

(** A JSON document, as [encoding/json] writes and reads it.  A JSON
    string is text, valid UTF-8: the encoder turns a Go string into
    text with [jsonText]; the escaping it does besides, which the
    decoder undoes, is not part of the model. *)
Inductive json : Type :=
| JNull
| JBool (b : bool)
| JNumber (n : Z)
| JString (s : string)
| JArray (items : list json)
| JObject (members : list (string * json)).

(** Members for the fields tagged [omitempty]: the zero value and the
    empty sequence leave no member. *)
Definition memberString (key v : string) : list (string * json) :=
  if String.eqb v "" then [] else [(key, JString (jsonText v))].

Definition memberBool (key : string) (v : bool) : list (string * json) :=
  if v then [(key, JBool true)] else [].

Definition memberInt (key : string) (v : Z) : list (string * json) :=
  if (v =? 0)%Z then [] else [(key, JNumber v)].

Definition memberStrings (key : string) (v : list string) : list (string * json) :=
  match v with
  | [] => []
  | _ => [(key, JArray (map (fun x => JString (jsonText x)) v))]
  end.

(** [json.Marshal] of a [Stage]: one member per field, in the order of
    the declaration, under the key of its [json] tag; [ID] has none
    and goes under its own name, and is never omitted. *)
Definition Marshal (s : Stage) : json :=
  JObject
    ([("ID", JString (jsonText (ID s)))]
       ++ memberString "description" (Description s)
       ++ memberBool "concurrent" (ConcurrentExecution s)
       ++ memberBool "direct_exec" (DirectExec s)
       ++ memberBool "not_blocking" (NotBlocking s)
       ++ memberStrings "requires_artifacts" (RequireArtifacts s)
       ++ memberStrings "build_artifacts" (BuildArtifacts s)
       ++ memberStrings "commands" (Commands s)
       ++ memberStrings "prep_commands" (PrepCommands s)
       ++ memberStrings "post_commands" (PostCommands s)
       ++ memberBool "post_always" (PostAlways s)
       ++ memberInt "execution_order" (ExecutionOrder s)).

Definition typeError (key : string) : error :=
  "json: cannot unmarshal value into Go struct field Stage." +:+ key.

(** A JSON array read into a [[]string]: an item that is not a string
    leaves the zero value in its place and is an error. *)
Fixpoint decodeStrings (key : string) (items : list json) : list string * option error :=
  match items with
  | [] => ([], None)
  | item :: rest =>
      let '(vs, err) := decodeStrings key rest in
      match item with
      | JString v => (v :: vs, err)
      | JNull => ("" :: vs, err)
      | _ => ("" :: vs, Some (typeError key))
      end
  end.

Definition setStrings (key : string) (v : json) (old : list string)
  : list string * option error :=
  match v with
  | JArray items => decodeStrings key items
  | JNull => (old, None)
  | _ => (old, Some (typeError key))
  end.

Definition setString (key : string) (v : json) (old : string) : string * option error :=
  match v with
  | JString x => (x, None)
  | JNull => (old, None)
  | _ => (old, Some (typeError key))
  end.

Definition setBool (key : string) (v : json) (old : bool) : bool * option error :=
  match v with
  | JBool x => (x, None)
  | JNull => (old, None)
  | _ => (old, Some (typeError key))
  end.

Definition setInt (key : string) (v : json) (old : Z) : Z * option error :=
  match v with
  | JNumber x => (x, None)
  | JNull => (old, None)
  | _ => (old, Some (typeError key))
  end.

(** One member read into the field it names; a member that names no
    field is skipped.  The keys met here are those [Marshal] wrote,
    which name their fields exactly; a key that differs from the name
    in the case of its ASCII letters is taken as well, as the decoder
    does, and no other folding is modelled. *)
Definition decodeMember (key : string) (v : json) (ns : Stage) : Stage * option error :=
  let k := lowerBytes key in
  if String.eqb k "id" then
    let '(x, err) := setString key v (ID ns) in
    (mkStage x (Description ns) (ConcurrentExecution ns) (DirectExec ns)
       (NotBlocking ns) (RequireArtifacts ns) (BuildArtifacts ns) (Commands ns)
       (PrepCommands ns) (PostCommands ns) (PostAlways ns) (ExecutionOrder ns), err)
  else if String.eqb k "description" then
    let '(x, err) := setString key v (Description ns) in
    (mkStage (ID ns) x (ConcurrentExecution ns) (DirectExec ns)
       (NotBlocking ns) (RequireArtifacts ns) (BuildArtifacts ns) (Commands ns)
       (PrepCommands ns) (PostCommands ns) (PostAlways ns) (ExecutionOrder ns), err)
  else if String.eqb k "concurrent" then
    let '(x, err) := setBool key v (ConcurrentExecution ns) in
    (mkStage (ID ns) (Description ns) x (DirectExec ns)
       (NotBlocking ns) (RequireArtifacts ns) (BuildArtifacts ns) (Commands ns)
       (PrepCommands ns) (PostCommands ns) (PostAlways ns) (ExecutionOrder ns), err)
  else if String.eqb k "direct_exec" then
    let '(x, err) := setBool key v (DirectExec ns) in
    (mkStage (ID ns) (Description ns) (ConcurrentExecution ns) x
       (NotBlocking ns) (RequireArtifacts ns) (BuildArtifacts ns) (Commands ns)
       (PrepCommands ns) (PostCommands ns) (PostAlways ns) (ExecutionOrder ns), err)
  else if String.eqb k "not_blocking" then
    let '(x, err) := setBool key v (NotBlocking ns) in
    (mkStage (ID ns) (Description ns) (ConcurrentExecution ns) (DirectExec ns)
       x (RequireArtifacts ns) (BuildArtifacts ns) (Commands ns)
       (PrepCommands ns) (PostCommands ns) (PostAlways ns) (ExecutionOrder ns), err)
  else if String.eqb k "requires_artifacts" then
    let '(x, err) := setStrings key v (RequireArtifacts ns) in
    (mkStage (ID ns) (Description ns) (ConcurrentExecution ns) (DirectExec ns)
       (NotBlocking ns) x (BuildArtifacts ns) (Commands ns)
       (PrepCommands ns) (PostCommands ns) (PostAlways ns) (ExecutionOrder ns), err)
  else if String.eqb k "build_artifacts" then
    let '(x, err) := setStrings key v (BuildArtifacts ns) in
    (mkStage (ID ns) (Description ns) (ConcurrentExecution ns) (DirectExec ns)
       (NotBlocking ns) (RequireArtifacts ns) x (Commands ns)
       (PrepCommands ns) (PostCommands ns) (PostAlways ns) (ExecutionOrder ns), err)
  else if String.eqb k "commands" then
    let '(x, err) := setStrings key v (Commands ns) in
    (mkStage (ID ns) (Description ns) (ConcurrentExecution ns) (DirectExec ns)
       (NotBlocking ns) (RequireArtifacts ns) (BuildArtifacts ns) x
       (PrepCommands ns) (PostCommands ns) (PostAlways ns) (ExecutionOrder ns), err)
  else if String.eqb k "prep_commands" then
    let '(x, err) := setStrings key v (PrepCommands ns) in
    (mkStage (ID ns) (Description ns) (ConcurrentExecution ns) (DirectExec ns)
       (NotBlocking ns) (RequireArtifacts ns) (BuildArtifacts ns) (Commands ns)
       x (PostCommands ns) (PostAlways ns) (ExecutionOrder ns), err)
  else if String.eqb k "post_commands" then
    let '(x, err) := setStrings key v (PostCommands ns) in
    (mkStage (ID ns) (Description ns) (ConcurrentExecution ns) (DirectExec ns)
       (NotBlocking ns) (RequireArtifacts ns) (BuildArtifacts ns) (Commands ns)
       (PrepCommands ns) x (PostAlways ns) (ExecutionOrder ns), err)
  else if String.eqb k "post_always" then
    let '(x, err) := setBool key v (PostAlways ns) in
    (mkStage (ID ns) (Description ns) (ConcurrentExecution ns) (DirectExec ns)
       (NotBlocking ns) (RequireArtifacts ns) (BuildArtifacts ns) (Commands ns)
       (PrepCommands ns) (PostCommands ns) x (ExecutionOrder ns), err)
  else if String.eqb k "execution_order" then
    let '(x, err) := setInt key v (ExecutionOrder ns) in
    (mkStage (ID ns) (Description ns) (ConcurrentExecution ns) (DirectExec ns)
       (NotBlocking ns) (RequireArtifacts ns) (BuildArtifacts ns) (Commands ns)
       (PrepCommands ns) (PostCommands ns) (PostAlways ns) x, err)
  else (ns, None).

(** The members in turn; the first error met is the one reported, and
    decoding goes on after it. *)
Fixpoint decodeMembers (members : list (string * json)) (ns : Stage)
  : Stage * option error :=
  match members with
  | [] => (ns, None)
  | (key, v) :: rest =>
      let '(ns1, err1) := decodeMember key v ns in
      let '(ns2, err2) := decodeMembers rest ns1 in
      (ns2, match err1 with Some _ => err1 | None => err2 end)
  end.

(** [json.Unmarshal] into a [Stage]. *)
Definition Unmarshal (out : json) (ns : Stage) : Stage * option error :=
  match out with
  | JObject members => decodeMembers members ns
  | JNull => (ns, None)
  | _ => (ns, Some (typeError ""))
  end.

(** DeepCopy does a lazy deep copy by rendering the stage to JSON and
    then returning a new Stage defined by the JSON.  [json.Marshal]
    has no error to report on a [Stage]. *)
Definition DeepCopy (s : Stage) : Stage * option error :=
  Unmarshal (Marshal s) zeroStage.

End Spec.

(** ** Stages in memory

    A [Stage] value holds five slice headers; the strings they show live
    in backing arrays on the heap, which several headers may share. *)

Module Mem.
Import GoLib.

Abbreviation loc := positive.

(** The heap: the backing arrays, by address. *)
Abbreviation heap := (gmap positive (list string)).

(** A slice header: the array it points into ([None] for the nil
    slice), the offset of its first element, its length. *)
Record header : Type := mkHeader {
  array : option loc;
  offset : nat;
  size : nat
}.

Definition nilSlice : header := mkHeader None 0 0.

(** The sequence a header shows in a heap. *)
Definition load (h : heap) (hd : header) : list string :=
  match array hd with
  | Some l => take (size hd) (drop (offset hd) (default [] (h !! l)))
  | None => []
  end.

(** [s[i] = v] through a header; out of range is a run-time panic
    ([None]). *)
Definition setIndex (h : heap) (hd : header) (i : nat) (v : string) : option heap :=
  match array hd with
  | Some l =>
      if (i <? size hd)%nat
      then Some (<[l := <[(offset hd + i)%nat := v]> (default [] (h !! l))]> h)
      else None
  | None => None
  end.

(** A new backing array holding [vs]; the empty sequence needs
    none. *)
Definition alloc (h : heap) (vs : list string) : heap * header :=
  match vs with
  | [] => (h, nilSlice)
  | _ =>
      let l := fresh (dom h) in
      (<[l := vs]> h, mkHeader (Some l) 0 (length vs))
  end.

(** The [Stage] struct as it lies in memory. *)
Record StageObj : Type := mkStageObj {
  ID : string;
  Description : string;
  ConcurrentExecution : bool;
  DirectExec : bool;
  NotBlocking : bool;
  RequireArtifacts : header;
  BuildArtifacts : header;
  Commands : header;
  PrepCommands : header;
  PostCommands : header;
  PostAlways : bool;
  ExecutionOrder : Z
}.

(** The five sequences of a stage. *)
Inductive SeqField : Type :=
| FRequireArtifacts | FBuildArtifacts | FCommands | FPrepCommands | FPostCommands.

Definition seqOf (f : SeqField) (o : StageObj) : header :=
  match f with
  | FRequireArtifacts => RequireArtifacts o
  | FBuildArtifacts => BuildArtifacts o
  | FCommands => Commands o
  | FPrepCommands => PrepCommands o
  | FPostCommands => PostCommands o
  end.

(** Every array a stage points into is allocated. *)
Definition wellFormed (h : heap) (o : StageObj) : Prop :=
  forall f l, array (seqOf f o) = Some l -> l ∈ dom h.

(** [h'] holds every array of [h], unchanged. *)
Definition extends (h h' : heap) : Prop :=
  forall l, l ∈ dom h -> h' !! l = h !! l.

(** The value a stage has in a heap. *)
Definition valueOf (h : heap) (o : StageObj) : Spec.Stage :=
  Spec.mkStage (ID o) (Description o) (ConcurrentExecution o) (DirectExec o)
    (NotBlocking o)
    (load h (RequireArtifacts o)) (load h (BuildArtifacts o))
    (load h (Commands o)) (load h (PrepCommands o)) (load h (PostCommands o))
    (PostAlways o) (ExecutionOrder o).

(** A decoded value laid out in memory: [json.Unmarshal] fills the
    zero [Stage] it is given, and makes a new array for every sequence
    it reads. *)
Definition place (h : heap) (v : Spec.Stage) : heap * StageObj :=
  let '(h1, ra) := alloc h (Spec.RequireArtifacts v) in
  let '(h2, ba) := alloc h1 (Spec.BuildArtifacts v) in
  let '(h3, cs) := alloc h2 (Spec.Commands v) in
  let '(h4, pre) := alloc h3 (Spec.PrepCommands v) in
  let '(h5, post) := alloc h4 (Spec.PostCommands v) in
  (h5, mkStageObj (Spec.ID v) (Spec.Description v) (Spec.ConcurrentExecution v)
         (Spec.DirectExec v) (Spec.NotBlocking v) ra ba cs pre post
         (Spec.PostAlways v) (Spec.ExecutionOrder v)).

(** [DeepCopy] on a stage in memory: the receiver is read, the copy is
    built by [json.Unmarshal] in memory of its own. *)
Definition DeepCopy (h : heap) (s : StageObj) : heap * StageObj * option error :=
  let '(v, err) := Spec.DeepCopy (valueOf h s) in
  let '(h', ns) := place h v in
  (h', ns, err).

End Mem.

(** ** Package ocp: the cluster runner *)

Module Ocp.
Import GoLib.

(** [v1.PodPhase]. *)
Inductive PodPhase : Type :=
| PodPending | PodRunning | PodSucceeded | PodFailed | PodUnknown.

(** What the [select] of the runner's loop receives: an event of the
    watch carrying the pod, an event of the watch carrying something
    else, the end of the watch channel, the timer, a signal, or the
    end of the context. *)
Inductive Ready : Type :=
| WatchPod (phase : PodPhase)
| WatchOther
| WatchClosed
| Timeout
| Signal
| Done.

(** What the runner does to the cluster and to the process. *)
Inductive Action : Type :=
| CreatePod
| OpenWatch
| StreamPodLogs (container : string)
| Sleep
| DeletePod
| StopWatch.

(** How the runner ends: it returns, it panics (the type assertion on
    the object of a watch event), or it is still waiting when the
    events run out. *)
Inductive result : Type :=
| Returns (err : option error)
| Panics
| Waits.

(** The calls that come before the loop, and the containers of the
    pod. *)
Record Cluster : Type := mkCluster {
  getClient : option error;
  podName : string;
  create : option error;
  watch : option error;
  initContainers : list string;
  containers : list string
}.

Definition errOrphaned : error := "orphaned pod".
Definition errFailure : error := "Pod is a failure in its life".
Definition errTimeout : error := "Pod did not complete work in time".
Definition errTermination : error := "Termination requested".

(** The loop [for { select { ... } }]. *)
Fixpoint watchLoop (c : Cluster) (evs : list Ready) : list Action * result :=
  match evs with
  | [] => ([], Waits)
  | WatchClosed :: _ => ([], Returns (Some errOrphaned))
  | WatchOther :: _ => ([], Panics)
  | WatchPod PodSucceeded :: _ => ([], Returns None)
  | WatchPod PodRunning :: rest =>
      let '(acts, r) := watchLoop c rest in
      (map StreamPodLogs (initContainers c ++ containers c) ++ acts, r)
  | WatchPod PodFailed :: _ => ([Sleep], Returns (Some errFailure))
  | WatchPod _ :: rest => watchLoop c rest
  | Timeout :: _ => ([], Returns (Some errTimeout))
  | Signal :: _ => ([DeletePod], Returns (Some errTermination))
  | Done :: _ => ([], Returns None)
  end.

(** The events after which the loop goes round again. *)
Definition waiting (ev : Ready) : Prop :=
  ev = WatchPod PodPending \/ ev = WatchPod PodRunning \/ ev = WatchPod PodUnknown.

(** The deferred [ender()] and [w.Stop()] run when the function
    leaves. *)
Definition leave (r : result) : list Action :=
  match r with
  | Waits => []
  | _ => [DeletePod; StopWatch]
  end.

(** clusterRunner creates an OpenShift/Kubernetes pod for the work to
    be done. *)
Definition clusterRunner (c : Cluster) (evs : list Ready) : list Action * result :=
  match getClient c with
  | Some err => ([], Returns (Some err))
  | None =>
      match create c with
      | Some err =>
          ([CreatePod],
           Returns (Some ("failed to create pod " +:+ podName c +:+ ": " +:+ err)))
      | None =>
          match watch c with
          | Some err => ([CreatePod; OpenWatch], Returns (Some err))
          | None =>
              let '(acts, r) := watchLoop c evs in
              ([CreatePod; OpenWatch] ++ acts ++ leave r, r)
          end
      end
  end.

(** *** Pod logs *)

(** The cells that the [*bool] flags point to. *)
Abbreviation flags := (gmap positive bool).

(** [ptrBool(b)]: a new cell holding [b]. *)
Definition ptrBool (fl : flags) (b : bool) : flags * positive :=
  let p := fresh (dom fl) in (<[p := b]> fl, p).

(** What one call of [streamPodLogs] meets outside: the answers of
    [GetClient], of [req.Stream()], of [os.MkdirAll] and of
    [os.OpenFile]. *)
Record LogEnv : Type := mkLogEnv {
  logClient : option error;
  stream : option error;
  mkdirAll : option error;
  openFile : option error
}.

(** What [streamPodLogs] does outside: it asks for the log stream of a
    container, makes the log directory, opens the log file, and starts
    the task that copies the stream, which keeps the flag it was
    given. *)
Inductive LogAction : Type :=
| GetLogs (container : string)
| MkdirLogs
| OpenLog (container : string)
| Follow (container : string) (logging : positive).

(** How a call ends: it returns, or it panics on the nil pointer. *)
Inductive logResult : Type :=
| LogReturns (err : option error)
| LogPanics.

(** streamPodLogs steams the pod's logs to logging and to disk.  A
    pointer is [None] when nil; a pointer that is not nil points to a
    cell. *)
Definition streamPodLogs (env : LogEnv) (pod : string) (fl : flags)
           (logging : option positive) (container : string)
  : flags * list LogAction * logResult :=
  match logClient env with
  | Some err => (fl, [], LogReturns (Some err))
  | None =>
      match logging with
      | None => (fl, [], LogPanics)
      | Some p =>
          if default false (fl !! p) then (fl, [], LogReturns None)
          else
            let fl := <[p := true]> fl in
            match stream env with
            | Some err => (fl, [GetLogs container], LogReturns (Some err))
            | None =>
                match mkdirAll env with
                | Some err =>
                    (fl, [GetLogs container; MkdirLogs],
                     LogReturns (Some ("failed to create logs directory: " +:+ err)))
                | None =>
                    match openFile env with
                    | Some err =>
                        (fl, [GetLogs container; MkdirLogs; OpenLog container],
                         LogReturns
                           (Some ("failed to create log for pod " +:+ pod +:+ "/"
                                    +:+ container +:+ " container: " +:+ err)))
                    | None =>
                        (fl, [GetLogs container; MkdirLogs; OpenLog container;
                              Follow container p],
                         LogReturns None)
                    end
                end
            end
      end
  end.

(** The end of the task started by [streamPodLogs]: its deferred
    function assigns a new flag to the task's own variable
    [logging]. *)
Definition followEnd (fl : flags) (logging : positive) : flags * positive :=
  ptrBool fl false.

(** The state of the loops of the [PodRunning] case: the cells, the
    map [logStarted], and the number of calls of [streamPodLogs] made
    so far. *)
Record LogState : Type := mkLogState {
  cells : flags;
  logStarted : gmap string positive;
  callsMade : nat
}.

(** [for _, c := range ... { logStarted[c.Name] = ptrBool(false);
    if err := cp.streamPodLogs(logStarted[c.Name], pod, c.Name) ... }]:
    an error is logged and the loop goes on; [env k] is what the
    [k]-th call meets.  The flag tells whether a call panicked. *)
Fixpoint streamAll (env : nat -> LogEnv) (pod : string) (names : list string)
         (st : LogState) : LogState * list LogAction * bool :=
  match names with
  | [] => (st, [], false)
  | name :: rest =>
      let '(fl, p) := ptrBool (cells st) false in
      let started := <[name := p]> (logStarted st) in
      let '(fl, acts, r) :=
        streamPodLogs (env (callsMade st)) pod fl (started !! name) name in
      let st := mkLogState fl started (S (callsMade st)) in
      match r with
      | LogPanics => (st, acts, true)
      | LogReturns _ =>
          let '(st, acts', panicked) := streamAll env pod rest st in
          (st, acts ++ acts', panicked)
      end
  end.

(** The [PodRunning] case of the runner's loop: the init containers,
    then the containers. *)
Definition streamRunning (env : nat -> LogEnv) (c : Cluster) (st : LogState)
  : LogState * list LogAction * bool :=
  streamAll env (podName c) (initContainers c ++ containers c) st.

(** *** The environment of the podman container *)

(** [v1.EnvVar], as far as the runner reads it. *)
Record EnvVar : Type := mkEnvVar { Name : string; Value : string }.

Definition localPodEnvVar : string := "COSA_FORCE_NO_CLUSTER".

(** The first statements of [podmanRunner]: [mapEnvVars], which
    becomes the environment of the container. *)
Definition podmanEnv (envVars : list EnvVar) : gmap string string :=
  let envVars := envVars ++ [mkEnvVar localPodEnvVar "1"] in
  foldl (fun mapEnvVars v => <[Name v := Value v]> mapEnvVars)
        {[ localPodEnvVar := "1" ]} envVars.

End Ocp.

(** ** Inputs used in the examples *)

Module Examples.
Import GoLib Spec.

(** A catalogue that knows no artifact. *)
Definition noArtifact (b : string) : bool := false.

(** The strings of the examples are ASCII, so that [strings.ToLower]
    never comes to the case tables on them; this stands in their
    place. *)
Definition noCaseTables (s : string) : string := s.

Definition emptyJobSpec : JobSpec := mkJobSpec [] false (mkJob false).

(** A job that declares a stage of its own, which requires ostree. *)
Definition declaredJobSpec : JobSpec :=
  mkJobSpec
    [mkStage "declared" "" false false false ["ostree"] [] ["make"] [] [] false 5]
    false (mkJob false).

Definition lowestFirst : nat -> MapRange Z := fun _ => ascending.
Definition highestFirst : nat -> MapRange Z := fun _ => descending.

(** A world without state: the scratch directory is [/tmp/stages1],
    writing fails on the files listed in [noWrite] and succeeds on the
    others, and the renderer fails on the scripts listed in [bad] and
    succeeds on the others. *)
Definition tmpStages (w : unit) : (string + error) * unit :=
  (inl "/tmp/stages1", w).

Definition writeUnless (noWrite : list string) (filename data : string) (w : unit)
  : option error * unit :=
  (if bool_decide (filename ∈ noWrite)
   then Some ("open " +:+ filename +:+ ": no space left on device")
   else None, w).

Definition removeQuietly (path : string) (w : unit) : unit := w.

Definition failOn (bad : list string) (ctx : unit) (envVars : list string)
           (script : string) (w : unit) : option error * unit :=
  (if bool_decide (script ∈ bad) then Some ("exit status 1: " +:+ script) else None, w).

Definition execute (noWrite bad : list string) (sch : Schedule) (s : Stage)
  : outcome * unit * list Event :=
  Execute noArtifact noCaseTables tmpStages (writeUnless noWrite) removeQuietly sch s
    (Some tt) (Some (mkRenderData unit unit emptyJobSpec (failOn bad))) [] tt.

(** A stage of three user commands. *)
Definition threeCommands (concurrent postAlways : bool) : Stage :=
  mkStage "three" "" concurrent false false [] [] ["a"; "b"; "c"] [] [] postAlways 0.

(** A stage that builds base and then runs one user command. *)
Definition baseThenCommand : Stage :=
  mkStage "base" "" false false false [] ["base"] ["cosa upload"] [] [] false 1.

(** A heap in which the sequences of a stage share one array. *)
Definition sharedHeap : Mem.heap := {[ 1%positive := ["z"; "a"; "b"; "c"] ]}.

Definition sharingStage : Mem.StageObj :=
  Mem.mkStageObj "shared" "" true false false
    (Mem.mkHeader (Some 1%positive) 1 2) Mem.nilSlice
    (Mem.mkHeader (Some 1%positive) 1 3) Mem.nilSlice Mem.nilSlice false 3.

(** A cluster on which the pod is created and watched. *)
Definition cluster : Ocp.Cluster :=
  Ocp.mkCluster None "build-1-worker-0" None None ["init"] ["build-1-worker-0"].

(** The schedule that takes everything from the highest index down. *)
Definition backwards : Schedule :=
  mkSchedule (fun keys => rev (merge_sort Nat.le keys))
             (fun keys => rev (merge_sort Nat.le keys))
             (fun keys => rev (merge_sort Nat.le keys)).

(** A catalogue that knows the cloud images and the metal images, and
    not the pseudo stages. *)
Definition cloudArtifacts (b : string) : bool :=
  existsb (String.eqb b) ["qemu"; "aws"; "gcp"; "metal"; "metal4k"; "live-iso"].

(** The quoting of an identifier that has nothing to escape. *)
Definition plainQuote (s : string) : string :=
  String (ascii_of_nat 34) s +:+ String (ascii_of_nat 34) EmptyString.

(** A stage whose [ID] is the byte 0xFF. *)
Definition invalidIDStage : Mem.StageObj :=
  Mem.mkStageObj (String "255"%char EmptyString) "" false false false
    Mem.nilSlice Mem.nilSlice Mem.nilSlice Mem.nilSlice Mem.nilSlice false 0.

(** A stage whose build artifacts are an empty window on an array. *)
Definition emptyWindowStage : Mem.StageObj :=
  Mem.mkStageObj "window" "" false false false
    Mem.nilSlice (Mem.mkHeader (Some 1%positive) 2 0)
    (Mem.mkHeader (Some 1%positive) 1 3) Mem.nilSlice Mem.nilSlice false 0.

(** Calls of [streamPodLogs] for which everything works, and for
    which the stream is refused. *)
Definition logsFine : Ocp.LogEnv := Ocp.mkLogEnv None None None None.
Definition streamRefused : Ocp.LogEnv :=
  Ocp.mkLogEnv None (Some "stream refused") None None.

End Examples.

(** * Properties *)

Section RangeFacts.
Import GoLib.

Lemma ascending_fair : fairRange ascending.
Proof. intros keys. apply merge_sort_Permutation. Qed.

Lemma descending_fair : fairRange descending.
Proof.
  intros keys. unfold descending.
  rewrite <- Permutation_rev. apply merge_sort_Permutation.
Qed.

Lemma fair_one {K : Type} (rng : MapRange K) (k : K) :
  fairRange rng -> rng [k] = [k].
Proof.
  intros Hf. apply Permutation_length_1_inv. symmetry. apply Hf.
Qed.

Lemma fair_two {K : Type} (rng : MapRange K) (a b : K) :
  fairRange rng -> rng [a; b] = [a; b] \/ rng [a; b] = [b; a].
Proof.
  intros Hf. apply Permutation_length_2_inv. symmetry. apply Hf.
Qed.

End RangeFacts.

Section PruneFacts.
Import GoLib Spec.

Local Abbreviation count := (count_occ string_dec).

Lemma elems_length (s : slice) : fits s -> length (elems s) = len s.
Proof. unfold elems, fits. intros H. rewrite length_take. lia. Qed.

Lemma indexOf_spec (key : string) (l : list string) :
  match indexOf key l with
  | Some x =>
      (x < length l)%nat /\ l !! x = Some key
      /\ take x l = take x (removeFirst key l)
      /\ removeFirst key l = take x l ++ drop (S x) l
      /\ (forall j, (j < x)%nat -> l !! j <> Some key)
      /\ count (drop (S x) l) key = pred (count l key)
  | None => ~ In key l /\ removeFirst key l = l
  end.
Proof.
  induction l as [| e l IH]; cbn [indexOf removeFirst].
  - split; [intros [] | reflexivity].
  - destruct (String.eqb_spec e key) as [-> | Hne].
    + cbn [length take drop lookup list_lookup app].
      split; [lia |]. split; [reflexivity |]. split; [reflexivity |].
      split; [reflexivity |]. split; [intros j Hj; lia |].
      rewrite count_occ_cons_eq by reflexivity. reflexivity.
    + destruct (indexOf key l) as [x |]; cbn [fmap option_fmap option_map].
      * destruct IH as (Hx & Hl & Ht & Hr & Hj & Hc). cbn [length].
        split; [lia |]. split; [exact Hl |]. split; [cbn; rewrite Ht; reflexivity |].
        split; [cbn; rewrite Hr; reflexivity |].
        split; [intros [| j] Hlt; cbn; [congruence | apply Hj; lia] |].
        rewrite count_occ_cons_neq by assumption. exact Hc.
      * destruct IH as [Hin Hr]. split; [| rewrite Hr; reflexivity].
        intros [Heq | H]; [exact (Hne Heq) | exact (Hin H)].
Qed.

Lemma count_removeFirst (key a : string) (l : list string) :
  count (removeFirst key l) a
  = if String.eqb a key then pred (count l a) else count l a.
Proof.
  induction l as [| e l IH]; cbn [removeFirst].
  - cbn. destruct (String.eqb a key); reflexivity.
  - destruct (String.eqb_spec e key) as [-> | Hne].
    + destruct (String.eqb_spec a key) as [-> | Hak].
      * rewrite count_occ_cons_eq by reflexivity. reflexivity.
      * rewrite count_occ_cons_neq by congruence. reflexivity.
    + destruct (string_dec e a) as [-> | Hea].
      * rewrite !count_occ_cons_eq by reflexivity.
        destruct (String.eqb_spec a key) as [-> | _]; [contradiction |].
        rewrite IH. destruct (String.eqb_spec a key); [contradiction | reflexivity].
      * rewrite !count_occ_cons_neq by assumption. exact IH.
Qed.

(** What [remove] does to the window and to the array. *)
Lemma remove_spec (s : slice) (key : string) :
  fits s ->
  let s' := fst (remove s key) in
  fits s'
  /\ length (backing s') = length (backing s)
  /\ (len s' <= len s)%nat
  /\ elems s' = removeFirst key (elems s)
  /\ (forall j, (len s - 1 <= j)%nat -> backing s' !! j = backing s !! j).
Proof.
  intros Hfit. unfold remove.
  pose proof (indexOf_spec key (elems s)) as Hi.
  pose proof (elems_length s Hfit) as Hlen.
  destruct (indexOf key (elems s)) as [x |]; cbn [fst].
  - destruct Hi as (Hx & _ & _ & Hr & _ & _). rewrite Hlen in Hx.
    unfold fits in Hfit.
    set (A := take x (backing s)). set (B := drop (S x) (elems s)).
    set (C := drop (len s - 1) (backing s)).
    assert (HA : length A = x) by (subst A; rewrite length_take; lia).
    assert (HB : length B = (len s - S x)%nat) by (subst B; rewrite length_drop; lia).
    assert (HC : length C = (length (backing s) - (len s - 1))%nat)
      by (subst C; apply length_drop).
    split; [unfold fits; cbn [backing len]; rewrite !length_app; lia |].
    split; [cbn [backing]; rewrite !length_app; lia |].
    split; [cbn [len]; lia |]. split.
    + unfold elems at 1. cbn [backing len].
      rewrite app_assoc, take_app_length' by (rewrite length_app; lia).
      rewrite Hr. subst A B. f_equal. unfold elems. rewrite take_take. f_equal. lia.
    + intros j Hj. cbn [backing].
      rewrite app_assoc, lookup_app_r by (rewrite length_app; lia).
      rewrite length_app, HA, HB. subst C. rewrite lookup_drop. f_equal. lia.
  - destruct Hi as [_ Hr]. rewrite Hr. repeat split; auto.
Qed.

Lemma shrinks_refl (s : slice) : fits s -> shrinks s s.
Proof. intros H. repeat split; auto. Qed.

Lemma shrinks_trans (s1 s2 s3 : slice) :
  shrinks s1 s2 -> shrinks s2 s3 -> shrinks s1 s3.
Proof.
  intros (F2 & L2 & N2 & T2 & C2) (F3 & L3 & N3 & T3 & C3).
  split; [exact F3 |]. split; [congruence |]. split; [lia |]. split.
  - intros j Hj. rewrite T3 by lia. apply T2, Hj.
  - intros a. specialize (C2 a). specialize (C3 a). lia.
Qed.

Lemma remove_shrinks (s : slice) (key : string) :
  fits s -> shrinks s (fst (remove s key)).
Proof.
  intros Hfit. destruct (remove_spec s key Hfit) as (F & L & N & E & T).
  split; [exact F |]. split; [exact L |]. split; [exact N |]. split; [exact T |].
  intros a. rewrite E, count_removeFirst. destruct (String.eqb a key); lia.
Qed.

Lemma pruneStep_shrinks (ba : string) (real : slice) (i : nat) :
  fits real -> shrinks real (pruneStep ba real i).
Proof.
  intros Hfit. unfold pruneStep. destruct (backing real !! i) as [ra |].
  - destruct (String.eqb ra ba); [apply remove_shrinks | apply shrinks_refl]; exact Hfit.
  - apply shrinks_refl, Hfit.
Qed.

Lemma scan_shrinks (ba : string) (idx : list nat) : forall real,
  fits real -> shrinks real (foldl (pruneStep ba) real idx).
Proof.
  induction idx as [| i idx IH]; intros real Hfit; [apply shrinks_refl, Hfit |].
  cbn [foldl]. pose proof (pruneStep_shrinks ba real i Hfit) as Hs.
  eapply shrinks_trans; [exact Hs |]. apply IH. exact (proj1 Hs).
Qed.

(** Cells that do not hold [ba] leave the window as it is. *)
Lemma scan_idle (ba : string) (idx : list nat) (real : slice) :
  (forall i, In i idx -> backing real !! i <> Some ba) ->
  foldl (pruneStep ba) real idx = real.
Proof.
  induction idx as [| i idx IH]; intros H; [reflexivity |]. cbn [foldl].
  assert (Hstep : pruneStep ba real i = real).
  { unfold pruneStep. pose proof (H i (or_introl eq_refl)) as Hi.
    destruct (backing real !! i) as [ra |]; [| reflexivity].
    destruct (String.eqb_spec ra ba) as [-> | _]; [congruence | reflexivity]. }
  rewrite Hstep. apply IH. intros j Hj. apply H. right. exact Hj.
Qed.

(** A cell that holds [ba] takes one [ba] out of the window. *)
Lemma pruneStep_hit (ba : string) (real : slice) (i : nat) :
  fits real -> backing real !! i = Some ba ->
  count (elems (pruneStep ba real i)) ba = pred (count (elems real) ba).
Proof.
  intros Hfit Hi. unfold pruneStep. rewrite Hi, String.eqb_refl.
  destruct (remove_spec real ba Hfit) as (_ & _ & _ & E & _).
  rewrite E, count_removeFirst, String.eqb_refl. reflexivity.
Qed.

(** A scan that reaches the first [ba] of the window takes it out. *)
Lemma scan_hits (ba : string) (n p : nat) (real : slice) :
  fits real -> indexOf ba (elems real) = Some p -> (p < n)%nat ->
  (count (elems (pruneScan ba n real)) ba <= pred (count (elems real) ba))%nat.
Proof.
  intros Hfit Hp Hn. unfold pruneScan.
  pose proof (indexOf_spec ba (elems real)) as Hi. rewrite Hp in Hi.
  destruct Hi as (Hx & Hl & _ & _ & Hj & _).
  rewrite (elems_length _ Hfit) in Hx.
  assert (Hcell : forall j, (j < len real)%nat -> backing real !! j = elems real !! j).
  { intros j Hlt. unfold elems. rewrite lookup_take_lt by exact Hlt. reflexivity. }
  replace n with (p + S (n - S p))%nat by lia.
  rewrite seq_app, foldl_app. cbn [seq foldl Nat.add].
  rewrite (scan_idle ba (seq 0 p) real).
  - pose proof (pruneStep_hit ba real p Hfit) as Hhit.
    rewrite (Hcell p Hx) in Hhit. specialize (Hhit Hl).
    pose proof (pruneStep_shrinks ba real p Hfit) as Hs.
    destruct (scan_shrinks ba (seq (S p) (n - S p)) _ (proj1 Hs)) as (_ & _ & _ & _ & C).
    specialize (C ba). lia.
  - intros i Hin. apply in_seq in Hin. rewrite (Hcell i) by lia. apply Hj. lia.
Qed.

(** After the scan for [ba] no [ba] is left in the window, when the
    window held it once at most, or twice at most with the last cell of
    the array holding it too. *)
Lemma scan_clears (ba : string) (n : nat) (real : slice) :
  fits real -> n = length (backing real) ->
  (count (elems real) ba <= 1)%nat
  \/ ((count (elems real) ba <= 2)%nat /\ backing real !! (n - 1)%nat = Some ba) ->
  count (elems (pruneScan ba n real)) ba = 0%nat.
Proof.
  intros Hfit Hn Hc.
  pose proof (indexOf_spec ba (elems real)) as Hi.
  pose proof (elems_length _ Hfit) as Hlen. unfold fits in Hfit.
  destruct (indexOf ba (elems real)) as [p |] eqn:Hp.
  2:{ destruct Hi as [Hnot _].
      destruct (scan_shrinks ba (seq 0 n) real Hfit) as (_ & _ & _ & _ & C).
      specialize (C ba).
      rewrite (proj1 (count_occ_not_In string_dec _ _) Hnot) in C.
      unfold pruneScan. lia. }
  destruct Hi as (Hx & _ & _ & _ & _ & Hd). rewrite Hlen in Hx.
  destruct (Nat.le_gt_cases (count (elems real) ba) 1) as [Hone | Htwo].
  { pose proof (scan_hits ba n p real Hfit Hp ltac:(lia)). lia. }
  destruct Hc as [Hc | [Hc Hlast]]; [lia |].
  assert (Hp1 : (S p < len real)%nat).
  { destruct (drop (S p) (elems real)) as [| e rest] eqn:Hdrop.
    - cbn in Hd. lia.
    - apply (f_equal length) in Hdrop. rewrite length_drop, Hlen in Hdrop.
      cbn in Hdrop. lia. }
  pose proof (scan_hits ba (n - 1) p real Hfit Hp ltac:(lia)) as Hfirst.
  pose proof (scan_shrinks ba (seq 0 (n - 1)) real Hfit) as (F1 & _ & _ & T1 & _).
  unfold pruneScan in *.
  replace n with ((n - 1) + 1)%nat at 1 by lia.
  rewrite seq_app, foldl_app. cbn [seq foldl Nat.add].
  rewrite pruneStep_hit; [lia | exact F1 |].
  rewrite T1 by lia. exact Hlast.
Qed.

(** The whole pruning: every build artifact is cleared from the window,
    provided each occurs in the requirements once at most, or twice at
    most when it is their last element. *)
Lemma prune_clears (requires : list string) (build : list string) :
  (forall ba, In ba build ->
     (count requires ba <= 1)%nat
     \/ ((count requires ba <= 2)%nat
         /\ requires !! (length requires - 1)%nat = Some ba)) ->
  shrinks (sliceOf requires) (prune build requires)
  /\ forall ba, In ba build -> count (elems (prune build requires)) ba = 0%nat.
Proof.
  unfold prune. set (n := length requires).
  assert (Hgen : forall bs real,
             shrinks (sliceOf requires) real ->
             (forall ba, In ba bs ->
                (count requires ba <= 1)%nat
                \/ ((count requires ba <= 2)%nat /\ requires !! (n - 1)%nat = Some ba)) ->
             shrinks (sliceOf requires)
               (foldl (fun real ba => pruneScan ba n real) real bs)
             /\ (forall a, (count (elems (foldl (fun real ba => pruneScan ba n real) real bs)) a
                            <= count (elems real) a)%nat)
             /\ forall ba, In ba bs ->
                  count (elems (foldl (fun real ba => pruneScan ba n real) real bs)) ba
                  = 0%nat).
  { induction bs as [| b bs IH]; intros real Hs Hcond; cbn [foldl].
    - split; [exact Hs |]. split; [intros a; lia | intros ba []].
    - destruct Hs as (F & L & N & T & C).
      assert (Helems : elems (sliceOf requires) = requires).
      { unfold elems, sliceOf. cbn. apply firstn_all. }
      rewrite Helems in C. cbn [sliceOf backing len] in L, N, T.
      pose proof (scan_shrinks b (seq 0 n) real F) as Hs1. fold (pruneScan b n real) in Hs1.
      assert (H0 : count (elems (pruneScan b n real)) b = 0%nat).
      { apply scan_clears; [exact F | subst n; congruence |].
        destruct (Hcond b (or_introl eq_refl)) as [H1 | [H2 Hlast]].
        - left. specialize (C b). lia.
        - right. split; [specialize (C b); lia |].
          rewrite T by (fold n; lia). exact Hlast. }
      assert (Hs' : shrinks (sliceOf requires) (pruneScan b n real)).
      { eapply shrinks_trans; [| exact Hs1]. repeat split; auto.
        rewrite Helems. exact C. }
      destruct (IH _ Hs' (fun ba H => Hcond ba (or_intror H))) as (S2 & C2 & Z2).
      split; [exact S2 |]. split.
      + intros a. destruct Hs1 as (_ & _ & _ & _ & C1).
        specialize (C1 a). specialize (C2 a). lia.
      + intros ba [<- | Hin]; [| exact (Z2 ba Hin)].
        specialize (C2 b). lia. }
  intros Hcond.
  assert (H0 : shrinks (sliceOf requires) (sliceOf requires)).
  { apply shrinks_refl. unfold fits, sliceOf. cbn. lia. }
  destruct (Hgen build _ H0 Hcond) as (S & _ & Z). auto.
Qed.

End PruneFacts.

Section PlannerInvariant.
Import GoLib Spec.

Variable CanArtifact : string -> bool.

Local Abbreviation count := (count_occ string_dec).

Lemma uniqueFrom_spec (l : list string) : forall keys : gset string,
  NoDup (uniqueFrom keys l)
  /\ forall a, In a (uniqueFrom keys l) <-> In a l /\ a ∉ keys.
Proof.
  induction l as [| e l IH]; intros keys; cbn [uniqueFrom].
  - split; [constructor |]. intros a. split; [intros [] | intros [[] _]].
  - destruct (decide (e ∈ keys)) as [Hin | Hnot].
    + destruct (IH keys) as [Hnd Hel]. split; [exact Hnd |].
      intros a. rewrite Hel. split.
      * intros [H1 H2]. split; [right; exact H1 | exact H2].
      * intros [[<- | H1] H2]; [contradiction | auto].
    + destruct (IH ({[e]} ∪ keys)) as [Hnd Hel]. split.
      * constructor; [| exact Hnd].
        rewrite list_elem_of_In, Hel. intros [_ H]. apply H.
        apply elem_of_union_l, elem_of_singleton. reflexivity.
      * intros a. cbn [In]. rewrite Hel. split.
        -- intros [<- | [H1 H2]]; [auto |]. split; [auto |].
           intros Hk. apply H2, elem_of_union_r, Hk.
        -- intros [[<- | H1] H2]; [auto |].
           destruct (string_dec e a) as [-> | Hne]; [auto |].
           right. split; [exact H1 |].
           intros [Hs | Hk]%elem_of_union; [| contradiction].
           apply elem_of_singleton in Hs. congruence.
Qed.

Lemma unique_NoDup (l : list string) : NoDup (unique l).
Proof. apply uniqueFrom_spec. Qed.

Lemma unique_In (l : list string) (a : string) : In a (unique l) <-> In a l.
Proof.
  unfold unique. rewrite (proj2 (uniqueFrom_spec l ∅)).
  split; [intros [H _]; exact H | intros H; split; [exact H | apply not_elem_of_empty]].
Qed.

(** The groups of [artifactOrder] hold the build artifacts, all of them
    and nothing else. *)
Lemma fileByOrder_elements (artifact : string) (build : list string) :
  forall m0 m : gmap Z (list string),
    fileByOrder CanArtifact artifact build m0 = Some m ->
    forall a, (exists k l, m !! k = Some l /\ In a l)
              <-> (exists k l, m0 !! k = Some l /\ In a l) \/ In a build.
Proof.
  induction build as [| v rest IH]; intros m0 m H a; cbn [fileByOrder] in H.
  - injection H as <-. split; [auto | intros [H | []]; exact H].
  - destruct (quickStage CanArtifact artifact v) as [fs |]; [| discriminate H].
    cbn [mbind option_bind] in H. rewrite (IH _ _ H a). clear H IH.
    set (k0 := ExecutionOrder fs). cbn [In]. split.
    + intros [(k & l & Hk & Hin) | Hin]; [| auto].
      destruct (decide (k0 = k)) as [<- | Hne].
      * rewrite lookup_insert_eq in Hk. injection Hk as <-.
        apply in_app_or in Hin as [Hin | [<- | []]]; [| auto].
        left. destruct (m0 !! k0) as [l0 |] eqn:E; [eauto | destruct Hin].
      * rewrite lookup_insert_ne in Hk by exact Hne. eauto.
    + intros [(k & l & Hk & Hin) | [<- | Hin]]; [| | auto].
      * left. destruct (decide (k0 = k)) as [<- | Hne].
        -- exists k0, (l ++ [v]). rewrite lookup_insert_eq, Hk. cbn.
           split; [reflexivity | apply in_or_app; auto].
        -- exists k, l. rewrite lookup_insert_ne by exact Hne. auto.
      * left. exists k0, (default [] (m0 !! k0) ++ [v]).
        rewrite lookup_insert_eq. split; [reflexivity |].
        apply in_or_app. right. left. reflexivity.
Qed.

Lemma rangeArtifactOrder_elements (rng : MapRange Z) (m : gmap Z (list string)) :
  fairRange rng ->
  forall a, In a (rangeArtifactOrder rng m) <-> exists k l, m !! k = Some l /\ In a l.
Proof.
  intros Hf a. unfold rangeArtifactOrder. rewrite in_concat. split.
  - intros (l & Hl & Hin). apply list_elem_of_In, list_elem_of_fmap in Hl as (k & -> & _).
    destruct (m !! k) as [l |] eqn:E; [eauto | destruct Hin].
  - intros (k & l & Hk & Hin). exists l. split; [| exact Hin].
    apply list_elem_of_In, list_elem_of_fmap. exists k. rewrite Hk. split; [reflexivity |].
    apply list_elem_of_In, (Permutation_in _ (Permutation_sym (Hf _))).
    apply in_map_iff. exists (k, l). split; [reflexivity |].
    apply list_elem_of_In, elem_of_map_to_list, Hk.
Qed.

(** The templates of [quickStage]. *)
Lemma quickStage_template (artifact : string) (working : Stage) :
  quickStage CanArtifact artifact artifact = Some working ->
  BuildArtifacts working = [artifact]
  /\ ((artifact = "base" /\ RequireArtifacts working = ["base"])
      \/ (artifact = "live-iso"
          /\ RequireArtifacts working = ["qemu"; "metal"; "metal4k"])
      \/ RequireArtifacts working = []
      \/ (artifact <> "base" /\ artifact <> "live-iso"
          /\ RequireArtifacts working = ["qemu"])).
Proof.
  unfold quickStage.
  destruct (String.eqb_spec artifact "base") as [-> | Hb].
  { intros [= <-]. auto. }
  destruct (String.eqb_spec artifact "finalize") as [-> | Hf].
  { intros [= <-]. auto. }
  destruct (String.eqb_spec artifact "live-iso") as [-> | Hl].
  { intros [= <-]. auto. }
  destruct (String.eqb_spec artifact "metal") as [-> | Hm].
  { intros [= <-]. auto. }
  destruct (String.eqb_spec artifact "metal4k") as [-> | Hk].
  { intros [= <-]. auto. }
  destruct (CanArtifact artifact); [| discriminate].
  intros [= <-]. cbn. auto 10.
Qed.

Lemma sliceOf_fits (l : list string) : fits (sliceOf l).
Proof. unfold fits, sliceOf. cbn. lia. Qed.

Lemma sliceOf_elems (l : list string) : elems (sliceOf l) = l.
Proof. unfold elems, sliceOf. cbn. apply firstn_all. Qed.

Lemma prune_fits (build requires : list string) : fits (prune build requires).
Proof.
  unfold prune. generalize (sliceOf_fits requires). generalize (sliceOf requires).
  induction build as [| b bs IH]; intros real Hfit; [exact Hfit |].
  cbn [foldl]. apply IH. exact (proj1 (scan_shrinks b _ real Hfit)).
Qed.

(** What [settle] leaves in the two lists of the stage. *)
Lemma settle_fields (stage working : Stage) (newOrder : list string) :
  let requires := RequireArtifacts stage ++ RequireArtifacts working in
  BuildArtifacts (settle stage working newOrder) = unique newOrder
  /\ exists rf,
      RequireArtifacts (settle stage working newOrder) = unique (elems rf)
      /\ (forall a, (count (elems rf) a
                     <= count (elems (prune (unique newOrder) requires)) a)%nat)
      /\ (count (elems rf) "base"
          <= pred (count (elems (prune (unique newOrder) requires)) "base"))%nat.
Proof.
  intros requires. unfold settle. fold requires.
  set (r := prune (unique newOrder) requires).
  assert (Hr : fits r) by apply prune_fits.
  pose proof (remove_spec r "base" Hr) as (F1 & _ & _ & E1 & _).
  pose proof (remove_shrinks r "base" Hr) as (_ & _ & _ & _ & C1).
  destruct (remove r "base") as [r1 foundBase]. cbn [fst] in *.
  assert (Hbase : (count (elems r1) "base" <= pred (count (elems r) "base"))%nat).
  { rewrite E1, count_removeFirst. cbn. lia. }
  split; [destruct foundBase; reflexivity |].
  destruct foundBase.
  - pose proof (remove_shrinks r1 "ostree" F1) as (F2 & _ & _ & _ & C2).
    pose proof (remove_shrinks _ "qemu" F2) as (_ & _ & _ & _ & C3).
    eexists. split; [reflexivity |]. split.
    + intros a. specialize (C1 a). specialize (C2 a). specialize (C3 a). lia.
    + specialize (C2 "base"). specialize (C3 "base"). lia.
  - exists r1. split; [reflexivity |]. split; [exact C1 | exact Hbase].
Qed.

(** One step of the planner keeps [planned]. *)
Theorem addShorthandToStage_planned (rng : MapRange Z) (artifact : string)
        (stage stage' : Stage) :
  fairRange rng -> planned stage ->
  addShorthandToStage CanArtifact rng artifact stage = Some stage' ->
  planned stage'.
Proof.
  intros Hf (HB & HP & Hdis & Hset). unfold addShorthandToStage.
  destruct (quickStage CanArtifact artifact artifact) as [working |] eqn:Hw;
    [| discriminate]. cbn [mbind option_bind].
  destruct (fileByOrder _ _ _ _) as [m |] eqn:Hm; [| discriminate].
  cbn [mbind option_bind]. intros [= <-].
  destruct (quickStage_template _ _ Hw) as [Hbuild Hreq].
  set (newOrder := rangeArtifactOrder rng m).
  assert (Hnew : forall a, In a newOrder
                           <-> In a (BuildArtifacts stage) \/ a = artifact).
  { intros a. unfold newOrder.
    rewrite (rangeArtifactOrder_elements rng m Hf), (fileByOrder_elements _ _ _ _ Hm).
    rewrite Hbuild. split.
    - intros [(k & l & Hk & _) | Hin]; [rewrite lookup_empty in Hk; discriminate |].
      apply in_app_or in Hin as [Hin | [<- | []]]; auto.
    - intros [Hin | ->]; right; apply in_or_app; [auto | right; left; reflexivity]. }
  set (P := RequireArtifacts stage) in *. set (T := RequireArtifacts working) in *.
  assert (HcP : forall a, (count P a <= 1)%nat).
  { apply NoDup_count_occ, NoDup_ListNoDup, HP. }
  assert (HP0 : forall a, ~ In a P -> count P a = 0%nat).
  { intros a. apply count_occ_not_In. }
  assert (HPbase : ~ In "base" P).
  { intros H. destruct (Hset _ H) as [H1 | [H1 | H1]]; discriminate H1. }
  assert (HPiso : ~ In "live-iso" P).
  { intros H. destruct (Hset _ H) as [H1 | [H1 | H1]]; discriminate H1. }
  assert (HcT : forall a, (count T a <= 1)%nat).
  { intros a. destruct Hreq as [[_ ->] | [[_ ->] | [-> | (_ & _ & ->)]]];
      cbn [count_occ]; repeat destruct (string_dec _ _); try congruence; lia. }
  assert (Hcond : forall ba, In ba (unique newOrder) ->
            (count (P ++ T) ba <= 1)%nat
            \/ ((count (P ++ T) ba <= 2)%nat
                /\ (P ++ T) !! (length (P ++ T) - 1)%nat = Some ba)).
  { intros ba Hin. apply (proj1 (unique_In _ _)), (proj1 (Hnew _)) in Hin.
    rewrite count_occ_app.
    destruct Hin as [Hin | ->].
    { left. rewrite (HP0 ba (fun H => Hdis ba Hin H)). apply HcT. }
    destruct Hreq as [[-> HT] | [[-> HT] | [HT | (_ & _ & HT)]]]; rewrite HT.
    - left. rewrite (HP0 _ HPbase). cbn. lia.
    - left. rewrite (HP0 _ HPiso). cbn. lia.
    - left. cbn. specialize (HcP artifact). lia.
    - destruct (string_dec artifact "qemu") as [-> | Hq].
      + right. specialize (HcP "qemu"). split; [cbn; lia |].
        rewrite length_app. cbn [length].
        rewrite lookup_app_r by lia.
        replace (length P + 1 - 1 - length P)%nat with 0%nat by lia. reflexivity.
      + left. cbn [count_occ]. destruct (string_dec "qemu" artifact); [congruence |].
        specialize (HcP artifact). lia. }
  destruct (prune_clears (P ++ T) (unique newOrder) Hcond) as [Hs Hz].
  destruct Hs as (_ & _ & _ & _ & Hle). rewrite sliceOf_elems in Hle.
  destruct (settle_fields stage working newOrder) as [HBf (rf & HRf & Hrf & Hrfbase)].
  fold P T in Hrf, Hrfbase.
  unfold planned. rewrite HBf, HRf.
  split; [apply unique_NoDup |]. split; [apply unique_NoDup |]. split.
  - intros a Ha Hra. apply (proj1 (unique_In _ _)) in Hra.
    apply (proj1 (count_occ_In string_dec _ _)) in Hra.
    specialize (Hrf a). rewrite (Hz a Ha) in Hrf. lia.
  - intros a Ha. apply (proj1 (unique_In _ _)) in Ha.
    assert (Hpos : (count (elems rf) a > 0)%nat) by (apply count_occ_In, Ha).
    assert (HinPT : In a (P ++ T)).
    { apply (count_occ_In string_dec). specialize (Hrf a). specialize (Hle a). lia. }
    apply in_app_or in HinPT as [HinP | HinT]; [exact (Hset a HinP) |].
    destruct Hreq as [[_ HT] | [[_ HT] | [HT | (_ & _ & HT)]]];
      rewrite HT in HinT; cbn [In] in HinT.
    + destruct HinT as [<- | []]. exfalso.
      specialize (Hle "base"). rewrite count_occ_app, (HP0 _ HPbase) in Hle.
      specialize (HcT "base"). lia.
    + destruct HinT as [<- | [<- | [<- | []]]]; auto.
    + destruct HinT.
    + destruct HinT as [<- | []]. auto.
Qed.

Lemma zeroStage_planned : planned zeroStage.
Proof.
  unfold planned, zeroStage. cbn.
  split; [constructor |]. split; [constructor |]. split; intros a [].
Qed.

Lemma addShorthands_planned (rt : nat -> MapRange Z) (names : list string) :
  (forall k, fairRange (rt k)) ->
  forall k s s' k',
    planned s -> addShorthands CanArtifact rt k names s = Some (s', k') -> planned s'.
Proof.
  intros Hf. induction names as [| name rest IH]; intros k s s' k' Hs H;
    cbn [addShorthands] in H.
  - injection H as <- _. exact Hs.
  - destruct (addShorthandToStage CanArtifact (rt k) name s) as [s1 |] eqn:E;
      [| discriminate]. cbn [mbind option_bind] in H.
    apply (IH _ _ _ _ (addShorthandToStage_planned _ _ _ _ (Hf k) Hs E) H).
Qed.

Lemma generateLoop_planned (rt : nat -> MapRange Z) (fromNames : list string) :
  (forall k, fairRange (rt k)) ->
  forall k stages stages',
    Forall planned stages ->
    generateLoop CanArtifact rt k fromNames stages = Some stages' ->
    Forall planned stages'.
Proof.
  intros Hf. induction fromNames as [| group rest IH]; intros k stages stages' Hs H;
    cbn [generateLoop] in H.
  - injection H as <-. exact Hs.
  - destruct (addShorthands CanArtifact rt k (Split group "+") zeroStage)
      as [[s k'] |] eqn:E; [| discriminate]. cbn [mbind option_bind] in H.
    apply (IH _ _ _ (Forall_app_2 _ _ _ Hs
                       (Forall_cons_2 _ _ _
                          (addShorthands_planned rt _ Hf _ _ _ _ zeroStage_planned E)
                          (Forall_nil_2 _))) H).
Qed.

(** Every stage the planner makes has duplicate-free build artifacts and
    requirements, requires nothing that it builds, and requires nothing
    but qemu, metal and metal4k. *)
Theorem GenerateStages_planned (rt : nat -> MapRange Z) (fromNames : list string)
        (j j' : JobSpec) :
  (forall k, fairRange (rt k)) ->
  Forall planned (Stages j) ->
  GenerateStages CanArtifact rt fromNames j = Some j' ->
  Forall planned (Stages j').
Proof.
  intros Hf Hs. unfold GenerateStages. destruct fromNames as [| group rest].
  - intros [= <-]. exact Hs.
  - destruct (generateLoop _ _ _ _ _) as [stages |] eqn:E; [| discriminate].
    cbn [mbind option_bind]. intros [= <-]. cbn [Stages].
    exact (generateLoop_planned rt _ Hf _ _ _ Hs E).
Qed.

End PlannerInvariant.

Section PlannerFacts.
Import GoLib Spec Examples.

Variable CanArtifact : string -> bool.

(** Resolves the range of one planner step whose map has one or two
    keys, leaving one goal per order of visit. *)
Ltac resolve_range Hf :=
  unfold addShorthandToStage; simpl; unfold rangeArtifactOrder;
  match goal with
  | |- context [?rng (map fst (map_to_list ?m))] =>
      let ks := eval vm_compute in (map fst (map_to_list m)) in
      replace (map fst (map_to_list m)) with ks by (vm_compute; reflexivity);
      lazymatch ks with
      | [?a] => rewrite (fair_one rng a Hf)
      | [?a; ?b] => destruct (fair_two rng a b Hf) as [-> | ->]
      end
  end.

Lemma addShorthand_base_first (rng : MapRange Z) :
  fairRange rng ->
  addShorthandToStage CanArtifact rng "base" zeroStage
  = Some (mkStage "Generated Stage in Execution Order 1"
            "Stage 1 execution for base" false false false
            [] ["base"] [] [] [] false 1).
Proof. intros Hf. resolve_range Hf. vm_compute. reflexivity. Qed.

Lemma addShorthand_metal_second (rng : MapRange Z) :
  fairRange rng ->
  exists build,
    addShorthandToStage CanArtifact rng "metal"
      (mkStage "Generated Stage in Execution Order 1"
         "Stage 1 execution for base" false false false
         [] ["base"] [] [] [] false 1)
    = Some (mkStage "Generated Stage in Execution Order 1"
              "Stage 1 execution for base,metal" false false false
              [] build [] [] [] false 1)
    /\ (build = ["base"; "metal"] \/ build = ["metal"; "base"]).
Proof.
  intros Hf. resolve_range Hf; eexists; (split; [vm_compute; reflexivity |]); auto.
Qed.

Lemma addShorthand_live_iso_third (rng : MapRange Z) (build : list string) :
  fairRange rng ->
  build = ["base"; "metal"] \/ build = ["metal"; "base"] ->
  exists s,
    addShorthandToStage CanArtifact rng "live-iso"
      (mkStage "Generated Stage in Execution Order 1"
         "Stage 1 execution for base,metal" false false false
         [] build [] [] [] false 1)
    = Some s
    /\ ExecutionOrder s = 1
    /\ (BuildArtifacts s = ["base"; "metal"; "live-iso"]
        \/ BuildArtifacts s = ["metal"; "live-iso"; "base"])
    /\ RequireArtifacts s = ["qemu"; "metal4k"].
Proof.
  intros Hf [-> | ->]; resolve_range Hf; eexists;
    (split; [vm_compute; reflexivity |]); simpl; auto.
Qed.

End PlannerFacts.

Section PlannerClaims.
Import GoLib Spec Examples.

(** C10. Called with no shorthand group, [GenerateStages] leaves the
    job spec as it was: no stage is appended, and [DelayedMetaMerge]
    and [StrictMode] keep their values. *)
Theorem GenerateStages_no_groups (CanArtifact : string -> bool)
        (rt : nat -> MapRange Z) (j : JobSpec) :
  GenerateStages CanArtifact rt [] j = Some j.
Proof. reflexivity. Qed.

(** With a group to plan, the two flags of the job spec are set. *)
Lemma GenerateStages_sets_flags (CanArtifact : string -> bool)
      (rt : nat -> MapRange Z) (group : string) (rest : list string)
      (j j' : JobSpec) :
  GenerateStages CanArtifact rt (group :: rest) j = Some j' ->
  DelayedMetaMerge j' = true /\ StrictMode (JobOf j') = true.
Proof.
  unfold GenerateStages.
  destruct (generateLoop _ _ _ _ _) as [stages |]; [| discriminate].
  intros [= <-]. split; reflexivity.
Qed.

(** C2, as the claim has it, fails: on the group [base+metal+live-iso],
    even when the map range visits the lowest order first, the stage
    does not come out with an empty [RequireArtifacts]. *)
Lemma GenerateStages_base_metal_live_iso_requires :
  ~ exists s,
      GenerateStages noArtifact lowestFirst ["base+metal+live-iso"] emptyJobSpec
      = Some (mkJobSpec [s] true (mkJob true))
      /\ ExecutionOrder s = 1
      /\ BuildArtifacts s = ["base"; "metal"; "live-iso"]
      /\ RequireArtifacts s = [].
Proof.
  intros (s & Hrun & _ & _ & Hreq).
  vm_compute in Hrun. injection Hrun as <-. discriminate Hreq.
Qed.

(** C2, amended. On the single group [base+metal+live-iso],
    [GenerateStages] appends exactly one stage; its [ExecutionOrder]
    is 1; its [BuildArtifacts] hold base, metal and live-iso once
    each, metal before live-iso; and its [RequireArtifacts], qemu
    left aside, are exactly metal4k, which live-iso requires and the
    stage does not build. *)
Theorem GenerateStages_base_metal_live_iso (CanArtifact : string -> bool)
        (rt : nat -> MapRange Z) (j : JobSpec) :
  (forall k, fairRange (rt k)) ->
  exists s,
    GenerateStages CanArtifact rt ["base+metal+live-iso"] j
    = Some (mkJobSpec (Stages j ++ [s]) true (mkJob true))
    /\ ExecutionOrder s = 1
    /\ Permutation (BuildArtifacts s) ["base"; "metal"; "live-iso"]
    /\ filter (fun a => negb (String.eqb a "base")) (BuildArtifacts s)
       = ["metal"; "live-iso"]
    /\ filter (fun a => negb (String.eqb a "qemu")) (RequireArtifacts s)
       = ["metal4k"].
Proof.
  intros Hf.
  destruct (addShorthand_metal_second CanArtifact (rt 1%nat) (Hf _))
    as (build & Hmetal & Hbuild).
  destruct (addShorthand_live_iso_third CanArtifact (rt 2%nat) build (Hf _) Hbuild)
    as (s & Hiso & Hord & Hb & Hr).
  exists s. split.
  - assert (Hrun : addShorthands CanArtifact rt 0
                       ["base"; "metal"; "live-iso"] zeroStage = Some (s, 3%nat)).
    { cbn [addShorthands].
      rewrite (addShorthand_base_first CanArtifact (rt 0%nat) (Hf _)).
      cbn [mbind option_bind]. rewrite Hmetal.
      cbn [mbind option_bind]. rewrite Hiso. reflexivity. }
    unfold GenerateStages, generateLoop.
    change (Split "base+metal+live-iso" "+") with ["base"; "metal"; "live-iso"].
    rewrite Hrun. reflexivity.
  - split; [exact Hord |]. rewrite Hr.
    destruct Hb as [-> | ->]; (split; [| split; reflexivity]).
    + reflexivity.
    + change ["metal"; "live-iso"; "base"] with (["metal"; "live-iso"] ++ ["base"]).
      rewrite Permutation_app_comm. reflexivity.
Qed.

Lemma GenerateStages_base_metal_live_iso_witness :
  exists s,
    GenerateStages noArtifact lowestFirst ["base+metal+live-iso"] emptyJobSpec
    = Some (mkJobSpec (Stages emptyJobSpec ++ [s]) true (mkJob true))
    /\ ExecutionOrder s = 1
    /\ Permutation (BuildArtifacts s) ["base"; "metal"; "live-iso"]
    /\ filter (fun a => negb (String.eqb a "base")) (BuildArtifacts s)
       = ["metal"; "live-iso"]
    /\ filter (fun a => negb (String.eqb a "qemu")) (RequireArtifacts s)
       = ["metal4k"].
Proof.
  apply (GenerateStages_base_metal_live_iso noArtifact lowestFirst emptyJobSpec).
  intros k. apply ascending_fair.
Defined.

(** C3. The stages that come out depend on the order in which the map
    range visits [artifactOrder]: on the group [base+metal] two runs,
    each visiting every key once, build [base, metal] in one and
    [metal, base] in the other. *)
Theorem GenerateStages_depends_on_map_range :
  fairRange ascending /\ fairRange descending
  /\ ((fun j => map BuildArtifacts (Stages j)) <$>
        GenerateStages noArtifact lowestFirst ["base+metal"] emptyJobSpec
      = Some [["base"; "metal"]])
  /\ ((fun j => map BuildArtifacts (Stages j)) <$>
        GenerateStages noArtifact highestFirst ["base+metal"] emptyJobSpec
      = Some [["metal"; "base"]])
  /\ GenerateStages noArtifact lowestFirst ["base+metal"] emptyJobSpec
     <> GenerateStages noArtifact highestFirst ["base+metal"] emptyJobSpec.
Proof.
  split; [apply ascending_fair |]. split; [apply descending_fair |].
  split; [vm_compute; reflexivity |]. split; [vm_compute; reflexivity |].
  vm_compute. discriminate.
Qed.

(** C1. A stage that builds base may still require qemu: on the group
    [base+live-iso] the planner, whichever way the map range goes,
    yields one stage with base among its [BuildArtifacts] and qemu
    among its [RequireArtifacts]. *)
Theorem GenerateStages_base_keeps_qemu :
  (exists s,
      GenerateStages noArtifact lowestFirst ["base+live-iso"] emptyJobSpec
      = Some (mkJobSpec [s] true (mkJob true))
      /\ BuildArtifacts s = ["base"; "live-iso"]
      /\ RequireArtifacts s = ["qemu"; "metal"; "metal4k"])
  /\ (exists s,
      GenerateStages noArtifact highestFirst ["base+live-iso"] emptyJobSpec
      = Some (mkJobSpec [s] true (mkJob true))
      /\ BuildArtifacts s = ["live-iso"; "base"]
      /\ RequireArtifacts s = ["qemu"; "metal"; "metal4k"]).
Proof.
  split; eexists; (split; [vm_compute; reflexivity |]); split; reflexivity.
Qed.

End PlannerClaims.

Section PlannerDescription.
Import GoLib Spec.

Variable CanArtifact : string -> bool.

Local Abbreviation count := (count_occ string_dec).

(** A scan for [ba] takes nothing but [ba] out of the window. *)
Lemma scan_keeps_others (ba a : string) (idx : list nat) : forall real,
  fits real -> a <> ba ->
  count (elems (foldl (pruneStep ba) real idx)) a = count (elems real) a.
Proof.
  induction idx as [| i idx IH]; intros real Hfit Hne; [reflexivity |].
  cbn [foldl]. rewrite IH by (exact (proj1 (pruneStep_shrinks ba real i Hfit)) || exact Hne).
  unfold pruneStep. destruct (backing real !! i) as [ra |]; [| reflexivity].
  destruct (String.eqb_spec ra ba) as [-> | _]; [| reflexivity].
  destruct (remove_spec real ba Hfit) as (_ & _ & _ & E & _).
  rewrite E, count_removeFirst.
  destruct (String.eqb_spec a ba); [contradiction | reflexivity].
Qed.

Lemma prune_keeps_others (build requires : list string) (a : string) :
  ~ In a build -> count (elems (prune build requires)) a = count requires a.
Proof.
  unfold prune. intros Hnot.
  assert (H : forall real, fits real ->
            count (elems (foldl (fun real ba => pruneScan ba (length requires) real)
                                real build)) a
            = count (elems real) a).
  { clear -Hnot. generalize (length requires). intros n.
    induction build as [| b bs IH]; intros real Hfit; [reflexivity |].
    cbn [foldl]. rewrite IH.
    - apply scan_keeps_others; [exact Hfit |]. intros ->. apply Hnot. left. reflexivity.
    - intros H. apply Hnot. right. exact H.
    - exact (proj1 (scan_shrinks b _ real Hfit)). }
  rewrite (H _ (sliceOf_fits requires)), sliceOf_elems. reflexivity.
Qed.

Lemma remove_absent (s : slice) (key : string) :
  ~ In key (elems s) -> remove s key = (s, false).
Proof.
  intros Hnot. unfold remove. pose proof (indexOf_spec key (elems s)) as Hi.
  destruct (indexOf key (elems s)) as [x |]; [| reflexivity].
  destruct Hi as (_ & Hl & _). exfalso. apply Hnot.
  apply list_elem_of_In, list_elem_of_lookup. eauto.
Qed.

Lemma quickStage_order (artifact : string) (working : Stage) :
  quickStage CanArtifact artifact artifact = Some working ->
  0 < ExecutionOrder working.
Proof.
  unfold quickStage.
  repeat (destruct (String.eqb _ _); [intros [= <-]; reflexivity |]).
  destruct (CanArtifact artifact); [intros [= <-]; reflexivity | discriminate].
Qed.

(** When is every build artifact cleared by the pruning: the condition
    of [prune_clears], for a planned stage and a template. *)
Lemma planned_prune_condition (artifact : string) (stage working : Stage)
      (build : list string) :
  planned stage ->
  quickStage CanArtifact artifact artifact = Some working ->
  (forall a, In a build -> In a (BuildArtifacts stage) \/ a = artifact) ->
  forall ba, In ba build ->
    (count (RequireArtifacts stage ++ RequireArtifacts working) ba <= 1)%nat
    \/ ((count (RequireArtifacts stage ++ RequireArtifacts working) ba <= 2)%nat
        /\ (RequireArtifacts stage ++ RequireArtifacts working)
             !! (length (RequireArtifacts stage ++ RequireArtifacts working) - 1)%nat
           = Some ba).
Proof.
  intros (HB & HP & Hdis & Hset) Hw Hbuild ba Hin.
  destruct (quickStage_template _ _ _ Hw) as [_ Hreq].
  set (P := RequireArtifacts stage) in *. set (T := RequireArtifacts working) in *.
  assert (HcP : forall a, (count P a <= 1)%nat).
  { apply NoDup_count_occ, NoDup_ListNoDup, HP. }
  assert (HP0 : forall a, ~ In a P -> count P a = 0%nat).
  { intros a. apply count_occ_not_In. }
  assert (HPbase : ~ In "base" P).
  { intros H. destruct (Hset _ H) as [H1 | [H1 | H1]]; discriminate H1. }
  assert (HPiso : ~ In "live-iso" P).
  { intros H. destruct (Hset _ H) as [H1 | [H1 | H1]]; discriminate H1. }
  assert (HcT : forall a, (count T a <= 1)%nat).
  { intros a. destruct Hreq as [[_ ->] | [[_ ->] | [-> | (_ & _ & ->)]]];
      cbn [count_occ]; repeat destruct (string_dec _ _); try congruence; lia. }
  rewrite count_occ_app. destruct (Hbuild ba Hin) as [HinB | ->].
  { left. rewrite (HP0 ba (fun H => Hdis ba HinB H)). apply HcT. }
  destruct Hreq as [[-> HT] | [[-> HT] | [HT | (_ & _ & HT)]]]; rewrite HT.
  - left. rewrite (HP0 _ HPbase). cbn. lia.
  - left. rewrite (HP0 _ HPiso). cbn. lia.
  - left. cbn. specialize (HcP artifact). lia.
  - destruct (string_dec artifact "qemu") as [-> | Hq].
    + right. specialize (HcP "qemu"). split; [cbn; lia |].
      rewrite length_app. cbn [length].
      rewrite lookup_app_r by lia.
      replace (length P + 1 - 1 - length P)%nat with 0%nat by lia. reflexivity.
    + left. cbn [count_occ]. destruct (string_dec "qemu" artifact); [congruence |].
      specialize (HcP artifact). lia.
Qed.

(** One step of the planner, field by field. *)
Lemma addShorthandToStage_step (rng : MapRange Z) (artifact : string)
      (stage stage' : Stage) :
  fairRange rng -> planned stage ->
  addShorthandToStage CanArtifact rng artifact stage = Some stage' ->
  exists working,
    quickStage CanArtifact artifact artifact = Some working
    /\ (forall a, In a (BuildArtifacts stage')
                  <-> In a (BuildArtifacts stage) \/ a = artifact)
    /\ (forall a, In a (RequireArtifacts stage')
                  <-> (In a (RequireArtifacts stage) \/ In a (RequireArtifacts working))
                      /\ ~ (In a (BuildArtifacts stage) \/ a = artifact))
    /\ ExecutionOrder stage'
       = (if ((ExecutionOrder working <? ExecutionOrder stage)%Z
              || (ExecutionOrder stage =? 0)%Z)%bool
          then ExecutionOrder working else ExecutionOrder stage)
    /\ ID stage' = "Generated Stage in Execution Order " +:+ Itoa (ExecutionOrder stage').
Proof.
  intros Hf Hpl. unfold addShorthandToStage.
  destruct (quickStage CanArtifact artifact artifact) as [working |] eqn:Hw;
    [| discriminate]. cbn [mbind option_bind].
  destruct (fileByOrder _ _ _ _) as [m |] eqn:Hm; [| discriminate].
  cbn [mbind option_bind]. intros [= <-]. exists working. split; [reflexivity |].
  destruct (quickStage_template _ _ _ Hw) as [Hbuild Hreq].
  set (newOrder := rangeArtifactOrder rng m).
  assert (Hnew : forall a, In a (unique newOrder)
                           <-> In a (BuildArtifacts stage) \/ a = artifact).
  { intros a. rewrite unique_In. unfold newOrder.
    rewrite (rangeArtifactOrder_elements rng m Hf),
      (fileByOrder_elements _ _ _ _ _ Hm).
    rewrite Hbuild. split.
    - intros [(k & l & Hk & _) | Hin]; [rewrite lookup_empty in Hk; discriminate |].
      apply in_app_or in Hin as [Hin | [<- | []]]; auto.
    - intros [Hin | ->]; right; apply in_or_app; [auto | right; left; reflexivity]. }
  set (requires := RequireArtifacts stage ++ RequireArtifacts working).
  pose proof (planned_prune_condition artifact stage working (unique newOrder)
                Hpl Hw (fun a H => proj1 (Hnew a) H)) as Hcond.
  fold requires in Hcond.
  destruct (prune_clears requires (unique newOrder) Hcond) as [_ Hz].
  assert (Hbase : ~ In "base" (elems (prune (unique newOrder) requires))).
  { intros Hin. apply (count_occ_In string_dec) in Hin.
    destruct (in_dec string_dec "base" (unique newOrder)) as [Hb | Hnb].
    - rewrite (Hz _ Hb) in Hin. lia.
    - rewrite (prune_keeps_others _ _ _ Hnb) in Hin.
      apply (count_occ_In string_dec) in Hin. unfold requires in Hin.
      apply in_app_or in Hin as [Hin | Hin].
      + destruct Hpl as (_ & _ & _ & Hset).
        destruct (Hset _ Hin) as [H1 | [H1 | H1]]; discriminate H1.
      + destruct Hreq as [[-> HT] | [[_ HT] | [HT | (_ & _ & HT)]]];
          rewrite HT in Hin; cbn [In] in Hin.
        * apply Hnb, Hnew. auto.
        * destruct Hin as [H1 | [H1 | [H1 | []]]]; discriminate H1.
        * destruct Hin.
        * destruct Hin as [H1 | []]. discriminate H1. }
  assert (Hfields : BuildArtifacts (settle stage working newOrder) = unique newOrder
                    /\ RequireArtifacts (settle stage working newOrder)
                       = unique (elems (prune (unique newOrder) requires))
                    /\ ExecutionOrder (settle stage working newOrder)
                       = (if ((ExecutionOrder working <? ExecutionOrder stage)%Z
                              || (ExecutionOrder stage =? 0)%Z)%bool
                          then ExecutionOrder working else ExecutionOrder stage)
                    /\ ID (settle stage working newOrder)
                       = "Generated Stage in Execution Order "
                           +:+ Itoa (ExecutionOrder (settle stage working newOrder))).
  { unfold settle. fold requires. rewrite (remove_absent _ _ Hbase).
    repeat split; reflexivity. }
  destruct Hfields as (HBf & HRf & HOf & HIf).
  split; [intros a; rewrite HBf; apply Hnew |].
  split; [| split; [exact HOf | exact HIf]].
  intros a. rewrite HRf, unique_In, (count_occ_In string_dec).
  destruct (in_dec string_dec a (unique newOrder)) as [Hb | Hnb].
  - rewrite (Hz _ Hb). split; [lia |]. intros [_ Hn]. exfalso. apply Hn, Hnew, Hb.
  - rewrite (prune_keeps_others _ _ _ Hnb), <- (count_occ_In string_dec).
    unfold requires. rewrite in_app_iff. split.
    + intros H. split; [exact H |]. intros Hn. apply Hnb, Hnew, Hn.
    + intros [H _]. exact H.
Qed.


(** A group of shorthands, added one after the other to a planned
    stage. *)
Lemma addShorthands_describes (rt : nat -> MapRange Z) :
  (forall k, fairRange (rt k)) ->
  forall names k s s' k',
    planned s -> 0 <= ExecutionOrder s ->
    addShorthands CanArtifact rt k names s = Some (s', k') ->
    planned s'
    /\ (forall a, In a (BuildArtifacts s') <-> In a (BuildArtifacts s) \/ In a names)
    /\ (forall a, In a (RequireArtifacts s')
                  <-> (In a (RequireArtifacts s)
                       \/ exists n w, In n names
                                      /\ quickStage CanArtifact n n = Some w
                                      /\ In a (RequireArtifacts w))
                      /\ ~ In a (BuildArtifacts s'))
    /\ (forall n w, In n names -> quickStage CanArtifact n n = Some w ->
                    ExecutionOrder s' <= ExecutionOrder w)
    /\ (ExecutionOrder s' = ExecutionOrder s
        \/ exists n w, In n names /\ quickStage CanArtifact n n = Some w
                       /\ ExecutionOrder s' = ExecutionOrder w)
    /\ (ExecutionOrder s <> 0 -> ExecutionOrder s' <= ExecutionOrder s)
    /\ (names <> [] ->
        0 < ExecutionOrder s'
        /\ ID s' = "Generated Stage in Execution Order " +:+ Itoa (ExecutionOrder s')).
Proof.
  intros Hf. induction names as [| name rest IH]; intros k s s' k' Hpl Hpos H;
    cbn [addShorthands] in H.
  - injection H as <- _. split; [exact Hpl |].
    split; [intros a; cbn [In]; tauto |]. split.
    { intros a. split.
      - intros Ha. split; [left; exact Ha |].
        intros Hb. destruct Hpl as (_ & _ & Hdis & _). exact (Hdis a Hb Ha).
      - intros [[Ha | (n & _ & [] & _)] _]. exact Ha. }
    split; [intros n w [] |]. split; [left; reflexivity |].
    split; [intros _; lia | intros Hne; contradiction].
  - destruct (addShorthandToStage CanArtifact (rt k) name s) as [s1 |] eqn:E;
      [| discriminate]. cbn [mbind option_bind] in H.
    pose proof (addShorthandToStage_planned _ _ _ _ _ (Hf k) Hpl E) as Hpl1.
    destruct (addShorthandToStage_step _ _ _ _ (Hf k) Hpl E)
      as (w1 & Hw1 & HB1 & HR1 & HO1 & HI1).
    pose proof (quickStage_order _ _ Hw1) as Hw1pos.
    assert (HO : 0 < ExecutionOrder s1 /\ ExecutionOrder s1 <= ExecutionOrder w1
                 /\ (ExecutionOrder s1 = ExecutionOrder s
                     \/ ExecutionOrder s1 = ExecutionOrder w1)
                 /\ (ExecutionOrder s <> 0 -> ExecutionOrder s1 <= ExecutionOrder s)).
    { rewrite HO1.
      destruct (Z.ltb_spec (ExecutionOrder w1) (ExecutionOrder s));
        destruct (Z.eqb_spec (ExecutionOrder s) 0); cbn [orb]; lia. }
    destruct HO as (Hs1pos & Hs1w & Hs1eq & Hs1le).
    destruct (IH _ _ _ _ Hpl1 (Z.lt_le_incl _ _ Hs1pos) H)
      as (Hpl' & HB' & HR' & HOle & HOeq & HOdown & HID).
    split; [exact Hpl' |].
    assert (HBall : forall a, In a (BuildArtifacts s')
                              <-> In a (BuildArtifacts s) \/ In a (name :: rest)).
    { intros a. rewrite HB', HB1. cbn [In].
      split; [intros [[H1 | ->] | H1] | intros [H1 | [<- | H1]]]; auto. }
    split; [exact HBall |]. split.
    { intros a. rewrite HR', HR1. split.
      - intros [[[[Ha | Ha] _] | (n & w & Hn & Hw & Ha)] Hnb]; (split; [| exact Hnb]).
        + left. exact Ha.
        + right. exists name, w1. cbn [In]. auto.
        + right. exists n, w. cbn [In]. auto.
      - intros [[Ha | (n & w & [<- | Hn] & Hw & Ha)] Hnb]; (split; [| exact Hnb]).
        + left. split; [left; exact Ha |].
          intros Hb. apply Hnb, HB', or_introl, HB1, Hb.
        + left. rewrite Hw1 in Hw. injection Hw as <-. split; [right; exact Ha |].
          intros Hb. apply Hnb, HB', or_introl, HB1, Hb.
        + right. exists n, w. auto. }
    split.
    { intros n w [<- | Hn] Hw.
      - rewrite Hw1 in Hw. injection Hw as <-.
        assert (ExecutionOrder s' <= ExecutionOrder s1) by (apply HOdown; lia). lia.
      - exact (HOle n w Hn Hw). }
    split.
    { destruct HOeq as [-> | (n & w & Hn & Hw & ->)].
      - destruct Hs1eq as [-> | ->]; [left; reflexivity |].
        right. exists name, w1. cbn [In]. auto.
      - right. exists n, w. cbn [In]. auto. }
    split.
    { intros Hne. assert (ExecutionOrder s' <= ExecutionOrder s1) by (apply HOdown; lia).
      specialize (Hs1le Hne). lia. }
    intros _. split.
    { destruct HOeq as [-> | (n & w & _ & Hw & ->)];
        [exact Hs1pos | exact (quickStage_order _ _ Hw)]. }
    destruct rest as [| n2 rest]; [| apply HID; discriminate].
    cbn [addShorthands] in H. injection H as <- _. exact HI1.
Qed.

(** The loop of [GenerateStages] appends one stage per group, each
    made from the zero stage by the shorthands of its group. *)
Lemma generateLoop_appends (rt : nat -> MapRange Z) (fromNames : list string) :
  forall k stages stages',
    generateLoop CanArtifact rt k fromNames stages = Some stages' ->
    exists new,
      stages' = stages ++ new
      /\ Forall2 (fun group s =>
                    exists k k', addShorthands CanArtifact rt k (Split group "+") zeroStage
                                 = Some (s, k'))
                 fromNames new.
Proof.
  induction fromNames as [| group rest IH]; intros k stages stages' H;
    cbn [generateLoop] in H.
  - injection H as <-. exists []. rewrite app_nil_r. split; [reflexivity | constructor].
  - destruct (addShorthands CanArtifact rt k (Split group "+") zeroStage)
      as [[s k'] |] eqn:E; [| discriminate]. cbn [mbind option_bind] in H.
    destruct (IH _ _ _ H) as (new & -> & Hall).
    exists (s :: new). rewrite <- app_assoc. split; [reflexivity |].
    constructor; [exists k, k'; exact E | exact Hall].
Qed.

Lemma GenerateStages_groups (rt : nat -> MapRange Z) (fromNames : list string)
      (j j' : JobSpec) :
  GenerateStages CanArtifact rt fromNames j = Some j' ->
  exists new,
    Stages j' = Stages j ++ new
    /\ Forall2 (fun group s =>
                  exists k k', addShorthands CanArtifact rt k (Split group "+") zeroStage
                               = Some (s, k'))
               fromNames new.
Proof.
  unfold GenerateStages. destruct fromNames as [| group rest].
  - intros [= <-]. exists []. rewrite app_nil_r. split; [reflexivity | constructor].
  - destruct (generateLoop _ _ _ _ _) as [stages |] eqn:E; [| discriminate].
    cbn [mbind option_bind]. intros [= <-]. cbn [Stages].
    exact (generateLoop_appends rt _ _ _ _ E).
Qed.

(** X1. Every stage that [GenerateStages] makes, whatever stages the
    job held before, has duplicate-free build artifacts and
    requirements, requires nothing that it builds, and requires
    nothing but qemu, metal and metal4k. *)
Theorem GenerateStages_makes_planned (rt : nat -> MapRange Z)
        (fromNames : list string) (j j' : JobSpec) :
  (forall k, fairRange (rt k)) ->
  GenerateStages CanArtifact rt fromNames j = Some j' ->
  exists new,
    Stages j' = Stages j ++ new
    /\ length new = length fromNames
    /\ Forall planned new.
Proof.
  intros Hf H. destruct (GenerateStages_groups rt _ _ _ H) as (new & Hnew & Hall).
  exists new. split; [exact Hnew |].
  split; [symmetry; exact (Forall2_length _ _ _ Hall) |].
  clear Hnew H. induction Hall as [| group s groups new (k & k' & E) _ IH];
    constructor; [| exact IH].
  exact (addShorthands_planned CanArtifact rt _ Hf _ _ _ _ zeroStage_planned E).
Qed.

Lemma Split_nonempty (s : string) (sep : ascii) : Split s sep <> [].
Proof.
  destruct s as [| c s]; cbn [Split]; [discriminate |].
  destruct (Ascii.eqb c sep); [discriminate |].
  destruct (Split s sep); discriminate.
Qed.

(** X2. [GenerateStages] leaves the stages of the job where they are
    and appends one stage per group, in the order of the groups; the
    stage of a group builds exactly the shorthands of the group, each
    once. *)
Theorem GenerateStages_builds_the_groups (rt : nat -> MapRange Z)
        (fromNames : list string) (j j' : JobSpec) :
  (forall k, fairRange (rt k)) ->
  GenerateStages CanArtifact rt fromNames j = Some j' ->
  exists new,
    Stages j' = Stages j ++ new
    /\ Forall2 (fun group s =>
                  forall a, In a (BuildArtifacts s) <-> In a (Split group "+"))
               fromNames new.
Proof.
  intros Hf H. destruct (GenerateStages_groups rt _ _ _ H) as (new & Hnew & Hall).
  exists new. split; [exact Hnew |].
  eapply Forall2_impl; [exact Hall |]. cbn beta.
  intros group s (k & k' & E).
  destruct (addShorthands_describes rt Hf _ _ _ _ _ zeroStage_planned (Z.le_refl 0) E)
    as (_ & Hb & _).
  intros a. rewrite Hb. cbn [BuildArtifacts zeroStage In]. tauto.
Qed.

(** X3. The stage of a group requires exactly what the templates of
    its shorthands require and the group does not name. *)
Theorem GenerateStages_requires_of_the_groups (rt : nat -> MapRange Z)
        (fromNames : list string) (j j' : JobSpec) :
  (forall k, fairRange (rt k)) ->
  GenerateStages CanArtifact rt fromNames j = Some j' ->
  exists new,
    Stages j' = Stages j ++ new
    /\ Forall2 (fun group s =>
                  forall a,
                    In a (RequireArtifacts s)
                    <-> (exists n w, In n (Split group "+")
                                     /\ quickStage CanArtifact n n = Some w
                                     /\ In a (RequireArtifacts w))
                        /\ ~ In a (Split group "+"))
               fromNames new.
Proof.
  intros Hf H. destruct (GenerateStages_groups rt _ _ _ H) as (new & Hnew & Hall).
  exists new. split; [exact Hnew |].
  eapply Forall2_impl; [exact Hall |]. cbn beta.
  intros group s (k & k' & E).
  destruct (addShorthands_describes rt Hf _ _ _ _ _ zeroStage_planned (Z.le_refl 0) E)
    as (_ & Hb & Hr & _).
  intros a. rewrite Hr, Hb. cbn [BuildArtifacts RequireArtifacts zeroStage In].
  tauto.
Qed.

(** X4. The execution order of the stage of a group is the lowest
    order among the templates of its shorthands, and the stage is
    named after that order. *)
Theorem GenerateStages_lowest_order (rt : nat -> MapRange Z)
        (fromNames : list string) (j j' : JobSpec) :
  (forall k, fairRange (rt k)) ->
  GenerateStages CanArtifact rt fromNames j = Some j' ->
  exists new,
    Stages j' = Stages j ++ new
    /\ Forall2 (fun group s =>
                  (forall n w, In n (Split group "+") ->
                               quickStage CanArtifact n n = Some w ->
                               ExecutionOrder s <= ExecutionOrder w)
                  /\ (exists n w, In n (Split group "+")
                                  /\ quickStage CanArtifact n n = Some w
                                  /\ ExecutionOrder s = ExecutionOrder w)
                  /\ ID s = "Generated Stage in Execution Order "
                              +:+ Itoa (ExecutionOrder s))
               fromNames new.
Proof.
  intros Hf H. destruct (GenerateStages_groups rt _ _ _ H) as (new & Hnew & Hall).
  exists new. split; [exact Hnew |].
  eapply Forall2_impl; [exact Hall |]. cbn beta.
  intros group s (k & k' & E).
  destruct (addShorthands_describes rt Hf _ _ _ _ _ zeroStage_planned (Z.le_refl 0) E)
    as (_ & _ & _ & Hle & Heq & _ & HID).
  destruct (HID (Split_nonempty _ _)) as [Hpos Hid].
  split; [exact Hle |]. split; [| exact Hid].
  destruct Heq as [Heq | Hex]; [| exact Hex].
  cbn [ExecutionOrder zeroStage] in Heq. lia.
Qed.


(** The nouns for which [quickStage] has a case of its own. *)
Local Abbreviation plain v :=
  (v <> "base" /\ v <> "finalize" /\ v <> "live-iso" /\ v <> "metal"
   /\ v <> "metal4k").

Lemma quickStage_fatal (artifact noun : string) :
  quickStage CanArtifact artifact noun = None
  <-> CanArtifact artifact = false /\ plain noun.
Proof.
  unfold quickStage.
  destruct (String.eqb_spec noun "base") as [-> | Hb].
  { split; [discriminate | intros (_ & H & _); contradiction]. }
  destruct (String.eqb_spec noun "finalize") as [-> | Hf].
  { split; [discriminate | intros (_ & _ & H & _); contradiction]. }
  destruct (String.eqb_spec noun "live-iso") as [-> | Hl].
  { split; [discriminate | intros (_ & _ & _ & H & _); contradiction]. }
  destruct (String.eqb_spec noun "metal") as [-> | Hm].
  { split; [discriminate | intros (_ & _ & _ & _ & H & _); contradiction]. }
  destruct (String.eqb_spec noun "metal4k") as [-> | Hk].
  { split; [discriminate | intros (_ & _ & _ & _ & _ & H); contradiction]. }
  destruct (CanArtifact artifact).
  - split; [discriminate | intros [H _]; discriminate H].
  - split; [auto 10 | reflexivity].
Qed.

Lemma fileByOrder_fatal (artifact : string) (build : list string) :
  forall m0,
    fileByOrder CanArtifact artifact build m0 = None
    <-> exists v, In v build /\ quickStage CanArtifact artifact v = None.
Proof.
  induction build as [| v rest IH]; intros m0; cbn [fileByOrder].
  - split; [discriminate | intros (v & [] & _)].
  - destruct (quickStage CanArtifact artifact v) as [fs |] eqn:E; cbn [mbind option_bind].
    + rewrite IH. split.
      * intros (v' & Hin & Hv). exists v'. split; [right; exact Hin | exact Hv].
      * intros (v' & [<- | Hin] & Hv); [congruence |]. exists v'. auto.
    + split; [| reflexivity]. intros _. exists v. split; [left; reflexivity | exact E].
Qed.

(** When a step of the planner ends the process. *)
Lemma addShorthandToStage_fatal (rng : MapRange Z) (artifact : string) (stage : Stage) :
  addShorthandToStage CanArtifact rng artifact stage = None
  <-> CanArtifact artifact = false
      /\ exists v, (In v (BuildArtifacts stage) \/ v = artifact) /\ plain v.
Proof.
  unfold addShorthandToStage.
  destruct (quickStage CanArtifact artifact artifact) as [working |] eqn:Hw;
    cbn [mbind option_bind].
  - destruct (quickStage_template _ _ _ Hw) as [Hbuild _]. rewrite Hbuild.
    destruct (fileByOrder _ _ _ _) as [m |] eqn:Hm; cbn [mbind option_bind].
    + split; [discriminate |]. intros (Hc & v & Hin & Hv). exfalso.
      assert (Hnone : fileByOrder CanArtifact artifact
                        (BuildArtifacts stage ++ [artifact]) ∅ = None).
      { apply fileByOrder_fatal. exists v. split.
        - apply in_or_app. destruct Hin as [Hin | ->]; [auto | right; left; reflexivity].
        - apply quickStage_fatal. auto. }
      congruence.
    + split; [| reflexivity]. intros _.
      apply fileByOrder_fatal in Hm as (v & Hin & Hv).
      apply quickStage_fatal in Hv as [Hc Hv]. split; [exact Hc |].
      exists v. split; [| exact Hv].
      apply in_app_or in Hin as [Hin | [<- | []]]; auto.
  - split; [| reflexivity]. intros _.
    apply quickStage_fatal in Hw as [Hc Hv]. split; [exact Hc |].
    exists artifact. auto.
Qed.

Lemma addShorthands_fatal (rt : nat -> MapRange Z) :
  (forall k, fairRange (rt k)) ->
  forall names k s,
    planned s -> 0 <= ExecutionOrder s ->
    (addShorthands CanArtifact rt k names s = None
     <-> exists pre n post v,
           names = pre ++ n :: post
           /\ CanArtifact n = false
           /\ (In v (BuildArtifacts s) \/ In v (pre ++ [n])) /\ plain v).
Proof.
  intros Hf. induction names as [| name rest IH]; intros k s Hpl Hpos;
    cbn [addShorthands].
  - split; [discriminate |]. intros (pre & n & post & v & H & _).
    destruct pre; discriminate H.
  - destruct (addShorthandToStage CanArtifact (rt k) name s) as [s1 |] eqn:E;
      cbn [mbind option_bind].
    + pose proof (addShorthandToStage_planned _ _ _ _ _ (Hf k) Hpl E) as Hpl1.
      destruct (addShorthandToStage_step _ _ _ _ (Hf k) Hpl E)
        as (w1 & Hw1 & HB1 & _ & HO1 & _).
      pose proof (quickStage_order _ _ Hw1) as Hw1pos.
      assert (Hs1 : 0 <= ExecutionOrder s1).
      { rewrite HO1. destruct (_ || _)%bool; lia. }
      rewrite (IH _ _ Hpl1 Hs1). split.
      * intros (pre & n & post & v & -> & Hc & Hin & Hv).
        exists (name :: pre), n, post, v. split; [reflexivity |].
        split; [exact Hc |]. split; [| exact Hv]. cbn [app In].
        destruct Hin as [Hin | Hin]; [| auto].
        apply HB1 in Hin as [Hin | ->]; auto.
      * intros (pre & n & post & v & Heq & Hc & Hin & Hv).
        destruct pre as [| p pre]; cbn [app] in Heq; injection Heq as <- ->.
        -- exfalso.
           assert (Hnone : addShorthandToStage CanArtifact (rt k) name s = None).
           { apply addShorthandToStage_fatal. split; [exact Hc |].
             exists v. split; [| exact Hv].
             destruct Hin as [Hin | [<- | []]]; auto. }
           congruence.
        -- exists pre, n, post, v. split; [reflexivity |].
           split; [exact Hc |]. split; [| exact Hv]. cbn [app In] in Hin.
           destruct Hin as [Hin | [<- | Hin]]; [| | auto].
           ++ left. apply HB1. auto.
           ++ left. apply HB1. auto.
    + split; [| reflexivity]. intros _.
      apply addShorthandToStage_fatal in E as (Hc & v & Hin & Hv).
      exists [], name, rest, v. split; [reflexivity |].
      split; [exact Hc |]. split; [| exact Hv]. cbn [app In].
      destruct Hin as [Hin | ->]; auto.
Qed.

Lemma generateLoop_fatal (rt : nat -> MapRange Z) :
  (forall k, fairRange (rt k)) ->
  forall fromNames k stages,
    generateLoop CanArtifact rt k fromNames stages = None
    <-> exists group pre n post v,
          In group fromNames
          /\ Split group "+" = pre ++ n :: post
          /\ CanArtifact n = false
          /\ In v (pre ++ [n]) /\ plain v.
Proof.
  intros Hf. induction fromNames as [| group rest IH]; intros k stages;
    cbn [generateLoop].
  - split; [discriminate | intros (g & _ & _ & _ & _ & [] & _)].
  - pose proof (addShorthands_fatal rt Hf (Split group "+") k zeroStage
                  zeroStage_planned (Z.le_refl 0)) as Hgroup.
    destruct (addShorthands CanArtifact rt k (Split group "+") zeroStage)
      as [[s k'] |] eqn:E; cbn [mbind option_bind].
    + rewrite IH. split.
      * intros (g & pre & n & post & v & Hg & H). exists g, pre, n, post, v.
        split; [right; exact Hg | exact H].
      * intros (g & pre & n & post & v & [<- | Hg] & Hs & Hc & Hin & Hv).
        -- exfalso. assert (Hnone : @None (Stage * nat) = None) by reflexivity.
           enough (Some (s, k') = None) by discriminate.
           apply Hgroup. exists pre, n, post, v. auto.
        -- exists g, pre, n, post, v. auto.
    + split; [| reflexivity]. intros _.
      destruct (proj1 Hgroup eq_refl) as (pre & n & post & v & Hs & Hc & [[] | Hin] & Hv).
      exists group, pre, n, post, v. cbn [In]. auto.
Qed.

(** X5. [GenerateStages] ends the process exactly when some group
    names a shorthand that the catalogue does not know after, or as,
    a shorthand for which [quickStage] has no case of its own: the
    catalogue is asked about the shorthand being added, also when
    [quickStage] is called on one that was added before. *)
Theorem GenerateStages_fatal (rt : nat -> MapRange Z) (fromNames : list string)
        (j : JobSpec) :
  (forall k, fairRange (rt k)) ->
  (GenerateStages CanArtifact rt fromNames j = None
   <-> exists group pre n post v,
         In group fromNames
         /\ Split group "+" = pre ++ n :: post
         /\ CanArtifact n = false
         /\ In v (pre ++ [n]) /\ plain v).
Proof.
  intros Hf. unfold GenerateStages. destruct fromNames as [| group rest].
  - split; [discriminate | intros (g & _ & _ & _ & _ & [] & _)].
  - rewrite <- (generateLoop_fatal rt Hf (group :: rest) 0 (Stages j)).
    destruct (generateLoop _ _ _ _ _); cbn [mbind option_bind];
      split; congruence.
Qed.

(** A step keeps the commands of the stage, and succeeds only on a
    shorthand that [quickStage] knows. *)
Lemma addShorthandToStage_commands (rng : MapRange Z) (artifact : string)
      (stage stage' : Stage) :
  addShorthandToStage CanArtifact rng artifact stage = Some stage' ->
  Commands stage' = Commands stage
  /\ exists working, quickStage CanArtifact artifact artifact = Some working.
Proof.
  unfold addShorthandToStage.
  destruct (quickStage CanArtifact artifact artifact) as [working |];
    [| discriminate]. cbn [mbind option_bind].
  destruct (fileByOrder _ _ _ _) as [m |]; [| discriminate].
  cbn [mbind option_bind]. intros [= <-]. split; [| eauto].
  unfold settle. destruct (remove _ "base") as [r []]; reflexivity.
Qed.

Lemma addShorthands_commands (rt : nat -> MapRange Z) (names : list string) :
  forall k s s' k',
    addShorthands CanArtifact rt k names s = Some (s', k') ->
    Commands s' = Commands s
    /\ forall n, In n names -> exists working, quickStage CanArtifact n n = Some working.
Proof.
  induction names as [| name rest IH]; intros k s s' k' H; cbn [addShorthands] in H.
  - injection H as <- _. split; [reflexivity | intros n []].
  - destruct (addShorthandToStage CanArtifact (rt k) name s) as [s1 |] eqn:E;
      [| discriminate]. cbn [mbind option_bind] in H.
    destruct (addShorthandToStage_commands _ _ _ _ E) as [Hc Hw].
    destruct (IH _ _ _ _ H) as [Hc' Hw']. split; [congruence |].
    intros n [<- | Hn]; [exact Hw | exact (Hw' n Hn)].
Qed.

End PlannerDescription.

Section ClosureFacts.
Import GoLib Spec.

(** X6. The closure [remove] works in place.  When the key is in the
    window, the window that comes back is the old one without the
    first occurrence of the key, and the array under the old window
    has changed: it now reads the new window followed by the old last
    element.  When the key is absent nothing changes. *)
Theorem remove_in_place (s : slice) (key : string) :
  fits s ->
  (In key (elems s) ->
   snd (remove s key) = true
   /\ elems (fst (remove s key)) = removeFirst key (elems s)
   /\ S (len (fst (remove s key))) = len s
   /\ take (len s) (backing (fst (remove s key)))
      = removeFirst key (elems s) ++ drop (len s - 1) (elems s))
  /\ (~ In key (elems s) -> remove s key = (s, false)).
Proof.
  intros Hfit. pose proof (elems_length s Hfit) as Hlen.
  pose proof (remove_spec s key Hfit) as Hspec.
  pose proof (indexOf_spec key (elems s)) as Hi.
  unfold remove in *. unfold fits in Hfit.
  destruct (indexOf key (elems s)) as [x |]; cbn [fst snd backing len] in *.
  - destruct Hi as (Hx & Hl & _ & Hr & _ & _). rewrite Hlen in Hx.
    destruct Hspec as (_ & _ & _ & He & _).
    split.
    + intros _. split; [reflexivity |]. split; [exact He |].
      split; [lia |].
      assert (HA : length (take x (backing s)) = x) by (rewrite length_take; lia).
      assert (HB : length (drop (S x) (elems s)) = (len s - S x)%nat)
        by (rewrite length_drop; lia).
      assert (Hlast : drop (len s - 1) (elems s)
                      = take 1 (drop (len s - 1) (backing s))).
      { unfold elems. rewrite take_drop_commute. do 2 f_equal. lia. }
      assert (Hfront : take x (elems s) = take x (backing s)).
      { unfold elems. rewrite take_take. f_equal. lia. }
      rewrite Hr, Hlast, Hfront, <- app_assoc.
      rewrite (app_assoc (take x (backing s)) (drop (S x) (elems s))).
      rewrite take_app_ge by (rewrite length_app; lia).
      rewrite length_app, HA, HB, <- app_assoc. do 3 f_equal. lia.
    + intros Hnot. exfalso. apply Hnot, list_elem_of_In, list_elem_of_lookup. eauto.
  - destruct Hi as [Hnot _]. split; [intros Hin; contradiction | reflexivity].
Qed.

Lemma uniqueFrom_sublist (l : list string) : forall keys : gset string,
  sublist (uniqueFrom keys l) l.
Proof.
  induction l as [| e l IH]; intros keys; cbn [uniqueFrom]; [constructor |].
  destruct (decide (e ∈ keys)); [apply sublist_cons, IH | apply sublist_skip, IH].
Qed.

Lemma uniqueFrom_NoDup (l : list string) : forall keys : gset string,
  NoDup l -> (forall a, In a l -> a ∉ keys) -> uniqueFrom keys l = l.
Proof.
  induction l as [| e l IH]; intros keys Hnd Hk; cbn [uniqueFrom]; [reflexivity |].
  apply NoDup_cons in Hnd as [He Hnd].
  destruct (decide (e ∈ keys)) as [Hin | _].
  { destruct (Hk e (or_introl eq_refl) Hin). }
  f_equal. apply IH; [exact Hnd |].
  intros a Ha [Hs | Hin]%elem_of_union.
  - apply elem_of_singleton in Hs. subst a. apply He, list_elem_of_In, Ha.
  - exact (Hk a (or_intror Ha) Hin).
Qed.

Lemma filter_all {A : Type} (f : A -> bool) (l : list A) :
  (forall a, In a l -> f a = true) -> List.filter f l = l.
Proof.
  induction l as [| e l IH]; intros H; cbn [List.filter]; [reflexivity |].
  rewrite (H e (or_introl eq_refl)). f_equal. apply IH. intros a Ha. apply H. right. exact Ha.
Qed.

Lemma uniqueFrom_seen (a : string) (l : list string) : forall keys : gset string,
  uniqueFrom ({[a]} ∪ keys) l
  = List.filter (fun b => negb (String.eqb b a)) (uniqueFrom keys l).
Proof.
  induction l as [| e l IH]; intros keys; cbn [uniqueFrom]; [reflexivity |].
  destruct (decide (e ∈ {[a]} ∪ keys)) as [Hin | Hnot];
    destruct (decide (e ∈ keys)) as [Hin' | Hnot'].
  - apply IH.
  - apply elem_of_union in Hin as [Hs | Hk]; [| contradiction].
    apply elem_of_singleton in Hs. subst e.
    cbn [List.filter]. rewrite String.eqb_refl. cbn [negb].
    symmetry. apply filter_all. intros b Hb.
    apply (proj2 (uniqueFrom_spec l ({[a]} ∪ keys))) in Hb as [_ Hb].
    destruct (String.eqb_spec b a) as [-> | _]; [| reflexivity].
    destruct Hb. apply elem_of_union_l, elem_of_singleton. reflexivity.
  - destruct Hnot. apply elem_of_union_r, Hin'.
  - cbn [List.filter]. destruct (String.eqb_spec e a) as [-> | Hne].
    + destruct Hnot. apply elem_of_union_l, elem_of_singleton. reflexivity.
    + cbn [negb]. f_equal. rewrite <- IH. f_equal.
      rewrite !(assoc_L (∪)), (comm_L (∪) {[e]} {[a]}). reflexivity.
Qed.

(** X7. The closure [unique] keeps the first copy of every entry of
    its argument, in the order of the argument, and drops the later
    copies; a list without copies comes back as it is. *)
Theorem unique_keeps_first (l : list string) :
  NoDup (unique l)
  /\ (forall a, In a (unique l) <-> In a l)
  /\ sublist (unique l) l
  /\ (forall a rest,
        l = a :: rest ->
        unique l = a :: List.filter (fun b => negb (String.eqb b a)) (unique rest))
  /\ (NoDup l -> unique l = l).
Proof.
  split; [apply (uniqueFrom_spec l ∅) |].
  split.
  { intros a. unfold unique. rewrite (proj2 (uniqueFrom_spec l ∅)).
    split; [intros [H _]; exact H | intros H; split; [exact H | apply not_elem_of_empty]]. }
  split; [apply uniqueFrom_sublist |].
  split.
  { intros a rest ->. unfold unique. cbn [uniqueFrom].
    destruct (decide (a ∈ (∅ : gset string))) as [Hin | _];
      [destruct (not_elem_of_empty _ Hin) |].
    f_equal. apply uniqueFrom_seen. }
  intros Hnd. apply uniqueFrom_NoDup; [exact Hnd |].
  intros a _. apply not_elem_of_empty.
Qed.

End ClosureFacts.

Section PlannerRuns.
Import GoLib Spec Examples.

Lemma lowestFirst_fair : forall k, fairRange (lowestFirst k).
Proof. intros k. apply ascending_fair. Qed.

Lemma GenerateStages_makes_planned_witness :
  exists j' new,
    GenerateStages cloudArtifacts lowestFirst ["base+aws"; "live-iso+metal"] declaredJobSpec
    = Some j'
    /\ Stages j' = Stages declaredJobSpec ++ new
    /\ length new = length ["base+aws"; "live-iso+metal"]
    /\ Forall planned new.
Proof.
  eexists.
  destruct (GenerateStages_makes_planned cloudArtifacts lowestFirst
              ["base+aws"; "live-iso+metal"] declaredJobSpec _ lowestFirst_fair eq_refl)
    as (new & Hnew & Hlen & Hall).
  exists new. split; [reflexivity |]. auto.
Defined.

Lemma GenerateStages_builds_the_groups_witness :
  exists j' new,
    GenerateStages cloudArtifacts lowestFirst ["base+aws"; "live-iso+metal"] emptyJobSpec
    = Some j'
    /\ Stages j' = Stages emptyJobSpec ++ new
    /\ Forall2 (fun group s =>
                  forall a, In a (BuildArtifacts s) <-> In a (Split group "+"))
               ["base+aws"; "live-iso+metal"] new.
Proof.
  eexists.
  destruct (GenerateStages_builds_the_groups cloudArtifacts lowestFirst
              ["base+aws"; "live-iso+metal"] emptyJobSpec _ lowestFirst_fair eq_refl)
    as (new & Hnew & Hall).
  exists new. split; [reflexivity |]. split; [exact Hnew | exact Hall].
Defined.

Lemma GenerateStages_requires_of_the_groups_witness :
  exists j' new,
    GenerateStages cloudArtifacts lowestFirst ["base+aws"; "live-iso+metal"] emptyJobSpec
    = Some j'
    /\ Stages j' = Stages emptyJobSpec ++ new
    /\ Forall2 (fun group s =>
                  forall a,
                    In a (RequireArtifacts s)
                    <-> (exists n w, In n (Split group "+")
                                     /\ quickStage cloudArtifacts n n = Some w
                                     /\ In a (RequireArtifacts w))
                        /\ ~ In a (Split group "+"))
               ["base+aws"; "live-iso+metal"] new.
Proof.
  eexists.
  destruct (GenerateStages_requires_of_the_groups cloudArtifacts lowestFirst
              ["base+aws"; "live-iso+metal"] emptyJobSpec _ lowestFirst_fair eq_refl)
    as (new & Hnew & Hall).
  exists new. split; [reflexivity |]. split; [exact Hnew | exact Hall].
Defined.

Lemma GenerateStages_lowest_order_witness :
  exists j' new,
    GenerateStages cloudArtifacts lowestFirst ["base+aws"; "live-iso+metal"] emptyJobSpec
    = Some j'
    /\ Stages j' = Stages emptyJobSpec ++ new
    /\ Forall2 (fun group s =>
                  (forall n w, In n (Split group "+") ->
                               quickStage cloudArtifacts n n = Some w ->
                               ExecutionOrder s <= ExecutionOrder w)
                  /\ (exists n w, In n (Split group "+")
                                  /\ quickStage cloudArtifacts n n = Some w
                                  /\ ExecutionOrder s = ExecutionOrder w)
                  /\ ID s = "Generated Stage in Execution Order "
                              +:+ Itoa (ExecutionOrder s))
               ["base+aws"; "live-iso+metal"] new.
Proof.
  eexists.
  destruct (GenerateStages_lowest_order cloudArtifacts lowestFirst
              ["base+aws"; "live-iso+metal"] emptyJobSpec _ lowestFirst_fair eq_refl)
    as (new & Hnew & Hall).
  exists new. split; [reflexivity |]. split; [exact Hnew | exact Hall].
Defined.

Lemma GenerateStages_fatal_witness :
  GenerateStages cloudArtifacts lowestFirst ["aws+base"] emptyJobSpec = None
  /\ GenerateStages cloudArtifacts lowestFirst ["base+aws"] emptyJobSpec <> None.
Proof.
  split.
  - apply (GenerateStages_fatal cloudArtifacts lowestFirst ["aws+base"] emptyJobSpec
             lowestFirst_fair).
    exists "aws+base", ["aws"], "base", [], "aws".
    split; [left; reflexivity |]. split; [reflexivity |]. split; [reflexivity |].
    split; [left; reflexivity |]. repeat split; discriminate.
  - intros H.
    apply (GenerateStages_fatal cloudArtifacts lowestFirst ["base+aws"] emptyJobSpec
             lowestFirst_fair) in H.
    destruct H as (g & pre & n & post & v & [<- | []] & Hs & Hc & Hin & Hv).
    change (Split "base+aws" "+") with ["base"; "aws"] in Hs.
    destruct pre as [| p [| q [| r pre]]]; cbn [app] in Hs.
    + injection Hs as <- _. destruct Hin as [<- | []].
      destruct Hv as [Hv _]. exact (Hv eq_refl).
    + injection Hs as _ <- _. discriminate Hc.
    + injection Hs as _ _ Hs. discriminate Hs.
    + injection Hs as _ _ Hs. discriminate Hs.
Defined.

Lemma remove_in_place_witness :
  remove (sliceOf ["qemu"; "metal"; "metal4k"]) "qemu"
  = (mkSlice ["metal"; "metal4k"; "metal4k"] 2, true)
  /\ take 3 (backing (fst (remove (sliceOf ["qemu"; "metal"; "metal4k"]) "qemu")))
     = ["metal"; "metal4k"] ++ ["metal4k"].
Proof.
  split; [reflexivity |].
  exact (proj2 (proj2 (proj2
           (proj1 (remove_in_place (sliceOf ["qemu"; "metal"; "metal4k"]) "qemu"
                     (sliceOf_fits _))
                  (or_introl eq_refl))))).
Defined.

End PlannerRuns.

Section ExecutorFacts.
Import GoLib Spec.

Variable CanArtifact : string -> bool.
Variable unicodeLower : string -> string.
Variable World : Type.
Variable TempDir : World -> (string + error) * World.
Variable WriteFile : string -> string -> World -> option error * World.
Variable RemoveAll : string -> World -> World.
Variable Context : Type.

Implicit Types (rd : RenderData World Context) (ctx : Context) (w : World)
  (evs : list Event) (out : outcome).

Lemma ret_inv {A : Type} (a b : A) w w' evs :
  ret a w = (b, w', evs) -> b = a /\ w' = w /\ evs = [].
Proof. unfold ret. intros H. injection H as <- <- <-. auto. Qed.

Lemma writeFile_inv f d w err w' evs :
  writeFile WriteFile f d w = (err, w', evs) -> evs = [EvWriteFile f d err].
Proof.
  unfold writeFile. destruct (WriteFile f d w) as [e w1].
  intros H. injection H as <- <- <-. reflexivity.
Qed.

Lemma render_inv rd ctx env script w err w' evs :
  render rd ctx env script w = (err, w', evs) -> evs = [EvRender script err].
Proof.
  unfold render. destruct (RendererExecuter _ _ rd ctx env script w) as [e w1].
  intros H. injection H as <- <- <-. reflexivity.
Qed.

Lemma tempDir_inv w dir w' evs :
  tempDir TempDir w = (dir, w', evs) -> evs = [EvTempDir dir].
Proof.
  unfold tempDir. destruct (TempDir w) as [r w1].
  intros H. injection H as <- <- <-. reflexivity.
Qed.

Lemma removeAll_inv path w x w' evs :
  removeAll RemoveAll path w = (x, w', evs) -> evs = [EvRemoveAll path].
Proof. unfold removeAll. intros H. injection H as <- <- <-. reflexivity. Qed.

Lemma append_cancel (p a b : string) : p +:+ a = p +:+ b -> a = b.
Proof. induction p as [| c p IH]; simpl; intros H; [exact H |]. injection H as H. auto. Qed.

Lemma prepPath_not_script tmpd i : prepPath tmpd <> scriptPath tmpd i.
Proof.
  unfold prepPath, scriptPath, filepathJoin. intros H.
  apply append_cancel in H. discriminate H.
Qed.

Lemma postPath_not_script tmpd i : postPath tmpd <> scriptPath tmpd i.
Proof.
  unfold postPath, scriptPath, filepathJoin. intros H.
  apply append_cancel in H. discriminate H.
Qed.

Lemma bind_inv {A B : Type} (m : Exec World A) (k : A -> Exec World B) w b w' evs :
  bind m k w = (b, w', evs) ->
  exists a w1 t1 t2, m w = (a, w1, t1) /\ k a w1 = (b, w', t2) /\ evs = t1 ++ t2.
Proof.
  unfold bind. destruct (m w) as [[a w1] t1] eqn:Em.
  destruct (k a w1) as [[b2 w2] t2] eqn:Ek.
  intros H. injection H as <- <- <-. exists a, w1, t1, t2. auto.
Qed.

(** Takes the first computation off a sequence in hypothesis [H]. *)
Ltac exec_step H a E :=
  let w1 := fresh "w" in
  let t1 := fresh "t" in
  let t2 := fresh "t" in
  apply bind_inv in H as (a & w1 & t1 & t2 & E & H & ->).

Ltac exec_step_as H a E t1 t2 :=
  let w1 := fresh "w" in
  apply bind_inv in H as (a & w1 & t1 & t2 & E & H & ->).

Ltac exec_ret H := apply ret_inv in H as (? & ? & ?); subst.

Lemma prepPath_not_post tmpd : prepPath tmpd <> postPath tmpd.
Proof.
  unfold prepPath, postPath, filepathJoin. intros H.
  apply append_cancel in H. discriminate H.
Qed.

Lemma writeScripts_trace cmds tmpd : forall i scripts w r w' evs,
  writeScripts WriteFile tmpd i cmds scripts w = (r, w', evs) ->
  Forall isWrite evs
  /\ (is_Some r -> Forall (fun ev => exists f c, ev = EvWriteFile f c None) evs).
Proof.
  induction cmds as [| c rest IH]; intros i scripts w r w' evs H; simpl in H.
  - exec_ret H. split; constructor.
  - exec_step H err E. apply writeFile_inv in E as ->.
    destruct err as [e |].
    + exec_ret H. split; [repeat constructor |]. intros [x Hx]. discriminate Hx.
    + apply IH in H as [Hw Hok].
      split; [constructor; [exact I | exact Hw] |].
      intros Hs. constructor; [eauto | auto].
Qed.

(** The serial run calls the renderer on the scripts in the order it
    is given them, up to and including the first that fails, and
    returns the error of that one. *)
Lemma runSerial_trace rd ctx env vs : forall w r w' evs,
  runSerial rd ctx env vs w = (r, w', evs) ->
  (r = None /\ evs = map (fun v => EvRender v None) vs)
  \/ (exists k v e,
         vs !! k = Some v /\ r = Some e
         /\ evs = map (fun v => EvRender v None) (take k vs) ++ [EvRender v (Some e)]).
Proof.
  induction vs as [| v rest IH]; intros w r w' evs H; simpl in H.
  - exec_ret H. left. auto.
  - exec_step H err E. apply render_inv in E as ->.
    destruct err as [e |].
    + exec_ret H. right. exists 0%nat, v, e. auto.
    + apply IH in H as [[-> ->] | (k & v' & e & Hk & -> & ->)].
      * left. auto.
      * right. exists (S k), v', e. auto.
Qed.

Lemma runSerial_renders rd ctx env vs w r w' evs :
  runSerial rd ctx env vs w = (r, w', evs) -> Forall isRender evs.
Proof.
  intros H. apply runSerial_trace in H as [[_ ->] | (k & v & e & _ & _ & ->)].
  - apply Forall_map, Forall_true. intros x. exact I.
  - apply Forall_app_2; [| repeat constructor].
    apply Forall_map, Forall_true. intros x. exact I.
Qed.

(** Every task calls the renderer once, on its own script. *)
Lemma runTasks_trace rd ctx env tasks : forall w results w' evs,
  runTasks rd ctx env tasks w = (results, w', evs) ->
  map fst results = map fst tasks
  /\ evs = zip_with (fun t r => EvRender (snd t) (snd r)) tasks results.
Proof.
  induction tasks as [| [i s] rest IH]; intros w results w' evs H; simpl in H.
  - exec_ret H. auto.
  - exec_step H e E. apply render_inv in E as ->.
    exec_step H es E. exec_ret H. apply IH in E as [Hk ->].
    simpl. rewrite Hk, app_nil_r. auto.
Qed.

Lemma runTasks_rendered rd ctx env tasks w results w' evs :
  runTasks rd ctx env tasks w = (results, w', evs) ->
  rendered evs = map snd tasks /\ Forall isRender evs.
Proof.
  intros H. apply runTasks_trace in H as [Hk ->].
  assert (Hlen : length results = length tasks).
  { rewrite <- (length_map fst results), Hk. apply length_map. }
  clear Hk. revert results Hlen.
  induction tasks as [| t rest IH]; intros [| r results] Hlen; try discriminate Hlen.
  - split; [reflexivity | constructor].
  - simpl in Hlen. injection Hlen as Hlen. destruct (IH _ Hlen) as [Hr Hf].
    split; [unfold rendered in *; cbn; rewrite Hr; reflexivity |].
    constructor; [exact I | exact Hf].
Qed.

Lemma runConcurrent_renders sch rd ctx env scripts w out w' evs :
  runConcurrent sch rd ctx env scripts w = (out, w', evs) -> Forall isRender evs.
Proof.
  unfold runConcurrent. intros H. exec_step H results E.
  apply runTasks_rendered in E as [_ Hr].
  destruct (drain _ _ _); exec_ret H; rewrite app_nil_r; exact Hr.
Qed.

Lemma runCommands_renders sch s ctx rd env scripts w out w' evs :
  runCommands sch s ctx rd env scripts w = (out, w', evs) -> Forall isRender evs.
Proof.
  unfold runCommands. intros H. destruct (negb (ConcurrentExecution s)).
  - exec_step H err E. exec_ret H. rewrite app_nil_r.
    eapply runSerial_renders, E.
  - eapply runConcurrent_renders, H.
Qed.

Lemma render_not_write evs f c err :
  Forall isRender evs -> ~ In (EvWriteFile f c err) evs.
Proof. intros Hf Hin. apply (proj1 (List.Forall_forall _ _) Hf) in Hin. exact Hin. Qed.

Lemma write_not_render evs script err :
  Forall isWrite evs -> ~ In (EvRender script err) evs.
Proof. intros Hf Hin. apply (proj1 (List.Forall_forall _ _) Hf) in Hin. exact Hin. Qed.

(** What [runMain] leaves behind is made of writes and renderer
    calls. *)
Lemma runMain_kinds sch s ctx rd env tmpd cmds w out w' evs :
  runMain WriteFile sch s ctx rd env tmpd cmds w = (out, w', evs) ->
  Forall (fun ev => isWrite ev \/ isRender ev) evs.
Proof.
  unfold runMain. intros H. exec_step H written E.
  apply writeScripts_trace in E as [Hw _].
  apply Forall_app_2; [eapply Forall_impl; [exact Hw | tauto] |].
  destruct written as [scripts |]; [| exec_ret H; constructor].
  exec_step H main E. apply runCommands_renders in E.
  apply Forall_app_2; [eapply Forall_impl; [exact E | tauto] |].
  destruct main as [[e |] |]; try (exec_ret H; constructor).
  destruct (negb (PostAlways s)); [| exec_ret H; constructor].
  exec_step H err E2. apply render_inv in E2 as ->. exec_ret H.
  constructor; [right; exact I | constructor].
Qed.

(** A write that fails inside [runMain] ends it at once, with [nil]. *)
Lemma runMain_write_failure sch s ctx rd env tmpd cmds w out w' evs f c e :
  runMain WriteFile sch s ctx rd env tmpd cmds w = (out, w', evs) ->
  In (EvWriteFile f c (Some e)) evs ->
  out = Returned None /\ Forall isWrite evs.
Proof.
  unfold runMain. intros H Hin. exec_step H written E.
  apply writeScripts_trace in E as [Hw Hok].
  destruct written as [scripts |].
  - exfalso. apply in_app_or in Hin as [Hin | Hin].
    + specialize (Hok (ltac:(eauto))).
      apply (proj1 (List.Forall_forall _ _) Hok) in Hin as (f' & c' & Heq).
      discriminate Heq.
    + exec_step H main E. apply runCommands_renders in E.
      apply in_app_or in Hin as [Hin | Hin];
        [exact (render_not_write _ _ _ _ E Hin) |].
      destruct main as [[e' |] |]; try (exec_ret H; exact Hin).
      destruct (negb (PostAlways s)); [| exec_ret H; exact Hin].
      exec_step H err E2. apply render_inv in E2 as ->. exec_ret H.
      destruct Hin as [Heq | []]. discriminate Heq.
  - exec_ret H. rewrite app_nil_r. auto.
Qed.

Lemma runStage_kinds sch s ctx rd env tmpd cmds w out w' evs :
  runStage WriteFile sch s ctx rd env tmpd cmds w = (out, w', evs) ->
  Forall (fun ev => isWrite ev \/ isRender ev) evs.
Proof.
  unfold runStage. intros H.
  exec_step H err E. apply writeFile_inv in E as ->.
  constructor; [left; exact I |].
  destruct err as [e |]; [exec_ret H; constructor |].
  exec_step H err E. apply render_inv in E as ->.
  constructor; [right; exact I |].
  destruct err as [e |]; [exec_ret H; constructor |].
  exec_step H err E. apply writeFile_inv in E as ->.
  constructor; [left; exact I |].
  destruct err as [e |]; [exec_ret H; constructor |].
  exec_step H main E. apply runMain_kinds in E.
  apply Forall_app_2; [exact E |].
  destruct (PostAlways s); [| exec_ret H; constructor].
  unfold deferred in H. destruct main; [| exec_ret H; constructor].
  exec_step H x E2. apply render_inv in E2 as ->. exec_ret H.
  constructor; [right; exact I | constructor].
Qed.

Lemma runStage_write_failure sch s ctx rd env tmpd cmds w out w' evs i c e :
  runStage WriteFile sch s ctx rd env tmpd cmds w = (out, w', evs) ->
  In (EvWriteFile (scriptPath tmpd i) c (Some e)) evs ->
  out = Returned None /\ forall j r, ~ In (EvRender (scriptPath tmpd j) r) evs.
Proof.
  unfold runStage. intros H Hin.
  exec_step H err E. apply writeFile_inv in E as ->.
  destruct Hin as [Heq | Hin].
  { injection Heq as Heq _ _. destruct (prepPath_not_script _ _ Heq). }
  destruct err as [e1 |]; [exec_ret H; destruct Hin |].
  exec_step H err E. apply render_inv in E as ->.
  destruct Hin as [Heq | Hin]; [discriminate Heq |].
  destruct err as [e1 |]; [exec_ret H; destruct Hin |].
  exec_step H err E. apply writeFile_inv in E as ->.
  destruct Hin as [Heq | Hin].
  { injection Heq as Heq _ _. destruct (postPath_not_script _ _ Heq). }
  destruct err as [e1 |]; [exec_ret H; destruct Hin |].
  exec_step_as H main E tm tp.
  assert (Hmain : In (EvWriteFile (scriptPath tmpd i) c (Some e)) tm).
  { simpl in Hin. apply in_app_or in Hin as [Hin | Hin]; [exact Hin |]. exfalso.
    destruct (PostAlways s); [| exec_ret H; exact Hin].
    unfold deferred in H. destruct main; [| exec_ret H; exact Hin].
    exec_step H x E2. apply render_inv in E2 as ->. exec_ret H.
    destruct Hin as [Heq | []]. discriminate Heq. }
  destruct (runMain_write_failure _ _ _ _ _ _ _ _ _ _ _ _ _ _ E Hmain) as [-> Hw].
  assert (Hno : forall j r, ~ In (EvRender (scriptPath tmpd j) r) tm).
  { intros j r. apply write_not_render, Hw. }
  assert (Hrest : out = Returned None
                  /\ forall j r, ~ In (EvRender (scriptPath tmpd j) r) tp).
  { destruct (PostAlways s); [| exec_ret H; split; [reflexivity | intros j r []]].
    unfold deferred in H. exec_step H x E2. apply render_inv in E2 as ->.
    exec_ret H. split; [reflexivity |].
    intros j r [Heq | []].
    injection Heq as Heq _. destruct (postPath_not_script _ _ Heq). }
  destruct Hrest as [-> Hrest]. split; [reflexivity |].
  intros j r [Heq | [Heq | [Heq | Hj]]]; try discriminate Heq.
  - injection Heq as Heq _. destruct (prepPath_not_script _ _ Heq).
  - simpl in Hj.
    apply in_app_or in Hj as [Hj | Hj]; [exact (Hno _ _ Hj) | exact (Hrest _ _ Hj)].
Qed.

(** The loop that empties the channel receives [n / 2 + 1] of the [n]
    results queued, and returns the last error among those. *)
Lemma drain_spec (errors : list (option error)) : forall x e,
  drain x errors e
  = if (x <=? length errors)%nat
    then match errors with
         | [] => None
         | _ => Some (foldl latest e (take ((length errors - x) / 2 + 1) errors))
         end
    else Some e.
Proof.
  induction errors as [| err rest IH]; intros x e; [reflexivity |].
  cbn [drain]. destruct (x <=? length (err :: rest))%nat eqn:Hx; [| reflexivity].
  apply Nat.leb_le in Hx. cbn [length] in Hx. rewrite IH.
  destruct (S x <=? length rest)%nat eqn:Hsx.
  - apply Nat.leb_le in Hsx. destruct rest as [| err' rest']; [inversion Hsx |].
    cbn [length] in *.
    replace (S (S (length rest')) - x)%nat
      with ((S (length rest') - S x) + 1 * 2)%nat by lia.
    rewrite Nat.div_add by lia.
    replace ((S (length rest') - S x) / 2 + 1 + 1)%nat
      with (S ((S (length rest') - S x) / 2 + 1)) by lia.
    reflexivity.
  - apply Nat.leb_gt in Hsx. cbn [length].
    assert (Hsmall : (S (length rest) - x = 0 \/ S (length rest) - x = 1)%nat) by lia.
    destruct Hsmall as [-> | ->]; reflexivity.
Qed.

Lemma drain_received (errors : list (option error)) :
  errors <> [] ->
  drain 0 errors None
  = Some (foldl latest None (take (length errors / 2 + 1) errors)).
Proof.
  intros Hne. rewrite drain_spec. cbn [Nat.leb].
  destruct errors; [contradiction |]. rewrite Nat.sub_0_r. reflexivity.
Qed.

(** A range that visits every key once yields every script once. *)
Lemma omap_lookup_keys (scripts : gmap nat string) (l : list (nat * string)) :
  (forall i v, (i, v) ∈ l -> scripts !! i = Some v) ->
  omap (fun i => (fun v => (i, v)) <$> scripts !! i) (map fst l) = l.
Proof.
  induction l as [| [i v] l IH]; intros H; [reflexivity |].
  cbn. rewrite (H i v) by left. cbn. rewrite IH; [reflexivity |].
  intros j u Hj. apply H. right. exact Hj.
Qed.

Lemma rangeScripts_fair (rng : MapRange nat) (scripts : gmap nat string) :
  fairRange rng -> Permutation (rangeScripts rng scripts) (map_to_list scripts).
Proof.
  intros Hf. unfold rangeScripts. rewrite (Hf _).
  rewrite omap_lookup_keys; [reflexivity |].
  intros i v. apply elem_of_map_to_list.
Qed.

(** X16. The serial run: the renderer is called on the scripts one
    after the other in the order of the visit, which holds every script
    once; the first call that fails ends the run, and its error is what
    the run returns. *)
Lemma runCommands_serial sch s ctx rd env scripts w out w' evs :
  ConcurrentExecution s = false -> fairRange (visits sch) ->
  runCommands sch s ctx rd env scripts w = (out, w', evs) ->
  exists vs,
    Permutation vs (map snd (map_to_list scripts))
    /\ ((out = Returned None /\ evs = map (fun v => EvRender v None) vs)
        \/ (exists k v e,
               vs !! k = Some v /\ out = Returned (Some e)
               /\ evs = map (fun v => EvRender v None) (take k vs)
                          ++ [EvRender v (Some e)])).
Proof.
  unfold runCommands. intros -> Hf H. cbn [negb] in H.
  exec_step H err E. exec_ret H. rewrite app_nil_r.
  exists (map snd (rangeScripts (visits sch) scripts)). split.
  - apply Permutation_map, rangeScripts_fair, Hf.
  - apply runSerial_trace in E as [[-> ->] | (k & v & e & Hk & -> & ->)]; [auto |].
    right. exists k, v, e. auto.
Qed.

(** The concurrent run: the renderer is called once on every script. *)
Lemma runCommands_concurrent sch s ctx rd env scripts w out w' evs :
  ConcurrentExecution s = true -> fairSchedule sch ->
  runCommands sch s ctx rd env scripts w = (out, w', evs) ->
  Permutation (rendered evs) (map snd (map_to_list scripts))
  /\ length (rendered evs) = size scripts.
Proof.
  unfold runCommands, runConcurrent. intros -> (Hv & Hc & _) H. cbn [negb] in H.
  exec_step_as H results E tr td. apply runTasks_rendered in E as [Hr _].
  assert (Hd : td = []) by (destruct (drain _ _ _); exec_ret H; reflexivity).
  rewrite Hd, app_nil_r, Hr. clear H Hd Hr.
  assert (Hp : Permutation
                 (omap (fun i => (fun v => (i, v)) <$> scripts !! i)
                    (calls sch (map fst (rangeScripts (visits sch) scripts))))
                 (map_to_list scripts)).
  { rewrite (Hc _), (rangeScripts_fair _ _ Hv).
    rewrite omap_lookup_keys; [reflexivity |].
    intros i v. apply elem_of_map_to_list. }
  split; [apply Permutation_map, Hp |].
  rewrite length_map, (Permutation_length Hp). apply length_map_to_list.
Qed.

(** What [runMain] does once the scripts are written: a main phase that
    reports an error ends the run with that error; one that reports none
    is followed by [post.sh], whose result is then what is returned,
    exactly when [PostAlways] is false. *)
Lemma runMain_post_policy sch s ctx rd env tmpd cmds w out w' evs :
  runMain WriteFile sch s ctx rd env tmpd cmds w = (out, w', evs) ->
  (out = Returned None /\ exists w1, writeScripts WriteFile tmpd 0 cmds ∅ w = (None, w1, evs))
  \/ exists scripts w1 tw main w2 tm,
      writeScripts WriteFile tmpd 0 cmds ∅ w = (Some scripts, w1, tw)
      /\ runCommands sch s ctx rd env scripts w1 = (main, w2, tm)
      /\ ((main <> Returned None /\ out = main /\ evs = tw ++ tm)
          \/ (main = Returned None /\ PostAlways s = true
              /\ out = Returned None /\ evs = tw ++ tm)
          \/ (main = Returned None /\ PostAlways s = false
              /\ exists err, out = Returned err
                             /\ evs = tw ++ tm ++ [EvRender (postPath tmpd) err])).
Proof.
  unfold runMain. intros H. exec_step_as H written E tw tr.
  destruct written as [scripts |].
  - right. exec_step_as H main E2 tm tp.
    exists scripts, w0, tw, main, w1, tm. split; [exact E |]. split; [exact E2 |].
    destruct main as [[e |] |].
    + exec_ret H. left. rewrite app_nil_r. split; [discriminate | auto].
    + destruct (PostAlways s); cbn [negb] in H.
      * exec_ret H. right. left. rewrite app_nil_r. auto.
      * exec_step H err E3. apply render_inv in E3 as ->. exec_ret H.
        right. right. rewrite app_nil_r. eauto 6.
    + exec_ret H. left. rewrite app_nil_r. split; [discriminate | auto].
  - exec_ret H. left. rewrite app_nil_r. eauto.
Qed.

(** With [PostAlways], once [post.sh] is written and registered, a run
    that returns ends with one call of the renderer on [post.sh], after
    everything else, and returns what the main part returned. *)
Lemma runStage_post_always sch s ctx rd env tmpd cmds w r w' evs data :
  PostAlways s = true ->
  runStage WriteFile sch s ctx rd env tmpd cmds w = (Returned r, w', evs) ->
  In (EvWriteFile (postPath tmpd) data None) evs ->
  exists tm w1 w2 err,
    runMain WriteFile sch s ctx rd env tmpd cmds w1 = (Returned r, w2, tm)
    /\ evs = [EvWriteFile (prepPath tmpd) (Join (PrepCommands s) newline) None;
              EvRender (prepPath tmpd) None;
              EvWriteFile (postPath tmpd) (Join (PostCommands s) newline) None]
             ++ tm ++ [EvRender (postPath tmpd) err].
Proof.
  unfold runStage. intros Hpa H Hin. rewrite Hpa in H.
  assert (Hprep : forall d e0, EvWriteFile (prepPath tmpd) d e0
                               <> EvWriteFile (postPath tmpd) data None).
  { intros d e0 [= Heq _ _]. exact (prepPath_not_post _ Heq). }
  exec_step H err E. apply writeFile_inv in E as ->.
  destruct err as [e |].
  { exec_ret H. destruct Hin as [Heq | []]. discriminate Heq. }
  exec_step H err E. apply render_inv in E as ->.
  destruct err as [e |].
  { exec_ret H. destruct Hin as [Heq | [Heq | []]]; [| discriminate Heq].
    destruct (Hprep _ _ Heq). }
  exec_step H err E. apply writeFile_inv in E as ->.
  destruct err as [e |].
  { exec_ret H. destruct Hin as [Heq | [Heq | [Heq | []]]]; try discriminate Heq.
    destruct (Hprep _ _ Heq). }
  exec_step_as H main E tm tp. unfold deferred in H.
  destruct main as [r0 |]; [| exec_ret H; discriminate].
  exec_step H x E2. apply render_inv in E2 as ->. exec_ret H.
  match goal with Heq : Returned _ = Returned _ |- _ => injection Heq as -> end.
  exists tm, w2, w3, x. split; [exact E |]. rewrite app_nil_r. reflexivity.
Qed.

(** C9. When the write of one of the files [script-<i>.sh] fails,
    [Execute] returns [nil], not the error of the write, and the
    renderer is called on none of the main commands. *)
Theorem Execute_script_write_failure sch s (ctx : option Context)
        (rd : option (RenderData World Context)) env w out w' evs tmpd i c e :
  Execute CanArtifact unicodeLower TempDir WriteFile RemoveAll sch s ctx rd env w = (out, w', evs) ->
  In (EvTempDir (inl tmpd)) evs ->
  In (EvWriteFile (scriptPath tmpd i) c (Some e)) evs ->
  out = Returned None /\ forall j r, ~ In (EvRender (scriptPath tmpd j) r) evs.
Proof.
  unfold Execute. intros H Hdir Hin.
  destruct ctx as [ctx |]; [| exec_ret H; destruct Hin].
  destruct rd as [rd |]; [| exec_ret H; destruct Hin].
  destruct (getCommands CanArtifact unicodeLower s rd) as [cmds | err]; [| exec_ret H; destruct Hin].
  destruct (length cmds =? 0)%nat; [exec_ret H; destruct Hin |].
  exec_step H dir E. apply tempDir_inv in E as ->.
  destruct dir as [tmpd0 | err].
  2:{ exec_ret H. destruct Hdir as [Heq | []]. discriminate Heq. }
  exec_step_as H out0 E ts td.
  assert (Htd : td = [] \/ td = [EvRemoveAll tmpd0]).
  { unfold deferred in H. destruct out0; [| exec_ret H; auto].
    exec_step H x E2. apply removeAll_inv in E2 as ->. exec_ret H. auto. }
  assert (Hout : out = out0).
  { unfold deferred in H. destruct out0; [| exec_ret H; auto].
    exec_step H x E2. exec_ret H. reflexivity. }
  subst out. clear H.
  pose proof (runStage_kinds _ _ _ _ _ _ _ _ _ _ _ E) as Hk.
  assert (Heq : tmpd = tmpd0).
  { destruct Hdir as [Heq | Hdir]; [injection Heq as <-; reflexivity |].
    exfalso. simpl in Hdir. apply in_app_or in Hdir as [Hdir | Hdir].
    - apply (proj1 (List.Forall_forall _ _) Hk) in Hdir as [[] | []].
    - destruct Htd as [-> | ->]; [destruct Hdir |].
      destruct Hdir as [Heq | []]. discriminate Heq. }
  subst tmpd0.
  assert (Hs : In (EvWriteFile (scriptPath tmpd i) c (Some e)) ts).
  { destruct Hin as [Heq | Hin]; [discriminate Heq |].
    simpl in Hin. apply in_app_or in Hin as [Hin | Hin]; [exact Hin |].
    exfalso. destruct Htd as [-> | ->]; [destruct Hin |].
    destruct Hin as [Heq | []]. discriminate Heq. }
  destruct (runStage_write_failure _ _ _ _ _ _ _ _ _ _ _ _ _ _ E Hs) as [-> Hno].
  split; [reflexivity |].
  intros j r [Heq | Hj]; [discriminate Heq |].
  simpl in Hj. apply in_app_or in Hj as [Hj | Hj]; [exact (Hno _ _ Hj) |].
  destruct Htd as [-> | ->]; [destruct Hj |].
  destruct Hj as [Heq | []]. discriminate Heq.
Qed.

(** One command per build artifact, or the error of the first one
    that is unknown. *)
Lemma cosaBuildCmd_cases (b : string) (js : JobSpec) :
  match cosaBuildCmd CanArtifact unicodeLower b js with
  | inl cmds => exists c, cmds = [c]
  | inr err =>
      err = b +:+ " is not a known buildable artifact"
      /\ ToLower unicodeLower b <> "base"
      /\ ToLower unicodeLower b <> "finalize"
      /\ CanArtifact b = false
  end.
Proof.
  unfold cosaBuildCmd.
  destruct (String.eqb_spec (ToLower unicodeLower b) "base") as [_ | Hb].
  { destruct (DelayedMetaMerge js); eauto. }
  destruct (String.eqb_spec (ToLower unicodeLower b) "finalize") as [_ | Hf]; [eauto |].
  destruct (CanArtifact b); [eauto | auto].
Qed.

Lemma mapArtifacts_spec (bas : list string) (js : JobSpec) :
  match mapArtifacts CanArtifact unicodeLower bas js with
  | inl ret =>
      Forall2 (fun ba c => exists cmds, cosaBuildCmd CanArtifact unicodeLower ba js = inl cmds
                                        /\ c = Join cmds newline) bas ret
  | inr err =>
      exists pre ba post,
        bas = pre ++ ba :: post
        /\ (forall b, In b pre -> exists cmds, cosaBuildCmd CanArtifact unicodeLower b js = inl cmds)
        /\ cosaBuildCmd CanArtifact unicodeLower ba js = inr err
  end.
Proof.
  induction bas as [| ba rest IH]; cbn [mapArtifacts]; [constructor |].
  destruct (cosaBuildCmd CanArtifact unicodeLower ba js) as [cmds | err] eqn:E.
  - destruct (mapArtifacts CanArtifact unicodeLower rest js) as [ret | err].
    + constructor; [eauto | exact IH].
    + destruct IH as (pre & b & post & -> & Hpre & Hb).
      exists (ba :: pre), b, post. split; [reflexivity |]. split; [| exact Hb].
      intros x [<- | Hx]; [eauto | exact (Hpre x Hx)].
  - exists [], ba, rest. split; [reflexivity |]. split; [intros x [] | exact E].
Qed.

(** X8. [getCommands] returns one command for every build artifact,
    in their order, followed by the commands of the stage; it fails
    on the first build artifact that [strings.ToLower] makes neither
    base nor finalize and that the catalogue does not know, with the
    error that names it. *)
Theorem getCommands_layout s rd :
  match getCommands CanArtifact unicodeLower s rd with
  | inl cmds =>
      length cmds = (length (BuildArtifacts s) + length (Commands s))%nat
      /\ drop (length (BuildArtifacts s)) cmds = Commands s
      /\ Forall2 (fun ba c => exists cmds, cosaBuildCmd CanArtifact unicodeLower ba (JobSpecOf _ _ rd)
                                           = inl cmds
                                           /\ c = Join cmds newline)
                 (BuildArtifacts s) (take (length (BuildArtifacts s)) cmds)
  | inr err =>
      exists pre ba post,
        BuildArtifacts s = pre ++ ba :: post
        /\ (forall b, In b pre ->
                      exists cmds, cosaBuildCmd CanArtifact unicodeLower b (JobSpecOf _ _ rd) = inl cmds)
        /\ err = ba +:+ " is not a known buildable artifact"
        /\ ToLower unicodeLower ba <> "base"
        /\ ToLower unicodeLower ba <> "finalize"
        /\ CanArtifact ba = false
  end.
Proof.
  unfold getCommands.
  pose proof (mapArtifacts_spec (BuildArtifacts s) (JobSpecOf _ _ rd)) as H.
  destruct (mapArtifacts CanArtifact unicodeLower (BuildArtifacts s) (JobSpecOf _ _ rd)) as [ret | err].
  - pose proof (Forall2_length _ _ _ H) as Hlen.
    rewrite length_app, Hlen. split; [reflexivity |].
    split; [apply drop_app_length |]. rewrite take_app_length. exact H.
  - destruct H as (pre & ba & post & Hb & Hpre & Hba).
    exists pre, ba, post. split; [exact Hb |]. split; [exact Hpre |].
    pose proof (cosaBuildCmd_cases ba (JobSpecOf _ _ rd)) as Hc.
    rewrite Hba in Hc. exact Hc.
Qed.
(** The scripts written so far: one per command, under its index. *)
Lemma writeScripts_scripts cmds tmpd : forall i scripts w scripts' w' evs,
  writeScripts WriteFile tmpd i cmds scripts w = (Some scripts', w', evs) ->
  forall k, scripts' !! k
            = if ((i <=? k) && (k <? i + length cmds))%nat
              then Some (scriptPath tmpd k) else scripts !! k.
Proof.
  induction cmds as [| c rest IH]; intros i scripts w scripts' w' evs H k; simpl in H.
  - exec_ret H. match goal with Heq : Some _ = Some _ |- _ => injection Heq as -> end.
    cbn [length]. rewrite Nat.add_0_r.
    destruct (Nat.leb_spec i k); destruct (Nat.ltb_spec k i); try lia; reflexivity.
  - exec_step H err E. destruct err as [e |]; [exec_ret H; discriminate |].
    rewrite (IH _ _ _ _ _ _ H k). cbn [length].
    destruct (Nat.leb_spec (S i) k); destruct (Nat.ltb_spec k (S i + length rest));
      destruct (Nat.leb_spec i k); destruct (Nat.ltb_spec k (i + S (length rest)));
      cbn [andb];
      first [ lia
            | reflexivity
            | rewrite lookup_insert_ne by lia; reflexivity
            | assert (k = i) by lia; subst k; rewrite lookup_insert_eq; reflexivity ].
Qed.

Lemma writeScripts_size cmds tmpd w scripts w' evs :
  writeScripts WriteFile tmpd 0 cmds ∅ w = (Some scripts, w', evs) ->
  size scripts = length cmds
  /\ forall k v, scripts !! k = Some v -> v = scriptPath tmpd k.
Proof.
  intros H. pose proof (writeScripts_scripts _ _ _ _ _ _ _ _ H) as Hk. split.
  - assert (Hdom : dom scripts = set_seq 0 (length cmds)).
    { apply set_eq. intros k. rewrite elem_of_dom, elem_of_set_seq, Hk.
      cbn [Nat.leb andb Nat.add].
      destruct (Nat.ltb_spec k (length cmds)).
      - split; [lia | eauto].
      - rewrite lookup_empty. split; [intros [x Hx]; discriminate | lia]. }
    rewrite <- size_dom, Hdom. apply size_set_seq.
  - intros k v. rewrite Hk. destruct (_ && _)%bool; [congruence |].
    rewrite lookup_empty. discriminate.
Qed.

(** The renderer is only ever called on scripts of the map. *)
Lemma rangeScripts_scripts (rng : MapRange nat) (scripts : gmap nat string) i v :
  In (i, v) (rangeScripts rng scripts) -> scripts !! i = Some v.
Proof.
  unfold rangeScripts. intros H. apply list_elem_of_In, list_elem_of_omap in H
    as (k & _ & Hk).
  destruct (scripts !! k) as [u |] eqn:E; [| discriminate].
  cbn in Hk. injection Hk as <- <-. exact E.
Qed.

Lemma runCommands_on_scripts sch s ctx rd env scripts w out w' evs :
  runCommands sch s ctx rd env scripts w = (out, w', evs) ->
  Forall (fun ev => exists i v r, scripts !! i = Some v /\ ev = EvRender v r) evs.
Proof.
  unfold runCommands. intros H. destruct (negb (ConcurrentExecution s)).
  - exec_step H err E. exec_ret H. rewrite app_nil_r.
    set (vs := map snd (rangeScripts (visits sch) scripts)) in *.
    assert (Hvs : forall v, In v vs -> exists i, scripts !! i = Some v).
    { intros v Hv. apply in_map_iff in Hv as ([i u] & <- & Hin).
      exists i. eapply rangeScripts_scripts, Hin. }
    apply runSerial_trace in E as [[_ ->] | (k & v & e & Hk & _ & ->)].
    + apply List.Forall_forall. intros ev Hev.
      apply in_map_iff in Hev as (v & <- & Hv).
      destruct (Hvs v Hv) as [i Hi]. eauto.
    + apply Forall_app_2.
      * apply List.Forall_forall. intros ev Hev.
        apply in_map_iff in Hev as (u & <- & Hu).
        apply list_elem_of_In, (subseteq_take k vs), list_elem_of_In in Hu.
        destruct (Hvs u Hu) as [i Hi]. eauto.
      * constructor; [| constructor].
        apply list_elem_of_lookup_2, list_elem_of_In in Hk.
        destruct (Hvs v Hk) as [i Hi]. eauto.
  - unfold runConcurrent in H. exec_step_as H results E tr td.
    assert (Hd : td = []) by (destruct (drain _ _ _); exec_ret H; reflexivity).
    rewrite Hd, app_nil_r. clear H Hd.
    apply runTasks_trace in E as [_ ->].
    apply List.Forall_forall. intros ev Hev.
    apply list_elem_of_In, list_elem_of_lookup in Hev as [n Hn].
    apply lookup_zip_with_Some in Hn as ([i v] & r & -> & Ht & _).
    apply list_elem_of_lookup_2, list_elem_of_omap in Ht as (k & _ & Hk).
    destruct (scripts !! k) as [u |] eqn:Es; [| discriminate].
    cbn in Hk. injection Hk as <- <-. cbn [snd]. eauto.
Qed.

(** From the scripts on, what the renderer is called on is a script
    of a main command or [post.sh]. *)
Lemma runMain_renders sch s ctx rd env tmpd cmds w out w' evs script r :
  runMain WriteFile sch s ctx rd env tmpd cmds w = (out, w', evs) ->
  In (EvRender script r) evs ->
  script = postPath tmpd \/ exists i, script = scriptPath tmpd i.
Proof.
  unfold runMain. intros H Hin. exec_step_as H written E tw tr.
  pose proof (writeScripts_trace _ _ _ _ _ _ _ _ E) as [Hw _].
  apply in_app_or in Hin as [Hin | Hin]; [destruct (write_not_render _ _ _ Hw Hin) |].
  destruct written as [scripts |]; [| exec_ret H; destruct Hin].
  apply writeScripts_size in E as [_ Hv].
  exec_step_as H main E2 tm tp. apply runCommands_on_scripts in E2.
  apply in_app_or in Hin as [Hin | Hin].
  - apply (proj1 (List.Forall_forall _ _) E2) in Hin as (i & v & r' & Hi & Heq).
    injection Heq as -> _. right. exists i. exact (Hv _ _ Hi).
  - destruct main as [[e |] |]; try (exec_ret H; destruct Hin).
    destruct (negb (PostAlways s)); [| exec_ret H; destruct Hin].
    exec_step H err E3. apply render_inv in E3 as ->. exec_ret H.
    destruct Hin as [Heq | []]. injection Heq as <- _. left. reflexivity.
Qed.

(** The events of [deferred]. *)
Lemma deferred_removeAll out tmpd w out' w' evs :
  deferred out (removeAll RemoveAll tmpd) w = (out', w', evs) ->
  out' = out
  /\ ((exists r, out = Returned r /\ evs = [EvRemoveAll tmpd])
      \/ (out = Blocked /\ evs = [])).
Proof.
  unfold deferred. intros H. destruct out as [r |].
  - exec_step H x E. apply removeAll_inv in E as ->. exec_ret H.
    split; [reflexivity |]. left. eauto.
  - exec_ret H. auto.
Qed.

(** X9. [Execute] refuses a nil context, nil render data and a stage
    without commands, each with its own error, before it does
    anything.  Otherwise it first makes the scratch directory, and
    when that succeeds every return, with an error or without, is
    preceded by the removal of the directory, as the last thing done;
    in between there are only writes of files and calls of the
    renderer. *)
Theorem Execute_workspace sch s (ctx : option Context)
        (rd : option (RenderData World Context)) env w out w' evs :
  Execute CanArtifact unicodeLower TempDir WriteFile RemoveAll sch s ctx rd env w = (out, w', evs) ->
  (evs = [] /\ w' = w
   /\ ((ctx = None /\ out = Returned (Some "context must not be nil"))
       \/ (ctx <> None /\ rd = None
           /\ out = Returned (Some "render data must not be nil"))
       \/ exists ctx' rd',
            ctx = Some ctx' /\ rd = Some rd'
            /\ ((exists err, getCommands CanArtifact unicodeLower s rd' = inr err
                             /\ out = Returned (Some err))
                \/ (getCommands CanArtifact unicodeLower s rd' = inl []
                    /\ out = Returned (Some "no commands to execute")))))
  \/ (exists ctx' rd' cmds,
        ctx = Some ctx' /\ rd = Some rd'
        /\ getCommands CanArtifact unicodeLower s rd' = inl cmds /\ cmds <> []
        /\ ((exists e, evs = [EvTempDir (inr e)] /\ out = Returned (Some e))
            \/ (exists tmpd mid,
                  Forall (fun ev => isWrite ev \/ isRender ev) mid
                  /\ ((exists r, out = Returned r
                                 /\ evs = EvTempDir (inl tmpd)
                                          :: mid ++ [EvRemoveAll tmpd])
                      \/ (out = Blocked /\ evs = EvTempDir (inl tmpd) :: mid))))).
Proof.
  unfold Execute. intros H.
  destruct ctx as [ctx |]; [| exec_ret H; left; auto 10].
  destruct rd as [rd |].
  2:{ exec_ret H. left. split; [reflexivity |]. split; [reflexivity |].
      right. left. split; [discriminate | auto]. }
  destruct (getCommands CanArtifact unicodeLower s rd) as [cmds | err] eqn:Ec.
  2:{ exec_ret H. left. split; [reflexivity |]. split; [reflexivity |].
      right. right. exists ctx, rd. rewrite Ec. eauto 10. }
  destruct (Nat.eqb_spec (length cmds) 0) as [Hz | Hlen].
  { exec_ret H. left. split; [reflexivity |]. split; [reflexivity |].
    right. right. exists ctx, rd. rewrite Ec.
    destruct cmds; [auto 10 | discriminate Hz]. }
  right. exists ctx, rd, cmds. split; [reflexivity |]. split; [reflexivity |].
  split; [exact Ec |]. split; [intros ->; apply Hlen; reflexivity |].
  exec_step H dir E. apply tempDir_inv in E as ->.
  destruct dir as [tmpd | err]; [| exec_ret H; left; eauto].
  right. exec_step_as H out0 E ts td.
  pose proof (runStage_kinds _ _ _ _ _ _ _ _ _ _ _ E) as Hk.
  apply deferred_removeAll in H as [-> [(r & -> & ->) | [-> ->]]];
    exists tmpd, ts; (split; [exact Hk |]).
  - left. exists r. auto.
  - right. rewrite app_nil_r. auto.
Qed.

(** X10. When the renderer fails on [prep.sh], [Execute] returns its
    error wrapped as a failure of the prep stage; [post.sh] and the
    scripts of the commands are not written, nothing else is run, and
    the scratch directory is removed. *)
Theorem Execute_prep_failure sch s (ctx : option Context)
        (rd : option (RenderData World Context)) env w out w' evs tmpd e :
  Execute CanArtifact unicodeLower TempDir WriteFile RemoveAll sch s ctx rd env w = (out, w', evs) ->
  In (EvTempDir (inl tmpd)) evs ->
  In (EvRender (prepPath tmpd) (Some e)) evs ->
  out = Returned (Some ("Failed execution of the prep stage: " +:+ e))
  /\ evs = [EvTempDir (inl tmpd);
            EvWriteFile (prepPath tmpd) (Join (PrepCommands s) newline) None;
            EvRender (prepPath tmpd) (Some e);
            EvRemoveAll tmpd].
Proof.
  unfold Execute. intros H Hdir Hin.
  destruct ctx as [ctx |]; [| exec_ret H; destruct Hin].
  destruct rd as [rd |]; [| exec_ret H; destruct Hin].
  destruct (getCommands CanArtifact unicodeLower s rd) as [cmds | err]; [| exec_ret H; destruct Hin].
  destruct (length cmds =? 0)%nat; [exec_ret H; destruct Hin |].
  exec_step H dir E. apply tempDir_inv in E as ->.
  destruct dir as [tmpd0 | err].
  2:{ exec_ret H. destruct Hdir as [Heq | []]. discriminate Heq. }
  exec_step_as H out0 E ts td.
  pose proof (runStage_kinds _ _ _ _ _ _ _ _ _ _ _ E) as Hk.
  assert (Heq : tmpd = tmpd0).
  { destruct Hdir as [Heq | Hdir]; [injection Heq as <-; reflexivity |].
    exfalso. simpl in Hdir. apply in_app_or in Hdir as [Hdir | Hdir].
    - apply (proj1 (List.Forall_forall _ _) Hk) in Hdir as [[] | []].
    - apply deferred_removeAll in H as [_ [(r & _ & ->) | [_ ->]]];
        [| destruct Hdir]. destruct Hdir as [Heq | []]. discriminate Heq. }
  subst tmpd0.
  assert (Hs : In (EvRender (prepPath tmpd) (Some e)) ts).
  { destruct Hin as [Heq | Hin]; [discriminate Heq |].
    simpl in Hin. apply in_app_or in Hin as [Hin | Hin]; [exact Hin |].
    exfalso. apply deferred_removeAll in H as [_ [(r & _ & ->) | [_ ->]]];
      [| destruct Hin]. destruct Hin as [Heq | []]. discriminate Heq. }
  clear Hin Hdir Hk.
  assert (Hstage : out0 = Returned (Some ("Failed execution of the prep stage: " +:+ e))
                   /\ ts = [EvWriteFile (prepPath tmpd) (Join (PrepCommands s) newline)
                              None;
                            EvRender (prepPath tmpd) (Some e)]).
  { unfold runStage in E.
    exec_step E err E1. apply writeFile_inv in E1 as ->.
    destruct Hs as [Heq | Hs]; [discriminate Heq |].
    destruct err as [e1 |]; [exec_ret E; destruct Hs |].
    exec_step E err E1. apply render_inv in E1 as ->.
    destruct err as [e1 |].
    { exec_ret E. destruct Hs as [Heq | []]. injection Heq as ->. auto. }
    exfalso. destruct Hs as [Heq | Hs]; [discriminate Heq |].
    exec_step E err E1. apply writeFile_inv in E1 as ->.
    destruct Hs as [Heq | Hs]; [discriminate Heq |].
    destruct err as [e1 |]; [exec_ret E; destruct Hs |].
    exec_step_as E main E1 tm tp. simpl in Hs.
    apply in_app_or in Hs as [Hs | Hs].
    - apply (runMain_renders _ _ _ _ _ _ _ _ _ _ _ _ _ E1) in Hs as [Hp | [i Hp]].
      + exact (prepPath_not_post _ Hp).
      + exact (prepPath_not_script _ _ Hp).
    - destruct (PostAlways s); [| exec_ret E; destruct Hs].
      unfold deferred in E. destruct main; [| exec_ret E; destruct Hs].
      exec_step E x E2. apply render_inv in E2 as ->. exec_ret E.
      destruct Hs as [Heq | []]. injection Heq as Heq _.
      exact (prepPath_not_post _ (eq_sym Heq)). }
  destruct Hstage as [-> ->].
  apply deferred_removeAll in H as [-> [(r & _ & ->) | [Hb _]]];
    [| discriminate Hb].
  split; reflexivity.
Qed.
(** What the renderer answered, in the order of the calls. *)
Lemma resultOf_other (i : nat) (e : option error) (rest : list (nat * option error))
      (l : list nat) :
  (forall j, In j l -> j <> i) ->
  omap (resultOf ((i, e) :: rest)) l = omap (resultOf rest) l.
Proof.
  induction l as [| j l IH]; intros H; [reflexivity |].
  cbn [omap list_omap]. rewrite IH by (intros x Hx; apply H; right; exact Hx).
  unfold resultOf at 1 3. cbn [find fst].
  destruct (Nat.eqb_spec i j) as [-> | _]; [destruct (H j (or_introl eq_refl) eq_refl) |].
  reflexivity.
Qed.

Lemma resultOf_own (results : list (nat * option error)) :
  NoDup (map fst results) ->
  omap (resultOf results) (map fst results) = map snd results.
Proof.
  induction results as [| [i e] rest IH]; intros Hnd; [reflexivity |].
  cbn [map fst snd] in *. apply NoDup_cons in Hnd as [Hi Hnd].
  cbn [omap list_omap]. unfold resultOf at 1. cbn [find fst].
  rewrite Nat.eqb_refl. cbn [fmap option_fmap option_map snd]. f_equal.
  rewrite resultOf_other; [exact (IH Hnd) |].
  intros j Hj ->. apply Hi, list_elem_of_In, Hj.
Qed.

Lemma zip_with_results (tasks : list (nat * string)) :
  forall results : list (nat * option error),
    length results = length tasks ->
    omap (fun ev => match ev with EvRender _ r => Some r | _ => None end)
         (zip_with (fun t r => EvRender (snd t) (snd r)) tasks results)
    = map snd results.
Proof.
  induction tasks as [| t tasks IH]; intros [| r results] Hlen;
    try discriminate Hlen; [reflexivity |].
  cbn. f_equal. apply IH. injection Hlen as Hlen. exact Hlen.
Qed.

(** The concurrent run, under a schedule that lets every task make its
    call and publish its result: the results are received in the order
    of publication, [n / 2 + 1] of the [n] of them, and the run
    returns the last error among those received. *)
Lemma runConcurrent_outcome sch rd ctx env scripts w out w' evs :
  fairSchedule sch -> scripts <> ∅ ->
  runConcurrent sch rd ctx env scripts w = (out, w', evs) ->
  exists errors,
    Permutation errors
      (omap (fun ev => match ev with EvRender _ r => Some r | _ => None end) evs)
    /\ length errors = size scripts
    /\ out = Returned (foldl latest None (take (length errors / 2 + 1) errors)).
Proof.
  unfold runConcurrent. intros (Hv & Hc & Hs) Hne H.
  set (launched := rangeScripts (visits sch) scripts) in *.
  set (called := omap (fun i => (fun v => (i, v)) <$> scripts !! i)
                      (calls sch (map fst launched))) in *.
  exec_step_as H results E tr td.
  set (errors := omap (resultOf results) (sends sch (map fst launched))) in *.
  apply runTasks_trace in E as [Hk ->].
  assert (Hl : Permutation launched (map_to_list scripts))
    by apply rangeScripts_fair, Hv.
  assert (Hcalled : Permutation called (map_to_list scripts)).
  { subst called. rewrite (Hc _), Hl.
    rewrite omap_lookup_keys; [reflexivity |].
    intros i v. apply elem_of_map_to_list. }
  assert (Hkeys : Permutation (map fst results) (map fst launched)).
  { rewrite Hk, Hcalled, Hl. reflexivity. }
  assert (Hnd : NoDup (map fst results)).
  { rewrite Hkeys, Hl. apply NoDup_fst_map_to_list. }
  assert (Herr : Permutation errors (map snd results)).
  { subst errors. rewrite (Hs _), <- Hkeys. rewrite (resultOf_own _ Hnd). reflexivity. }
  assert (Hlen : length results = length called).
  { rewrite <- (length_map fst results), Hk. apply length_map. }
  assert (Hsize : length errors = size scripts).
  { rewrite (Permutation_length Herr), length_map, Hlen,
      (Permutation_length Hcalled). apply length_map_to_list. }
  assert (Hnil : errors <> []).
  { intros Heq. rewrite Heq in Hsize. cbn [length] in Hsize.
    symmetry in Hsize. apply map_size_empty_inv in Hsize. exact (Hne Hsize). }
  rewrite (drain_received errors Hnil) in H. exec_ret H.
  exists errors. rewrite app_nil_r. split; [| split; [exact Hsize | reflexivity]].
  rewrite zip_with_results by exact Hlen. exact Herr.
Qed.

Lemma resultOf_key (results : list (nat * option error)) (i : nat) :
  In i (map fst results) -> exists r, resultOf results i = Some r.
Proof.
  induction results as [| [k e] rest IH]; intros Hin; [destruct Hin |].
  unfold resultOf. cbn [find fst].
  destruct (Nat.eqb_spec k i) as [-> | Hne]; [eauto |].
  destruct Hin as [Heq | Hin]; [destruct (Hne Heq) |]. exact (IH Hin).
Qed.

Lemma resultOf_In (results : list (nat * option error)) (i : nat) (r : option error) :
  NoDup (map fst results) -> In (i, r) results -> resultOf results i = Some r.
Proof.
  induction results as [| [k e] rest IH]; intros Hnd Hin; [destruct Hin |].
  cbn [map fst] in Hnd. apply NoDup_cons in Hnd as [Hk Hnd].
  unfold resultOf. cbn [find fst].
  destruct Hin as [Heq | Hin].
  - injection Heq as -> ->. rewrite Nat.eqb_refl. reflexivity.
  - destruct (Nat.eqb_spec k i) as [-> | _]; [| exact (IH Hnd Hin)].
    exfalso. apply Hk, list_elem_of_In, in_map_iff. exists (i, r). auto.
Qed.

(** The trace of the tasks, told by what each task was answered. *)
Lemma zip_with_answers (answer : nat -> option error) (tasks : list (nat * string)) :
  forall results : list (nat * option error),
    map fst results = map fst tasks ->
    (forall i r, In (i, r) results -> answer i = r) ->
    zip_with (fun t r => EvRender (snd t) (snd r)) tasks results
    = map (fun iv => EvRender (snd iv) (answer (fst iv))) tasks.
Proof.
  induction tasks as [| [i v] tasks IH]; intros [| [k r] results] Hk Ha;
    try discriminate Hk; [reflexivity |].
  cbn [map fst] in Hk. injection Hk as -> Hk.
  cbn [zip_with map fst snd]. rewrite (Ha i r (or_introl eq_refl)). f_equal.
  apply IH; [exact Hk |]. intros i' r' Hin. apply Ha. right. exact Hin.
Qed.

(** The concurrent run, task by task: the renderer is called in the
    order [calls] of the schedule, the results are sent in the order
    [sends], and the first [n / 2 + 1] of the [n] results sent are
    received. *)
Lemma runConcurrent_sent sch rd ctx env scripts w out w' evs :
  fairSchedule sch -> scripts <> ∅ ->
  runConcurrent sch rd ctx env scripts w = (out, w', evs) ->
  exists answer : nat -> option error,
    evs = map (fun iv => EvRender (snd iv) (answer (fst iv)))
              (omap (fun i => (fun v => (i, v)) <$> scripts !! i)
                    (calls sch (map fst (rangeScripts (visits sch) scripts))))
    /\ Permutation
         (omap (fun i => (fun v => (i, v)) <$> scripts !! i)
               (calls sch (map fst (rangeScripts (visits sch) scripts))))
         (map_to_list scripts)
    /\ Permutation (sends sch (map fst (rangeScripts (visits sch) scripts)))
                   (map fst (map_to_list scripts))
    /\ out = Returned
               (foldl latest None
                  (take (size scripts / 2 + 1)
                     (map answer
                        (sends sch (map fst (rangeScripts (visits sch) scripts)))))).
Proof.
  unfold runConcurrent. intros (Hv & Hc & Hs) Hne H.
  set (launched := rangeScripts (visits sch) scripts) in *.
  set (called := omap (fun i => (fun v => (i, v)) <$> scripts !! i)
                      (calls sch (map fst launched))) in *.
  exec_step_as H results E tr td.
  set (errors := omap (resultOf results) (sends sch (map fst launched))) in *.
  apply runTasks_trace in E as [Hk ->].
  assert (Hl : Permutation launched (map_to_list scripts))
    by apply rangeScripts_fair, Hv.
  assert (Hcalled : Permutation called (map_to_list scripts)).
  { subst called. rewrite (Hc _), Hl.
    rewrite omap_lookup_keys; [reflexivity |].
    intros i v. apply elem_of_map_to_list. }
  assert (Hkeys : Permutation (map fst results) (map fst launched)).
  { rewrite Hk, Hcalled, Hl. reflexivity. }
  assert (Hnd : NoDup (map fst results)).
  { rewrite Hkeys, Hl. apply NoDup_fst_map_to_list. }
  assert (Hsent : Permutation (sends sch (map fst launched))
                              (map fst (map_to_list scripts))).
  { rewrite (Hs _), Hl. reflexivity. }
  pose (answer := fun i => default None (resultOf results i)).
  assert (Hans : forall i r, In (i, r) results -> answer i = r).
  { intros i r Hin. unfold answer. rewrite (resultOf_In _ _ _ Hnd Hin). reflexivity. }
  assert (Herr : errors = map answer (sends sch (map fst launched))).
  { subst errors.
    assert (Hall : forall i, In i (sends sch (map fst launched)) ->
                             In i (map fst results)).
    { intros i Hi. apply (Permutation_in _ (Hs _)) in Hi.
      apply (Permutation_in _ (Permutation_sym Hkeys)), Hi. }
    revert Hall. generalize (sends sch (map fst launched)).
    induction l as [| i l IHl]; intros Hall; [reflexivity |].
    cbn [omap list_omap map].
    destruct (resultOf_key results i (Hall i (or_introl eq_refl))) as [r Hr].
    unfold answer at 1. rewrite Hr. cbn [default]. f_equal.
    apply IHl. intros k Hk'. apply Hall. right. exact Hk'. }
  assert (Hsize : length errors = size scripts).
  { rewrite Herr, length_map, (Permutation_length Hsent), length_map.
    apply length_map_to_list. }
  assert (Hnil : errors <> []).
  { intros Heq. rewrite Heq in Hsize. cbn [length] in Hsize.
    symmetry in Hsize. apply map_size_empty_inv in Hsize. exact (Hne Hsize). }
  rewrite (drain_received errors Hnil) in H. exec_ret H.
  exists answer. rewrite app_nil_r. split; [exact (zip_with_answers answer _ _ Hk Hans) |].
  split; [exact Hcalled |].
  split; [exact Hsent |]. rewrite Hsize, Herr. reflexivity.
Qed.

(** X11. In the concurrent mode, when every task gets to make its call
    and to send its result, the renderer is called once on every
    script and the main phase returns; what it returns is settled by
    the order in which the tasks send: with [answer i] what the
    renderer answered the task of script [i], it is the last error
    among the first [n / 2 + 1] entries of the [n] answers taken in
    the order of sending, or [nil] when none of these is an error. *)
Theorem runCommands_concurrent_outcome sch s ctx rd env scripts w out w' evs :
  ConcurrentExecution s = true -> fairSchedule sch -> scripts <> ∅ ->
  runCommands sch s ctx rd env scripts w = (out, w', evs) ->
  exists answer : nat -> option error,
    evs = map (fun iv => EvRender (snd iv) (answer (fst iv)))
              (omap (fun i => (fun v => (i, v)) <$> scripts !! i)
                    (calls sch (map fst (rangeScripts (visits sch) scripts))))
    /\ Permutation
         (omap (fun i => (fun v => (i, v)) <$> scripts !! i)
               (calls sch (map fst (rangeScripts (visits sch) scripts))))
         (map_to_list scripts)
    /\ Permutation (sends sch (map fst (rangeScripts (visits sch) scripts)))
                   (map fst (map_to_list scripts))
    /\ out = Returned
               (foldl latest None
                  (take (size scripts / 2 + 1)
                     (map answer
                        (sends sch (map fst (rangeScripts (visits sch) scripts)))))).
Proof.
  unfold runCommands. intros -> Hf Hne H. cbn [negb] in H.
  exact (runConcurrent_sent _ _ _ _ _ _ _ _ _ Hf Hne H).
Qed.

Lemma runCommands_returns sch s ctx rd env scripts w out w' evs :
  fairSchedule sch -> scripts <> ∅ ->
  runCommands sch s ctx rd env scripts w = (out, w', evs) ->
  out <> Blocked.
Proof.
  intros Hf Hne H. unfold runCommands in H.
  destruct (negb (ConcurrentExecution s)).
  - exec_step H err E. exec_ret H. discriminate.
  - destruct (runConcurrent_outcome _ _ _ _ _ _ _ _ _ Hf Hne H) as (errs & _ & _ & ->).
    discriminate.
Qed.

Lemma runMain_returns sch s ctx rd env tmpd cmds w out w' evs :
  fairSchedule sch -> cmds <> [] ->
  runMain WriteFile sch s ctx rd env tmpd cmds w = (out, w', evs) ->
  out <> Blocked.
Proof.
  unfold runMain. intros Hf Hne H. exec_step_as H written E tw tr.
  destruct written as [scripts |]; [| exec_ret H; discriminate].
  apply writeScripts_size in E as [Hsize _].
  assert (Hs : scripts <> ∅).
  { intros ->. rewrite map_size_empty in Hsize. destruct cmds; [contradiction | discriminate]. }
  exec_step_as H main E2 tm tp.
  pose proof (runCommands_returns _ _ _ _ _ _ _ _ _ _ Hf Hs E2) as Hmain.
  destruct main as [[e |] |]; [exec_ret H; discriminate | | contradiction].
  destruct (negb (PostAlways s)); [| exec_ret H; discriminate].
  exec_step H err E3. exec_ret H. discriminate.
Qed.

(** X12. Under a schedule that lets every task make its call and
    publish its result, [Execute] returns: it does not wait for ever
    on the channel of the concurrent mode. *)
Theorem Execute_returns sch s (ctx : option Context)
        (rd : option (RenderData World Context)) env w out w' evs :
  fairSchedule sch ->
  Execute CanArtifact unicodeLower TempDir WriteFile RemoveAll sch s ctx rd env w = (out, w', evs) ->
  exists err, out = Returned err.
Proof.
  unfold Execute. intros Hf H.
  destruct ctx as [ctx |]; [| exec_ret H; eauto].
  destruct rd as [rd |]; [| exec_ret H; eauto].
  destruct (getCommands CanArtifact unicodeLower s rd) as [cmds | err]; [| exec_ret H; eauto].
  destruct (Nat.eqb_spec (length cmds) 0) as [_ | Hlen]; [exec_ret H; eauto |].
  assert (Hne : cmds <> []) by (intros ->; apply Hlen; reflexivity).
  exec_step H dir E. destruct dir as [tmpd | err]; [| exec_ret H; eauto].
  exec_step_as H out0 E2 ts td.
  apply deferred_removeAll in H as [-> _].
  assert (Hstage : out0 <> Blocked).
  { unfold runStage in E2.
    exec_step E2 err E3. clear E3. destruct err as [e |]; [exec_ret E2; discriminate |].
    exec_step E2 err E3. clear E3. destruct err as [e |]; [exec_ret E2; discriminate |].
    exec_step E2 err E3. clear E3. destruct err as [e |]; [exec_ret E2; discriminate |].
    exec_step_as E2 main E3 tm tp.
    pose proof (runMain_returns _ _ _ _ _ _ _ _ _ _ _ Hf Hne E3) as Hmain.
    destruct main as [r |]; [| contradiction].
    destruct (PostAlways s); [| exec_ret E2; discriminate].
    unfold deferred in E2. exec_step E2 x E4. exec_ret E2. discriminate. }
  destruct out0 as [r |]; [eauto | contradiction].
Qed.
(** A run of [Execute] that made the scratch directory, taken apart. *)
Lemma Execute_inv sch s (ctx : option Context)
      (rd : option (RenderData World Context)) env w out w' evs tmpd :
  Execute CanArtifact unicodeLower TempDir WriteFile RemoveAll sch s ctx rd env w = (out, w', evs) ->
  In (EvTempDir (inl tmpd)) evs ->
  exists ctx' rd' cmds w1 w2 ts,
    ctx = Some ctx' /\ rd = Some rd'
    /\ getCommands CanArtifact unicodeLower s rd' = inl cmds /\ cmds <> []
    /\ runStage WriteFile sch s ctx' rd' env tmpd cmds w1 = (out, w2, ts)
    /\ ((exists r, out = Returned r
                   /\ evs = EvTempDir (inl tmpd) :: ts ++ [EvRemoveAll tmpd])
        \/ (out = Blocked /\ evs = EvTempDir (inl tmpd) :: ts)).
Proof.
  unfold Execute. intros H Hdir.
  destruct ctx as [ctx |]; [| exec_ret H; destruct Hdir].
  destruct rd as [rd |]; [| exec_ret H; destruct Hdir].
  destruct (getCommands CanArtifact unicodeLower s rd) as [cmds | err] eqn:Ec;
    [| exec_ret H; destruct Hdir].
  destruct (Nat.eqb_spec (length cmds) 0) as [_ | Hlen]; [exec_ret H; destruct Hdir |].
  assert (Hne : cmds <> []) by (intros ->; apply Hlen; reflexivity).
  exec_step H dir E. apply tempDir_inv in E as ->.
  destruct dir as [tmpd0 | err].
  2:{ exec_ret H. destruct Hdir as [Heq | []]. discriminate Heq. }
  exec_step_as H out0 E ts td.
  pose proof (runStage_kinds _ _ _ _ _ _ _ _ _ _ _ E) as Hk.
  apply deferred_removeAll in H as [-> Htd].
  assert (Heq : tmpd = tmpd0).
  { destruct Hdir as [Heq | Hdir]; [injection Heq as <-; reflexivity |].
    exfalso. simpl in Hdir. apply in_app_or in Hdir as [Hdir | Hdir].
    - apply (proj1 (List.Forall_forall _ _) Hk) in Hdir as [[] | []].
    - destruct Htd as [(r & _ & ->) | [_ ->]]; [| destruct Hdir].
      destruct Hdir as [Heq | []]. discriminate Heq. }
  subst tmpd0. exists ctx, rd, cmds, w0, w1, ts.
  repeat (split; [first [reflexivity | assumption] |]).
  destruct Htd as [(r & -> & ->) | [-> ->]]; [left; eauto |].
  right. rewrite app_nil_r. auto.
Qed.

(** The error that the loop over the channel returns was received. *)
Lemma drain_origin (errors : list (option error)) : forall x e0 r,
  drain x errors e0 = Some r -> r = e0 \/ exists e, r = Some e /\ In (Some e) errors.
Proof.
  induction errors as [| err rest IH]; intros x e0 r H; cbn [drain] in H.
  - destruct (x <=? length [])%nat; [discriminate | injection H as <-; auto].
  - destruct (x <=? length (err :: rest))%nat; [| injection H as <-; auto].
    apply IH in H as [-> | (e & -> & Hin)].
    + destruct err as [e |]; cbn [latest]; [| auto].
      right. exists e. split; [reflexivity | left; reflexivity].
    + right. exists e. split; [reflexivity | right; exact Hin].
Qed.

(** An error returned by the main phase is the error of a call of
    the renderer. *)
Lemma runCommands_error_rendered sch s ctx rd env scripts w e w' evs :
  runCommands sch s ctx rd env scripts w = (Returned (Some e), w', evs) ->
  exists v, In (EvRender v (Some e)) evs.
Proof.
  unfold runCommands. intros H. destruct (negb (ConcurrentExecution s)).
  - exec_step H err E. exec_ret H.
    match goal with Heq : Returned _ = Returned _ |- _ => injection Heq as <- end.
    rewrite app_nil_r.
    apply runSerial_trace in E as [[Hn _] | (k & v & e' & _ & Hr & ->)];
      [discriminate Hn |].
    injection Hr as ->. exists v. apply in_or_app. right. left. reflexivity.
  - unfold runConcurrent in H. exec_step_as H results E tr td.
    destruct (drain _ _ _) as [r |] eqn:Ed; exec_ret H;
      match goal with Heq : Returned _ = _ |- _ =>
        first [injection Heq as <- | discriminate Heq] end.
    rewrite app_nil_r.
    apply drain_origin in Ed as [Heq | (e' & Heq & Hin)]; [discriminate Heq |].
    injection Heq as <-.
    apply list_elem_of_In, list_elem_of_omap in Hin as (i & _ & Hi).
    unfold resultOf in Hi.
    destruct (find _ results) as [[i' r'] |] eqn:Ef; [| discriminate Hi].
    cbn in Hi. injection Hi as ->.
    apply find_some in Ef as [Hin _].
    apply runTasks_trace in E as [Hk ->].
    apply list_elem_of_In, list_elem_of_lookup in Hin as [n Hn].
    assert (Hlen : length results = length (map fst results)) by (symmetry; apply length_map).
    rewrite Hk, length_map in Hlen.
    destruct (lookup_lt_is_Some_2
                (omap (fun i => (fun v => (i, v)) <$> scripts !! i)
                   (calls sch (map fst (rangeScripts (visits sch) scripts)))) n)
      as [[j v] Hv].
    { rewrite <- Hlen. eapply lookup_lt_Some, Hn. }
    exists v. apply list_elem_of_In, list_elem_of_lookup. exists n.
    apply lookup_zip_with_Some. exists (j, v), (i', Some e). auto.
Qed.

(** In the serial mode a main phase without error saw no call of the
    renderer fail. *)
Lemma runCommands_serial_clean sch s ctx rd env scripts w w' evs :
  ConcurrentExecution s = false ->
  runCommands sch s ctx rd env scripts w = (Returned None, w', evs) ->
  forall v e, ~ In (EvRender v (Some e)) evs.
Proof.
  unfold runCommands. intros -> H v e Hin. cbn [negb] in H.
  exec_step H err E. exec_ret H.
  match goal with Heq : Returned _ = Returned _ |- _ => injection Heq as <- end.
  rewrite app_nil_r in Hin.
  apply runSerial_trace in E as [[_ ->] | (k & v' & e' & _ & Hr & _)];
    [| discriminate Hr].
  apply in_map_iff in Hin as (u & Heq & _). discriminate Heq.
Qed.

(** The scripts and the main phase never touch [post.sh]. *)
Lemma main_no_post sch s ctx rd env tmpd cmds w scripts w1 tw main w2 tm :
  writeScripts WriteFile tmpd 0 cmds ∅ w = (Some scripts, w1, tw) ->
  runCommands sch s ctx rd env scripts w1 = (main, w2, tm) ->
  forall err, ~ In (EvRender (postPath tmpd) err) (tw ++ tm).
Proof.
  intros Ew Em err Hin.
  pose proof (writeScripts_trace _ _ _ _ _ _ _ _ Ew) as [Hw _].
  pose proof (writeScripts_size _ _ _ _ _ _ Ew) as [_ Hv].
  pose proof (runCommands_on_scripts _ _ _ _ _ _ _ _ _ _ Em) as Hon.
  apply in_app_or in Hin as [Hin | Hin];
    [exact (write_not_render _ _ _ Hw Hin) |].
  apply (proj1 (List.Forall_forall _ _) Hon) in Hin as (i & v & r & Hi & Heq).
  injection Heq as Hp _. rewrite <- Hp in Hi. apply Hv in Hi.
  exact (postPath_not_script _ _ Hi).
Qed.

(** X14. Without [PostAlways], [post.sh] is run at most once, as the
    last thing before the scratch directory is removed, and what the
    renderer answers on it is what [Execute] returns; in the serial
    mode it is run only when no call of the renderer before it
    failed. *)
Theorem Execute_post_result sch s (ctx : option Context)
        (rd : option (RenderData World Context)) env w out w' evs tmpd err :
  PostAlways s = false ->
  Execute CanArtifact unicodeLower TempDir WriteFile RemoveAll sch s ctx rd env w = (out, w', evs) ->
  In (EvTempDir (inl tmpd)) evs ->
  In (EvRender (postPath tmpd) err) evs ->
  out = Returned err
  /\ exists front,
      evs = front ++ [EvRender (postPath tmpd) err; EvRemoveAll tmpd]
      /\ (forall err', ~ In (EvRender (postPath tmpd) err') front)
      /\ (ConcurrentExecution s = false -> forall v e, ~ In (EvRender v (Some e)) front).
Proof.
  intros Hpa H Hdir Hin.
  destruct (Execute_inv _ _ _ _ _ _ _ _ _ _ H Hdir)
    as (ctx' & rd' & cmds & w1 & w2 & ts & -> & -> & _ & _ & Es & Hevs).
  assert (Hts : In (EvRender (postPath tmpd) err) ts).
  { destruct Hevs as [(r & _ & ->) | [_ ->]].
    - destruct Hin as [Heq | Hin]; [discriminate Heq |].
      apply in_app_or in Hin as [Hin | [Heq | []]]; [exact Hin | discriminate Heq].
    - destruct Hin as [Heq | Hin]; [discriminate Heq | exact Hin]. }
  clear Hin Hdir H.
  assert (Hstage : out = Returned err
                   /\ exists body,
                       ts = body ++ [EvRender (postPath tmpd) err]
                       /\ (forall err', ~ In (EvRender (postPath tmpd) err') body)
                       /\ (ConcurrentExecution s = false ->
                           forall v e, ~ In (EvRender v (Some e)) body)).
  { unfold runStage in Es. rewrite Hpa in Es.
    exec_step Es e1 E. apply writeFile_inv in E as ->.
    destruct Hts as [Heq | Hts]; [discriminate Heq |].
    destruct e1 as [e1 |]; [exec_ret Es; destruct Hts |].
    exec_step Es e2 E. apply render_inv in E as ->.
    destruct e2 as [e2 |].
    { exec_ret Es. destruct Hts as [Heq | []]. injection Heq as Heq _.
      destruct (prepPath_not_post _ Heq). }
    destruct Hts as [Heq | Hts].
    { injection Heq as Heq _. destruct (prepPath_not_post _ Heq). }
    exec_step Es e3 E. apply writeFile_inv in E as ->.
    destruct Hts as [Heq | Hts]; [discriminate Heq |].
    destruct e3 as [e3 |]; [exec_ret Es; destruct Hts |].
    exec_step_as Es main E tm tp. exec_ret Es. rewrite app_nil_r in *.
    cbn [app] in Hts.
    apply runMain_post_policy in E
      as [[_ (wa & Ew)] | (scripts & wa & tw & main0 & wb & tm' & Ew & Em & Hcase)].
    { pose proof (writeScripts_trace _ _ _ _ _ _ _ _ Ew) as [Hw _].
      destruct (write_not_render _ _ _ Hw Hts). }
    pose proof (main_no_post _ _ _ _ _ _ _ _ _ _ _ _ _ _ Ew Em) as Hno.
    pose proof (writeScripts_trace _ _ _ _ _ _ _ _ Ew) as [Hw _].
    destruct Hcase as [(_ & _ & ->) | [(_ & Hp & _) | (-> & _ & err0 & -> & ->)]];
      [destruct (Hno _ Hts) | congruence |].
    rewrite app_assoc in Hts. apply in_app_or in Hts as [Hts | [Heq | []]];
      [destruct (Hno _ Hts) |].
    injection Heq as ->. split; [reflexivity |].
    exists ([EvWriteFile (prepPath tmpd) (Join (PrepCommands s) newline) None;
             EvRender (prepPath tmpd) None;
             EvWriteFile (postPath tmpd) (Join (PostCommands s) newline) None]
            ++ tw ++ tm').
    split; [cbn [app]; rewrite <- !app_assoc; reflexivity |]. split.
    - intros err' [Heq | [Heq | [Heq | Hb]]]; try discriminate Heq;
        [| exact (Hno _ Hb)].
      injection Heq as Heq _. exact (prepPath_not_post _ Heq).
    - intros Hser v e [Heq | [Heq | [Heq | Hb]]]; try discriminate Heq.
      cbn [app] in Hb.
      apply in_app_or in Hb as [Hb | Hb]; [exact (write_not_render _ _ _ Hw Hb) |].
      exact (runCommands_serial_clean _ _ _ _ _ _ _ _ _ Hser Em v e Hb). }
  destruct Hstage as [-> (body & -> & Hnp & Hser)]. split; [reflexivity |].
  destruct Hevs as [(r & _ & ->) | [Hb _]]; [| discriminate Hb].
  exists (EvTempDir (inl tmpd) :: body). split.
  { cbn [app]. rewrite <- app_assoc. reflexivity. }
  split.
  - intros err' [Heq | Hb]; [discriminate Heq | exact (Hnp _ Hb)].
  - intros Hs v e [Heq | Hb]; [discriminate Heq | exact (Hser Hs v e Hb)].
Qed.

(** X15. With [PostAlways], once [post.sh] is written, a call of
    [Execute] that returns runs [post.sh] once, after everything else
    and just before the scratch directory is removed, whatever
    happened to the main commands; what the renderer answers on it is
    dropped: an error that [Execute] returns is the error of a call
    made before. *)
Theorem Execute_post_always sch s (ctx : option Context)
        (rd : option (RenderData World Context)) env w r w' evs tmpd data :
  PostAlways s = true ->
  Execute CanArtifact unicodeLower TempDir WriteFile RemoveAll sch s ctx rd env w
  = (Returned r, w', evs) ->
  In (EvTempDir (inl tmpd)) evs ->
  In (EvWriteFile (postPath tmpd) data None) evs ->
  exists front err,
    evs = front ++ [EvRender (postPath tmpd) err; EvRemoveAll tmpd]
    /\ (forall err', ~ In (EvRender (postPath tmpd) err') front)
    /\ (forall e, r = Some e -> exists v, In (EvRender v (Some e)) front).
Proof.
  intros Hpa H Hdir Hin.
  destruct (Execute_inv _ _ _ _ _ _ _ _ _ _ H Hdir)
    as (ctx' & rd' & cmds & w1 & w2 & ts & -> & -> & _ & _ & Es & Hevs).
  destruct Hevs as [(r0 & _ & ->) | [Hb _]]; [| discriminate Hb].
  assert (Hts : In (EvWriteFile (postPath tmpd) data None) ts).
  { destruct Hin as [Heq | Hin]; [discriminate Heq |].
    apply in_app_or in Hin as [Hin | [Heq | []]]; [exact Hin | discriminate Heq]. }
  destruct (runStage_post_always _ _ _ _ _ _ _ _ _ _ _ _ Hpa Es Hts)
    as (tm & wc & wd & err & Em & ->).
  assert (Hmain : (forall err', ~ In (EvRender (postPath tmpd) err') tm)
                  /\ (forall e, r = Some e -> exists v, In (EvRender v (Some e)) tm)).
  { apply runMain_post_policy in Em
      as [[Hr (wa & Ew)] | (scripts & wa & tw & main0 & wb & tm' & Ew & Ec & Hcase)].
    - pose proof (writeScripts_trace _ _ _ _ _ _ _ _ Ew) as [Hw _].
      split; [intros err'; apply write_not_render, Hw |].
      intros e ->. discriminate Hr.
    - pose proof (main_no_post _ _ _ _ _ _ _ _ _ _ _ _ _ _ Ew Ec) as Hno.
      destruct Hcase as [(_ & <- & ->) | [(_ & _ & Hr & ->) | (_ & Hp & _)]];
        [| | congruence].
      + split; [exact Hno |]. intros e ->.
        destruct (runCommands_error_rendered _ _ _ _ _ _ _ _ _ _ Ec) as [v Hv].
        exists v. apply in_or_app. right. exact Hv.
      + split; [exact Hno |]. intros e ->. discriminate Hr. }
  destruct Hmain as [Hno Herr].
  exists (EvTempDir (inl tmpd)
          :: [EvWriteFile (prepPath tmpd) (Join (PrepCommands s) newline) None;
              EvRender (prepPath tmpd) None;
              EvWriteFile (postPath tmpd) (Join (PostCommands s) newline) None]
          ++ tm), err.
  split; [cbn [app]; rewrite <- !app_assoc; reflexivity |]. split.
  - intros err' [Heq | [Heq | [Heq | [Heq | Hb]]]]; try discriminate Heq;
      [| exact (Hno _ Hb)].
    injection Heq as Heq _. exact (prepPath_not_post _ Heq).
  - intros e He. destruct (Herr e He) as [v Hv]. exists v.
    right. right. right. right. exact Hv.
Qed.

(** The files written for the commands are the scripts. *)
Lemma writeScripts_paths cmds tmpd : forall i scripts w r w' evs,
  writeScripts WriteFile tmpd i cmds scripts w = (r, w', evs) ->
  Forall (fun ev => exists j c err, ev = EvWriteFile (scriptPath tmpd j) c err) evs.
Proof.
  induction cmds as [| c rest IH]; intros i scripts w r w' evs H; simpl in H.
  - exec_ret H. constructor.
  - exec_step H err E. apply writeFile_inv in E as ->.
    constructor; [eauto |].
    destruct err as [e |]; [exec_ret H; constructor | exact (IH _ _ _ _ _ _ H)].
Qed.

Lemma runMain_writes sch s ctx rd env tmpd cmds w out w' evs path c err :
  runMain WriteFile sch s ctx rd env tmpd cmds w = (out, w', evs) ->
  In (EvWriteFile path c err) evs -> exists j, path = scriptPath tmpd j.
Proof.
  unfold runMain. intros H Hin. exec_step_as H written E tw tr.
  apply writeScripts_paths in E.
  apply in_app_or in Hin as [Hin | Hin].
  { apply (proj1 (List.Forall_forall _ _) E) in Hin as (j & c' & err' & Heq).
    injection Heq as -> _ _. eauto. }
  exfalso. destruct written as [scripts |]; [| exec_ret H; destruct Hin].
  exec_step_as H main E2 tm tp. apply runCommands_renders in E2.
  apply in_app_or in Hin as [Hin | Hin];
    [exact (render_not_write _ _ _ _ E2 Hin) |].
  destruct main as [[e |] |]; try (exec_ret H; destruct Hin).
  destruct (negb (PostAlways s)); [| exec_ret H; destruct Hin].
  exec_step H err0 E3. apply render_inv in E3 as ->. exec_ret H.
  destruct Hin as [Heq | []]. discriminate Heq.
Qed.

(** X27. When the write of [prep.sh] or of [post.sh] fails, [Execute]
    returns the error of the write, unlike for the scripts of the
    commands; no command is run, and the renderer has been called on
    nothing but [prep.sh], for a failed [post.sh]. *)
Theorem Execute_prep_post_write_failure sch s (ctx : option Context)
        (rd : option (RenderData World Context)) env w out w' evs tmpd path c e :
  Execute CanArtifact unicodeLower TempDir WriteFile RemoveAll sch s ctx rd env w = (out, w', evs) ->
  In (EvTempDir (inl tmpd)) evs ->
  In (EvWriteFile path c (Some e)) evs ->
  path = prepPath tmpd \/ path = postPath tmpd ->
  out = Returned (Some e)
  /\ forall script r,
      In (EvRender script r) evs ->
      script = prepPath tmpd /\ r = None /\ path = postPath tmpd.
Proof.
  intros H Hdir Hin Hpath.
  destruct (Execute_inv _ _ _ _ _ _ _ _ _ _ H Hdir)
    as (ctx' & rd' & cmds & w1 & w2 & ts & -> & -> & _ & _ & Es & Hevs).
  assert (Hts : In (EvWriteFile path c (Some e)) ts).
  { destruct Hevs as [(r & _ & ->) | [_ ->]].
    - destruct Hin as [Heq | Hin]; [discriminate Heq |].
      apply in_app_or in Hin as [Hin | [Heq | []]]; [exact Hin | discriminate Heq].
    - destruct Hin as [Heq | Hin]; [discriminate Heq | exact Hin]. }
  assert (Hstage : out = Returned (Some e)
                   /\ forall script r,
                       In (EvRender script r) ts ->
                       script = prepPath tmpd /\ r = None /\ path = postPath tmpd).
  { clear Hin Hdir H Hevs. unfold runStage in Es.
    exec_step Es e1 E. apply writeFile_inv in E as ->.
    destruct e1 as [e1 |].
    { exec_ret Es. destruct Hts as [Heq | []]. injection Heq as _ _ ->.
      split; [reflexivity |]. intros script r [Hr | []]. discriminate Hr. }
    destruct Hts as [Heq | Hts]; [discriminate Heq |].
    exec_step Es e2 E. apply render_inv in E as ->.
    destruct e2 as [e2 |]; [exec_ret Es; destruct Hts as [Heq | []]; discriminate Heq |].
    destruct Hts as [Heq | Hts]; [discriminate Heq |].
    exec_step Es e3 E. apply writeFile_inv in E as ->.
    destruct e3 as [e3 |].
    { exec_ret Es. destruct Hts as [Heq | []]. injection Heq as <- _ <-.
      split; [reflexivity |].
      intros script r [Hr | [Hr | [Hr | []]]]; try discriminate Hr.
      injection Hr as <- <-. auto. }
    exfalso. destruct Hts as [Heq | Hts]; [discriminate Heq |].
    exec_step_as Es main E tm tp. cbn [app] in Hts.
    apply in_app_or in Hts as [Hts | Hts].
    - destruct (runMain_writes _ _ _ _ _ _ _ _ _ _ _ _ _ _ E Hts) as [j Hj].
      destruct Hpath as [Hp | Hp]; rewrite Hp in Hj;
        [exact (prepPath_not_script _ _ Hj) | exact (postPath_not_script _ _ Hj)].
    - destruct (PostAlways s); [| exec_ret Es; destruct Hts].
      unfold deferred in Es. destruct main; [| exec_ret Es; destruct Hts].
      exec_step Es x E2. apply render_inv in E2 as ->. exec_ret Es.
      destruct Hts as [Heq | []]. discriminate Heq. }
  destruct Hstage as [-> Hr]. split; [reflexivity |].
  intros script r Hin'. apply Hr.
  destruct Hevs as [(r0 & _ & ->) | [Hb _]]; [| discriminate Hb].
  destruct Hin' as [Heq | Hin']; [discriminate Heq |].
  apply in_app_or in Hin' as [Hin' | [Heq | []]]; [exact Hin' | discriminate Heq].
Qed.

End ExecutorFacts.

Section ExecutorClaims.
Import GoLib Spec Examples.

Lemma inOrder_fair : fairSchedule inOrder.
Proof. repeat split; intros keys; apply merge_sort_Permutation. Qed.

Lemma backwards_fair : fairSchedule backwards.
Proof.
  repeat split; intros keys; simpl;
    rewrite <- Permutation_rev; apply merge_sort_Permutation.
Qed.

Lemma Execute_script_write_failure_witness :
  fst (fst (execute ["/tmp/stages1/script-1.sh"] [] inOrder (threeCommands false false)))
  = Returned None
  /\ forall j r,
      ~ In (EvRender (scriptPath "/tmp/stages1" j) r)
           (snd (execute ["/tmp/stages1/script-1.sh"] [] inOrder
                   (threeCommands false false))).
Proof.
  apply (Execute_script_write_failure noArtifact noCaseTables unit tmpStages
           (writeUnless ["/tmp/stages1/script-1.sh"]) removeQuietly unit
           inOrder (threeCommands false false) (Some tt)
           (Some (mkRenderData unit unit emptyJobSpec (failOn []))) [] tt
           _ tt _ "/tmp/stages1" 1%nat "b"
           "open /tmp/stages1/script-1.sh: no space left on device").
  - vm_compute. reflexivity.
  - vm_compute. auto.
  - vm_compute. auto 10.
Defined.

(** C4. With three scripts run concurrently, the error of the task
    whose result is queued last is lost: every script is rendered
    once, the third fails, and [Execute] returns [nil]. *)
Theorem Execute_concurrent_drops_error :
  fairSchedule inOrder
  /\ execute [] ["/tmp/stages1/script-2.sh"] inOrder (threeCommands true true)
     = (Returned None, tt,
        [EvTempDir (inl "/tmp/stages1");
         EvWriteFile "/tmp/stages1/prep.sh" "" None;
         EvRender "/tmp/stages1/prep.sh" None;
         EvWriteFile "/tmp/stages1/post.sh" "" None;
         EvWriteFile "/tmp/stages1/script-0.sh" "a" None;
         EvWriteFile "/tmp/stages1/script-1.sh" "b" None;
         EvWriteFile "/tmp/stages1/script-2.sh" "c" None;
         EvRender "/tmp/stages1/script-0.sh" None;
         EvRender "/tmp/stages1/script-1.sh" None;
         EvRender "/tmp/stages1/script-2.sh"
           (Some "exit status 1: /tmp/stages1/script-2.sh");
         EvRender "/tmp/stages1/post.sh" None;
         EvRemoveAll "/tmp/stages1"]).
Proof. split; [apply inOrder_fair | vm_compute; reflexivity]. Qed.

(** C5. The serial run follows the order in which the map range
    visits [scripts], not the order of insertion: in a run that visits
    every script once, the user command of a stage ([script-1.sh]) is
    rendered before the build of base ([script-0.sh]). *)
Theorem Execute_serial_follows_map_range :
  fairSchedule backwards
  /\ execute [] [] backwards baseThenCommand
     = (Returned None, tt,
        [EvTempDir (inl "/tmp/stages1");
         EvWriteFile "/tmp/stages1/prep.sh" "" None;
         EvRender "/tmp/stages1/prep.sh" None;
         EvWriteFile "/tmp/stages1/post.sh" "" None;
         EvWriteFile "/tmp/stages1/script-0.sh" "cosa fetch; cosa build;" None;
         EvWriteFile "/tmp/stages1/script-1.sh" "cosa upload" None;
         EvRender "/tmp/stages1/script-1.sh" None;
         EvRender "/tmp/stages1/script-0.sh" None;
         EvRender "/tmp/stages1/post.sh" None;
         EvRemoveAll "/tmp/stages1"]).
Proof. split; [apply backwards_fair | vm_compute; reflexivity]. Qed.

(** C6. With [PostAlways] false, [post.sh] can run although a main
    command failed: three scripts run concurrently, the one whose
    result is queued last fails, and [post.sh] is rendered all the
    same, its result being what [Execute] returns. *)
Theorem Execute_post_after_failed_command :
  fairSchedule backwards
  /\ PostAlways (threeCommands true false) = false
  /\ execute [] ["/tmp/stages1/script-0.sh"] backwards (threeCommands true false)
     = (Returned None, tt,
        [EvTempDir (inl "/tmp/stages1");
         EvWriteFile "/tmp/stages1/prep.sh" "" None;
         EvRender "/tmp/stages1/prep.sh" None;
         EvWriteFile "/tmp/stages1/post.sh" "" None;
         EvWriteFile "/tmp/stages1/script-0.sh" "a" None;
         EvWriteFile "/tmp/stages1/script-1.sh" "b" None;
         EvWriteFile "/tmp/stages1/script-2.sh" "c" None;
         EvRender "/tmp/stages1/script-2.sh" None;
         EvRender "/tmp/stages1/script-1.sh" None;
         EvRender "/tmp/stages1/script-0.sh"
           (Some "exit status 1: /tmp/stages1/script-0.sh");
         EvRender "/tmp/stages1/post.sh" None;
         EvRemoveAll "/tmp/stages1"]).
Proof.
  split; [apply backwards_fair |]. split; [reflexivity | vm_compute; reflexivity].
Qed.

End ExecutorClaims.

Section PlannerToExecutor.
Import GoLib Spec.

Variable CanArtifact : string -> bool.
Variable unicodeLower : string -> string.
Variable World : Type.
Variable Context : Type.

(** X13. The planner and the executor do not ask the catalogue the
    same questions: the stage that [GenerateStages] makes for a group
    has no commands of its own, and [getCommands] gives one command
    per build artifact of it, unless the group names live-iso, metal
    or metal4k and the catalogue does not know that name; the planner
    accepts these three without asking, and [getCommands] then fails
    on the stage. *)
Theorem GenerateStages_stage_commands (rt : nat -> MapRange Z)
        (fromNames : list string) (j j' : JobSpec) (rd : RenderData World Context) :
  (forall k, fairRange (rt k)) ->
  GenerateStages CanArtifact rt fromNames j = Some j' ->
  exists new,
    Stages j' = Stages j ++ new
    /\ Forall2 (fun group s =>
                  Commands s = []
                  /\ match getCommands CanArtifact unicodeLower s rd with
                     | inl cmds =>
                         cmds <> [] /\ length cmds = length (BuildArtifacts s)
                         /\ forall n, In n (Split group "+") ->
                                      In n ["live-iso"; "metal"; "metal4k"] ->
                                      CanArtifact n = true
                     | inr err =>
                         exists n, In n (Split group "+")
                                   /\ In n ["live-iso"; "metal"; "metal4k"]
                                   /\ CanArtifact n = false
                                   /\ err = n +:+ " is not a known buildable artifact"
                     end)
               fromNames new.
Proof.
  intros Hf H. destruct (GenerateStages_groups CanArtifact rt _ _ _ H) as (new & Hnew & Hall).
  exists new. split; [exact Hnew |].
  eapply Forall2_impl; [exact Hall |]. cbn beta.
  intros group s (k & k' & E).
  destruct (addShorthands_describes CanArtifact rt Hf _ _ _ _ _ zeroStage_planned
              (Z.le_refl 0) E) as (_ & Hb & _).
  destruct (addShorthands_commands CanArtifact rt _ _ _ _ _ E) as [Hc Hw].
  cbn [Commands BuildArtifacts zeroStage] in Hc, Hb.
  assert (Hbuild : forall a, In a (BuildArtifacts s) <-> In a (Split group "+")).
  { intros a. rewrite Hb. cbn [In]. tauto. }
  assert (Hknown : forall n, In n (Split group "+") -> CanArtifact n = false ->
                             n = "base" \/ n = "finalize"
                             \/ In n ["live-iso"; "metal"; "metal4k"]).
  { intros n Hn Hcan. destruct (Hw n Hn) as [w0 Hw0].
    destruct (string_dec n "base") as [-> | H1]; [auto |].
    destruct (string_dec n "finalize") as [-> | H2]; [auto |].
    destruct (string_dec n "live-iso") as [-> | H3]; [cbn; auto |].
    destruct (string_dec n "metal") as [-> | H4]; [cbn; auto |].
    destruct (string_dec n "metal4k") as [-> | H5]; [cbn; auto 6 |].
    exfalso.
    assert (Hnone : quickStage CanArtifact n n = None)
      by (apply quickStage_fatal; auto 10).
    congruence. }
  split; [exact Hc |]. unfold getCommands.
  pose proof (mapArtifacts_spec CanArtifact unicodeLower (BuildArtifacts s) (JobSpecOf _ _ rd)) as Hlay.
  destruct (mapArtifacts CanArtifact unicodeLower (BuildArtifacts s) (JobSpecOf _ _ rd))
    as [cmds | err].
  - rename Hlay into Hcmds. pose proof (Forall2_length _ _ _ Hcmds) as Hlen.
    symmetry in Hlen. rewrite Hc, app_nil_r.
    pose proof (Split_nonempty group "+") as Hne.
    split.
    { intros ->. destruct (Split group "+") as [| n rest]; [contradiction |].
      assert (Hin : In n (BuildArtifacts s)) by (apply Hbuild; left; reflexivity).
      cbn [length] in Hlen. destruct (BuildArtifacts s); [destruct Hin | discriminate]. }
    split; [exact Hlen |].
    intros n Hn Hthree. apply Hbuild in Hn.
    apply list_elem_of_In, list_elem_of_lookup in Hn as [i Hi].
    destruct (Forall2_lookup_l _ _ _ _ _ Hcmds Hi) as (c & _ & cs & Hcs & _).
    destruct (CanArtifact n) eqn:Hcan; [reflexivity |]. exfalso.
    unfold cosaBuildCmd in Hcs. rewrite Hcan in Hcs.
    destruct Hthree as [<- | [<- | [<- | []]]]; discriminate Hcs.
  - destruct Hlay as (pre & ba & post & Heq & _ & Hba).
    pose proof (cosaBuildCmd_cases CanArtifact unicodeLower ba (JobSpecOf _ _ rd)) as Hcase.
    rewrite Hba in Hcase. destruct Hcase as (-> & Hlb & Hlf & Hcan).
    assert (Hin : In ba (Split group "+")).
    { apply Hbuild. rewrite Heq. apply in_or_app. right. left. reflexivity. }
    exists ba. split; [exact Hin |]. split; [| auto].
    destruct (Hknown ba Hin Hcan) as [-> | [-> | Hthree]];
      [destruct (Hlb eq_refl) | destruct (Hlf eq_refl) | exact Hthree].
Qed.

End PlannerToExecutor.

Section ExecutorRuns.
Import GoLib Spec Examples.

Local Abbreviation quiet := (mkRenderData unit unit emptyJobSpec (failOn [])).

Lemma Execute_workspace_witness :
  let run := execute [] [] inOrder (threeCommands false false) in
  (snd run = [] /\ snd (fst run) = tt
   /\ ((Some tt = None /\ fst (fst run) = Returned (Some "context must not be nil"))
       \/ (Some tt <> None /\ Some quiet = None
           /\ fst (fst run) = Returned (Some "render data must not be nil"))
       \/ exists ctx' rd',
            Some tt = Some ctx' /\ Some quiet = Some rd'
            /\ ((exists err, getCommands noArtifact noCaseTables (threeCommands false false) rd'
                             = inr err
                             /\ fst (fst run) = Returned (Some err))
                \/ (getCommands noArtifact noCaseTables (threeCommands false false) rd' = inl []
                    /\ fst (fst run) = Returned (Some "no commands to execute")))))
  \/ (exists ctx' rd' cmds,
        Some tt = Some ctx' /\ Some quiet = Some rd'
        /\ getCommands noArtifact noCaseTables (threeCommands false false) rd' = inl cmds
        /\ cmds <> []
        /\ ((exists e, snd run = [EvTempDir (inr e)]
                       /\ fst (fst run) = Returned (Some e))
            \/ (exists tmpd mid,
                  Forall (fun ev => isWrite ev \/ isRender ev) mid
                  /\ ((exists r, fst (fst run) = Returned r
                                 /\ snd run = EvTempDir (inl tmpd)
                                              :: mid ++ [EvRemoveAll tmpd])
                      \/ (fst (fst run) = Blocked
                          /\ snd run = EvTempDir (inl tmpd) :: mid))))).
Proof.
  apply (Execute_workspace noArtifact noCaseTables unit tmpStages (writeUnless []) removeQuietly unit
           inOrder (threeCommands false false) (Some tt) (Some quiet) [] tt).
  vm_compute. reflexivity.
Defined.

Lemma Execute_prep_failure_witness :
  let run := execute [] ["/tmp/stages1/prep.sh"] inOrder (threeCommands false true) in
  fst (fst run)
  = Returned (Some ("Failed execution of the prep stage: "
                      +:+ "exit status 1: /tmp/stages1/prep.sh"))
  /\ snd run
     = [EvTempDir (inl "/tmp/stages1");
        EvWriteFile (prepPath "/tmp/stages1")
          (Join (PrepCommands (threeCommands false true)) newline) None;
        EvRender (prepPath "/tmp/stages1") (Some "exit status 1: /tmp/stages1/prep.sh");
        EvRemoveAll "/tmp/stages1"].
Proof.
  apply (Execute_prep_failure noArtifact noCaseTables unit tmpStages (writeUnless []) removeQuietly unit
           inOrder (threeCommands false true) (Some tt)
           (Some (mkRenderData unit unit emptyJobSpec (failOn ["/tmp/stages1/prep.sh"])))
           [] tt _ tt).
  - vm_compute. reflexivity.
  - vm_compute. auto.
  - vm_compute. auto.
Defined.

Lemma Execute_returns_witness :
  exists err,
    fst (fst (execute [] ["/tmp/stages1/script-2.sh"] backwards (threeCommands true true)))
    = Returned err.
Proof.
  apply (Execute_returns noArtifact noCaseTables unit tmpStages (writeUnless []) removeQuietly unit
           backwards (threeCommands true true) (Some tt)
           (Some (mkRenderData unit unit emptyJobSpec
                    (failOn ["/tmp/stages1/script-2.sh"])))
           [] tt _ tt (snd (execute [] ["/tmp/stages1/script-2.sh"] backwards
                              (threeCommands true true)))).
  - exact backwards_fair.
  - vm_compute. reflexivity.
Defined.

Lemma Execute_post_result_witness :
  let run := execute [] ["/tmp/stages1/post.sh"] inOrder (threeCommands false false) in
  fst (fst run) = Returned (Some "exit status 1: /tmp/stages1/post.sh")
  /\ exists front,
      snd run
      = front ++ [EvRender (postPath "/tmp/stages1")
                    (Some "exit status 1: /tmp/stages1/post.sh");
                  EvRemoveAll "/tmp/stages1"]
      /\ (forall err', ~ In (EvRender (postPath "/tmp/stages1") err') front)
      /\ (ConcurrentExecution (threeCommands false false) = false ->
          forall v e, ~ In (EvRender v (Some e)) front).
Proof.
  apply (Execute_post_result noArtifact noCaseTables unit tmpStages (writeUnless []) removeQuietly unit
           inOrder (threeCommands false false) (Some tt)
           (Some (mkRenderData unit unit emptyJobSpec (failOn ["/tmp/stages1/post.sh"])))
           [] tt _ tt).
  - reflexivity.
  - vm_compute. reflexivity.
  - vm_compute. auto.
  - vm_compute. auto 20.
Defined.

Lemma Execute_post_always_witness :
  exists front err,
    snd (execute [] ["/tmp/stages1/script-1.sh"; "/tmp/stages1/post.sh"] inOrder
           (threeCommands false true))
    = front ++ [EvRender (postPath "/tmp/stages1") err; EvRemoveAll "/tmp/stages1"]
    /\ (forall err', ~ In (EvRender (postPath "/tmp/stages1") err') front)
    /\ (forall e, Some "exit status 1: /tmp/stages1/script-1.sh" = Some e ->
                  exists v, In (EvRender v (Some e)) front).
Proof.
  apply (Execute_post_always noArtifact noCaseTables unit tmpStages (writeUnless []) removeQuietly unit
           inOrder (threeCommands false true) (Some tt)
           (Some (mkRenderData unit unit emptyJobSpec
                    (failOn ["/tmp/stages1/script-1.sh"; "/tmp/stages1/post.sh"])))
           [] tt _ tt _ _ "").
  - reflexivity.
  - vm_compute. reflexivity.
  - vm_compute. auto.
  - vm_compute. auto 20.
Defined.

Lemma runCommands_concurrent_outcome_witness :
  let scripts : gmap nat string := {[ 0%nat := "s0"; 1%nat := "s1"; 2%nat := "s2" ]} in
  let run := runCommands backwards (threeCommands true false) tt
               (mkRenderData unit unit emptyJobSpec (failOn ["s0"])) [] scripts tt in
  exists answer : nat -> option error,
    snd run
    = map (fun iv => EvRender (snd iv) (answer (fst iv)))
          (omap (fun i => (fun v => (i, v)) <$> scripts !! i)
                (calls backwards (map fst (rangeScripts (visits backwards) scripts))))
    /\ Permutation
         (omap (fun i => (fun v => (i, v)) <$> scripts !! i)
               (calls backwards (map fst (rangeScripts (visits backwards) scripts))))
         (map_to_list scripts)
    /\ Permutation (sends backwards (map fst (rangeScripts (visits backwards) scripts)))
                   (map fst (map_to_list scripts))
    /\ fst (fst run)
       = Returned
           (foldl latest None
              (take (size scripts / 2 + 1)
                 (map answer
                    (sends backwards
                       (map fst (rangeScripts (visits backwards) scripts)))))).
Proof.
  apply (runCommands_concurrent_outcome unit unit backwards (threeCommands true false) tt
           (mkRenderData unit unit emptyJobSpec (failOn ["s0"])) []
           {[ 0%nat := "s0"; 1%nat := "s1"; 2%nat := "s2" ]} tt _ tt).
  - reflexivity.
  - exact backwards_fair.
  - intros H. apply (f_equal (fun m : gmap nat string => m !! 0%nat)) in H.
    vm_compute in H. discriminate H.
  - vm_compute. reflexivity.
Defined.

Lemma runCommands_serial_witness :
  let scripts : gmap nat string := {[ 0%nat := "s0"; 1%nat := "s1"; 2%nat := "s2" ]} in
  let run := runCommands backwards (threeCommands false false) tt
               (mkRenderData unit unit emptyJobSpec (failOn ["s1"])) [] scripts tt in
  exists vs,
    Permutation vs (map snd (map_to_list scripts))
    /\ ((fst (fst run) = Returned None
         /\ snd run = map (fun v => EvRender v None) vs)
        \/ (exists k v e,
               vs !! k = Some v /\ fst (fst run) = Returned (Some e)
               /\ snd run = map (fun v => EvRender v None) (take k vs)
                              ++ [EvRender v (Some e)])).
Proof.
  apply (runCommands_serial unit unit backwards (threeCommands false false) tt
           (mkRenderData unit unit emptyJobSpec (failOn ["s1"])) []
           {[ 0%nat := "s0"; 1%nat := "s1"; 2%nat := "s2" ]} tt _ tt).
  - reflexivity.
  - apply backwards_fair.
  - vm_compute. reflexivity.
Defined.

Lemma GenerateStages_stage_commands_witness :
  exists j' new,
    GenerateStages noArtifact lowestFirst ["base+metal"; "finalize"] emptyJobSpec = Some j'
    /\ Stages j' = Stages emptyJobSpec ++ new
    /\ Forall2 (fun group s =>
                  Commands s = []
                  /\ match getCommands noArtifact noCaseTables s quiet with
                     | inl cmds =>
                         cmds <> [] /\ length cmds = length (BuildArtifacts s)
                         /\ forall n, In n (Split group "+") ->
                                      In n ["live-iso"; "metal"; "metal4k"] ->
                                      noArtifact n = true
                     | inr err =>
                         exists n, In n (Split group "+")
                                   /\ In n ["live-iso"; "metal"; "metal4k"]
                                   /\ noArtifact n = false
                                   /\ err = n +:+ " is not a known buildable artifact"
                     end)
               ["base+metal"; "finalize"] new.
Proof.
  eexists.
  destruct (GenerateStages_stage_commands noArtifact noCaseTables unit unit lowestFirst
              ["base+metal"; "finalize"] emptyJobSpec _ quiet lowestFirst_fair eq_refl)
    as (new & Hnew & Hall).
  exists new. split; [reflexivity |]. split; [exact Hnew | exact Hall].
Defined.

Lemma Execute_prep_post_write_failure_witness :
  let run := execute ["/tmp/stages1/post.sh"] [] inOrder (threeCommands false true) in
  fst (fst run)
  = Returned (Some "open /tmp/stages1/post.sh: no space left on device")
  /\ forall script r,
      In (EvRender script r) (snd run) ->
      script = prepPath "/tmp/stages1" /\ r = None
      /\ "/tmp/stages1/post.sh" = postPath "/tmp/stages1".
Proof.
  apply (Execute_prep_post_write_failure noArtifact noCaseTables unit tmpStages
           (writeUnless ["/tmp/stages1/post.sh"]) removeQuietly unit
           inOrder (threeCommands false true) (Some tt)
           (Some (mkRenderData unit unit emptyJobSpec (failOn []))) [] tt _ tt _
           "/tmp/stages1" "/tmp/stages1/post.sh" "").
  - vm_compute. reflexivity.
  - vm_compute. auto.
  - vm_compute. auto 10.
  - right. reflexivity.
Defined.

End ExecutorRuns.

Section LookupFacts.
Import GoLib Spec.

Variable CanArtifact : string -> bool.
Variable Quote : string -> string.

Lemma rangeStages_spec (id : string) (stages : list Stage) :
  match rangeStages id stages with
  | Some s =>
      exists pre post,
        stages = pre ++ s :: post /\ ID s = id /\ Forall (fun p => ID p <> id) pre
  | None => Forall (fun p => ID p <> id) stages
  end.
Proof.
  induction stages as [| stage rest IH]; cbn [rangeStages]; [constructor |].
  destruct (String.eqb_spec (ID stage) id) as [He | Hne].
  - exists [], rest. split; [reflexivity |]. split; [exact He | constructor].
  - destruct (rangeStages id rest) as [s |].
    + destruct IH as (pre & post & -> & Hid & Hpre).
      exists (stage :: pre), post. split; [reflexivity |]. split; [exact Hid |].
      constructor; assumption.
    + constructor; assumption.
Qed.

(** X20. [GetStage] returns the first stage of the job that has the
    identifier, also when later stages have it too, and an error that
    quotes the identifier exactly when no stage has it. *)
Theorem GetStage_first_match (j : JobSpec) (id : string) :
  match GetStage Quote j id with
  | inl s =>
      exists pre post,
        Stages j = pre ++ s :: post /\ ID s = id /\ Forall (fun p => ID p <> id) pre
  | inr err =>
      Forall (fun p => ID p <> id) (Stages j)
      /\ err = "no such stage with ID " +:+ Quote id
  end.
Proof.
  unfold GetStage. pose proof (rangeStages_spec id (Stages j)) as H.
  destruct (rangeStages id (Stages j)) as [s |]; [exact H | auto].
Qed.

Lemma to_uint_nonnil (p : positive) : Pos.to_uint p <> Decimal.Nil.
Proof.
  intros H. apply (f_equal Pos.of_uint) in H. rewrite DecimalPos.Unsigned.of_to in H.
  discriminate H.
Qed.

Lemma Itoa_inj (a b : Z) : Itoa a = Itoa b -> a = b.
Proof.
  unfold Itoa. intros H. apply DecimalZ.to_int_inj.
  assert (Hn : forall z, Z.to_int z <> Decimal.Pos Decimal.Nil
                         /\ Z.to_int z <> Decimal.Neg Decimal.Nil).
  { intros [| p | p]; cbn; split; try discriminate;
      intros [= Hp]; exact (to_uint_nonnil _ Hp). }
  apply (f_equal NilZero.int_of_string) in H.
  rewrite !NilZero.isi in H by apply Hn. injection H as H. exact H.
Qed.

(** X21. The identifier of a generated stage tells its execution
    order and nothing else: on a job made by [GenerateStages] alone,
    [GetStage] with the identifier of one of its stages returns the
    first stage that has the same execution order, so a later stage
    of an order already taken cannot be looked up. *)
Theorem GetStage_generated (rt : nat -> MapRange Z) (fromNames : list string)
        (j j' : JobSpec) (s : Stage) :
  (forall k, fairRange (rt k)) ->
  Stages j = [] ->
  GenerateStages CanArtifact rt fromNames j = Some j' ->
  In s (Stages j') ->
  exists s0 pre post,
    GetStage Quote j' (ID s) = inl s0
    /\ Stages j' = pre ++ s0 :: post
    /\ ExecutionOrder s0 = ExecutionOrder s
    /\ Forall (fun p => ExecutionOrder p <> ExecutionOrder s) pre.
Proof.
  intros Hf Hj H Hin.
  destruct (GenerateStages_groups CanArtifact rt _ _ _ H) as (new & Hnew & Hall).
  rewrite Hj in Hnew. cbn [app] in Hnew.
  assert (Hid : forall p, In p (Stages j') ->
                  ID p = "Generated Stage in Execution Order "
                           +:+ Itoa (ExecutionOrder p)).
  { intros p Hp. rewrite Hnew in Hp.
    apply list_elem_of_In, list_elem_of_lookup in Hp as [i Hi].
    destruct (Forall2_lookup_r _ _ _ _ _ Hall Hi) as (g & _ & k & k' & E).
    destruct (addShorthands_describes CanArtifact rt Hf _ _ _ _ _ zeroStage_planned
                (Z.le_refl 0) E) as (_ & _ & _ & _ & _ & _ & HID).
    exact (proj2 (HID (Split_nonempty _ _))). }
  assert (Hsame : forall p q, In p (Stages j') -> In q (Stages j') ->
                    (ID p = ID q <-> ExecutionOrder p = ExecutionOrder q)).
  { intros p q Hp Hq. rewrite (Hid p Hp), (Hid q Hq). split.
    - intros He. apply append_cancel in He. exact (Itoa_inj _ _ He).
    - intros ->. reflexivity. }
  unfold GetStage. pose proof (rangeStages_spec (ID s) (Stages j')) as Hget.
  destruct (rangeStages (ID s) (Stages j')) as [s0 |].
  - destruct Hget as (pre & post & Hst & Hs0 & Hpre).
    exists s0, pre, post. split; [reflexivity |]. split; [exact Hst |].
    assert (Hin0 : In s0 (Stages j')).
    { rewrite Hst. apply in_or_app. right. left. reflexivity. }
    split; [apply (Hsame s0 s Hin0 Hin), Hs0 |].
    apply List.Forall_forall. intros p Hp Ho.
    assert (Hinp : In p (Stages j')) by (rewrite Hst; apply in_or_app; auto).
    apply (proj1 (List.Forall_forall _ _) Hpre p Hp).
    apply (Hsame p s Hinp Hin), Ho.
  - exfalso. exact (proj1 (List.Forall_forall _ _) Hget s Hin eq_refl).
Qed.

End LookupFacts.

Section LookupRuns.
Import GoLib Spec Examples.

Lemma GetStage_generated_witness :
  exists j' s s0 pre post,
    GenerateStages noArtifact lowestFirst ["metal"; "metal4k"] emptyJobSpec = Some j'
    /\ Stages j' !! 1%nat = Some s
    /\ BuildArtifacts s = ["metal4k"]
    /\ BuildArtifacts s0 = ["metal"]
    /\ GetStage plainQuote j' (ID s) = inl s0
    /\ Stages j' = pre ++ s0 :: post
    /\ ExecutionOrder s0 = ExecutionOrder s
    /\ Forall (fun p => ExecutionOrder p <> ExecutionOrder s) pre.
Proof.
  pose (j' := default emptyJobSpec
                (GenerateStages noArtifact lowestFirst ["metal"; "metal4k"] emptyJobSpec)).
  pose (s := default zeroStage (Stages j' !! 1%nat)).
  assert (E : GenerateStages noArtifact lowestFirst ["metal"; "metal4k"] emptyJobSpec
              = Some j') by (vm_compute; reflexivity).
  assert (Hs : Stages j' !! 1%nat = Some s) by (vm_compute; reflexivity).
  destruct (GetStage_generated noArtifact plainQuote lowestFirst ["metal"; "metal4k"]
              emptyJobSpec j' s lowestFirst_fair eq_refl E
              (proj1 (list_elem_of_In _ _) (list_elem_of_lookup_2 _ _ _ Hs)))
    as (s0 & pre & post & H1 & H2 & H3 & H4).
  exists j', s, s0, pre, post.
  split; [exact E |]. split; [exact Hs |]. split; [vm_compute; reflexivity |].
  split; [| auto].
  vm_compute in H1. injection H1 as <-. reflexivity.
Defined.

End LookupRuns.

Section RunnerClaims.
Import GoLib Ocp Examples.

Lemma watchLoop_waiting c pre evs :
  Forall waiting pre -> snd (watchLoop c (pre ++ evs)) = snd (watchLoop c evs).
Proof.
  induction 1 as [| ev pre Hev _ IH]; [reflexivity |].
  destruct Hev as [-> | [-> | ->]]; simpl; try exact IH.
  destruct (watchLoop c (pre ++ evs)), (watchLoop c evs). exact IH.
Qed.

Lemma clusterRunner_watching c evs :
  getClient c = None -> create c = None -> watch c = None ->
  snd (clusterRunner c evs) = snd (watchLoop c evs).
Proof.
  unfold clusterRunner. intros -> -> ->. destruct (watchLoop c evs). reflexivity.
Qed.

(** C7. Once the pod is created and watched, the runner goes on as
    long as the pod is pending, running or unknown, and what it
    returns is settled by the first event that is none of these: it
    returns [nil] exactly when that event shows the pod succeeded or
    is the end of the context; a failed pod, the end of the watch and
    the timeout give an error; a signal gives the error "Termination
    requested", which no other ending gives. *)
Theorem clusterRunner_verdict (c : Cluster) (pre post : list Ready) (t : Ready) :
  getClient c = None -> create c = None -> watch c = None ->
  Forall waiting pre -> ~ waiting t ->
  let r := snd (clusterRunner c (pre ++ t :: post)) in
  (r = Returns None <-> t = WatchPod PodSucceeded \/ t = Done)
  /\ (forall phase, t = WatchPod phase ->
        (r = Returns None <-> phase = PodSucceeded)
        /\ (phase <> PodSucceeded -> exists e, r = Returns (Some e)))
  /\ (t = WatchClosed \/ t = Timeout -> exists e, r = Returns (Some e))
  /\ (t = Done -> r = Returns None)
  /\ (r = Returns (Some errTermination) <-> t = Signal).
Proof.
  intros Hc Hp Hw Hpre Ht r. subst r.
  rewrite (clusterRunner_watching c _ Hc Hp Hw), (watchLoop_waiting c _ _ Hpre).
  assert (Hphase : forall phase, t = WatchPod phase ->
                     phase = PodSucceeded \/ phase = PodFailed).
  { intros [] ->; auto; exfalso; apply Ht; unfold waiting; auto. }
  destruct t as [phase | | | | |].
  - destruct (Hphase phase eq_refl) as [-> | ->]; simpl.
    + split; [split; auto |]. split.
      { intros phase [= <-]. split; [split; auto |]. intros H. destruct H. reflexivity. }
      split; [intros [H | H]; discriminate H |].
      split; [discriminate |]. split; discriminate.
    + split; [split; [discriminate | intros [H | H]; discriminate H] |]. split.
      { intros phase [= <-]. split; [split; discriminate | eauto]. }
      split; [intros [H | H]; discriminate H |].
      split; [discriminate |]. split; discriminate.
  - simpl. split; [split; [discriminate | intros [H | H]; discriminate H] |].
    split; [discriminate |]. split; [intros [H | H]; discriminate H |].
    split; [discriminate |]. split; discriminate.
  - simpl. split; [split; [discriminate | intros [H | H]; discriminate H] |].
    split; [discriminate |]. split; [eauto |].
    split; [discriminate |]. split; discriminate.
  - simpl. split; [split; [discriminate | intros [H | H]; discriminate H] |].
    split; [discriminate |]. split; [eauto |].
    split; [discriminate |]. split; discriminate.
  - simpl. split; [split; [discriminate | intros [H | H]; discriminate H] |].
    split; [discriminate |]. split; [intros [H | H]; discriminate H |].
    split; [discriminate |]. split; auto.
  - simpl. split; [split; auto |].
    split; [discriminate |]. split; [intros [H | H]; discriminate H |].
    split; [auto |]. split; discriminate.
Qed.

Lemma clusterRunner_verdict_witness :
  let r := snd (clusterRunner cluster
                  ([WatchPod PodPending; WatchPod PodRunning]
                     ++ WatchPod PodSucceeded :: [])) in
  (r = Returns None <-> WatchPod PodSucceeded = WatchPod PodSucceeded
                        \/ WatchPod PodSucceeded = Done)
  /\ (forall phase, WatchPod PodSucceeded = WatchPod phase ->
        (r = Returns None <-> phase = PodSucceeded)
        /\ (phase <> PodSucceeded -> exists e, r = Returns (Some e)))
  /\ (WatchPod PodSucceeded = WatchClosed \/ WatchPod PodSucceeded = Timeout ->
      exists e, r = Returns (Some e))
  /\ (WatchPod PodSucceeded = Done -> r = Returns None)
  /\ (r = Returns (Some errTermination) <-> WatchPod PodSucceeded = Signal).
Proof.
  apply (clusterRunner_verdict cluster
           [WatchPod PodPending; WatchPod PodRunning] [] (WatchPod PodSucceeded));
    try reflexivity.
  - constructor; [left; reflexivity |].
    constructor; [right; left; reflexivity | constructor].
  - unfold waiting. intros [H | [H | H]]; discriminate H.
Defined.

End RunnerClaims.

Section RunnerFacts.
Import GoLib Ocp.

(** X22. Once the pod is created and watched, every way out of
    [clusterRunner] deletes the pod and then stops the watch, as the
    last two things done; on a signal the pod is deleted a first time
    before that, and on no other ending.  When the client, the
    creation or the watch fails nothing is deleted and no watch is
    stopped: a pod created before a failed watch is left behind. *)
Theorem clusterRunner_cleanup (c : Cluster) (evs : list Ready) :
  let acts := fst (clusterRunner c evs) in
  let r := snd (clusterRunner c evs) in
  (getClient c = None /\ create c = None /\ watch c = None ->
   (r = Waits -> ~ In DeletePod acts /\ ~ In StopWatch acts)
   /\ (r <> Waits ->
       exists mid,
         acts = [CreatePod; OpenWatch] ++ mid ++ [DeletePod; StopWatch]
         /\ ~ In StopWatch mid
         /\ (In DeletePod mid <-> r = Returns (Some errTermination))))
  /\ (getClient c <> None \/ create c <> None \/ watch c <> None ->
      ~ In DeletePod acts /\ ~ In StopWatch acts
      /\ exists e, r = Returns (Some e))
  /\ (getClient c = None -> create c = None -> watch c <> None ->
      acts = [CreatePod; OpenWatch]).
Proof.
  assert (Hloop : forall l,
            let acts := fst (watchLoop c l) in
            let r := snd (watchLoop c l) in
            ~ In StopWatch acts /\ ~ In CreatePod acts /\ ~ In OpenWatch acts
            /\ (In DeletePod acts <-> r = Returns (Some errTermination))).
  { induction l as [| ev l IH]; cbn.
    - repeat split; try tauto; try discriminate.
    - assert (Hs : forall names a, (forall n, a <> StreamPodLogs n) ->
                                   ~ In a (map StreamPodLogs names)).
      { intros names a Ha Hin. apply in_map_iff in Hin as (n & Hn & _).
        exact (Ha n (eq_sym Hn)). }
      destruct ev as [[] | | | | |]; cbn;
        try (destruct (watchLoop c l) as [acts r]; cbn in *);
        try (repeat split; first [tauto | discriminate
                                 | intros [H | H]; first [discriminate H | tauto]
                                 | intros H; discriminate H
                                 | auto]; fail).
      destruct IH as (I1 & I2 & I3 & I4).
      repeat split.
      + intros H. apply in_app_or in H as [H | H]; [| tauto].
        revert H. apply Hs. discriminate.
      + intros H. apply in_app_or in H as [H | H]; [| tauto].
        revert H. apply Hs. discriminate.
      + intros H. apply in_app_or in H as [H | H]; [| tauto].
        revert H. apply Hs. discriminate.
      + intros H. apply in_app_or in H as [H | H]; [| tauto].
        exfalso. revert H. apply Hs. discriminate.
      + intros H. apply in_or_app. right. tauto. }
  cbv zeta. unfold clusterRunner.
  destruct (getClient c) as [e1 |]; [| destruct (create c) as [e2 |];
                                       [| destruct (watch c) as [e3 |]]]; cbn [fst snd].
  - split; [intros (H & _); discriminate H |].
    split; [intros _; split; [tauto | split; [tauto | eauto]] |].
    intros H; discriminate H.
  - split; [intros (_ & H & _); discriminate H |].
    split.
    + intros _. split; [intros [H | []]; discriminate H |].
      split; [intros [H | []]; discriminate H | eauto].
    + intros _ H; discriminate H.
  - split; [intros (_ & _ & H); discriminate H |].
    split.
    + intros _. split; [intros [H | [H | []]]; discriminate H |].
      split; [intros [H | [H | []]]; discriminate H | eauto].
    + intros _ _ _. reflexivity.
  - specialize (Hloop evs). cbv zeta in Hloop.
    destruct (watchLoop c evs) as [acts r]. cbn [fst snd] in *.
    destruct Hloop as (I1 & I2 & I3 & I4).
    split; [| split; [intros [H | [H | H]]; destruct (H eq_refl)
                     | intros _ _ H; destruct (H eq_refl)]].
    intros _. split.
    + intros ->. cbn [leave]. rewrite app_nil_r. cbn [app].
      split.
      * intros [H | [H | H]]; [discriminate H | discriminate H |].
        apply I4 in H. discriminate H.
      * intros [H | [H | H]]; [discriminate H | discriminate H | tauto].
    + intros Hr. exists acts. split; [| split; [exact I1 | exact I4]].
      destruct r; [reflexivity | reflexivity | contradiction].
Qed.

Lemma watchLoop_ends (c : Cluster) (t : Ready) (post : list Ready) :
  ~ waiting t -> watchLoop c (t :: post) = watchLoop c [t].
Proof.
  intros Ht. destruct t as [[] | | | | |]; try reflexivity;
    exfalso; apply Ht; unfold waiting; auto.
Qed.

Lemma watchLoop_streams (c : Cluster) (pre rest : list Ready) :
  Forall waiting pre ->
  fst (watchLoop c (pre ++ rest))
  = concat (map (fun ev => match ev with
                           | WatchPod PodRunning =>
                               map StreamPodLogs (initContainers c ++ containers c)
                           | _ => []
                           end) pre)
    ++ fst (watchLoop c rest).
Proof.
  induction 1 as [| ev pre Hev _ IH]; [reflexivity |].
  destruct Hev as [-> | [-> | ->]]; cbn [app map concat watchLoop]; try exact IH.
  destruct (watchLoop c (pre ++ rest)) as [acts r]. cbn [fst] in *.
  rewrite IH, app_assoc. reflexivity.
Qed.

(** X23. The runner asks for the logs of every init container and of
    every container, in this order, at every event that shows the pod
    running, again and again; and it reads no event after the one that
    ends it. *)
Theorem clusterRunner_streams (c : Cluster) (pre post : list Ready) (t : Ready) :
  getClient c = None -> create c = None -> watch c = None ->
  Forall waiting pre -> ~ waiting t ->
  clusterRunner c (pre ++ t :: post) = clusterRunner c (pre ++ [t])
  /\ omap (fun a => match a with StreamPodLogs n => Some n | _ => None end)
          (fst (clusterRunner c (pre ++ t :: post)))
     = concat (map (fun ev => match ev with
                              | WatchPod PodRunning => initContainers c ++ containers c
                              | _ => []
                              end) pre).
Proof.
  intros Hc Hp Hw Hpre Ht.
  assert (Hsame : watchLoop c (pre ++ t :: post) = watchLoop c (pre ++ [t])).
  { clear -Hpre Ht. induction Hpre as [| ev pre Hev _ IH];
      [exact (watchLoop_ends c t post Ht) |].
    destruct Hev as [-> | [-> | ->]]; cbn [app watchLoop]; try exact IH.
    rewrite IH. reflexivity. }
  unfold clusterRunner. rewrite Hc, Hp, Hw, Hsame. split; [reflexivity |].
  pose proof (watchLoop_streams c pre [t] Hpre) as Hacts.
  destruct (watchLoop c (pre ++ [t])) as [acts r] eqn:E. cbn [fst] in *.
  rewrite Hacts. cbn [app omap list_omap].
  assert (Hend : omap (fun a => match a with StreamPodLogs n => Some n | _ => None end)
                      (fst (watchLoop c [t]) ++ leave r) = []).
  { assert (Hl : omap (fun a => match a with StreamPodLogs n => Some n | _ => None end)
                      (leave r) = []) by (destruct r; reflexivity).
    rewrite omap_app, Hl, app_nil_r.
    destruct t as [[] | | | | |]; try reflexivity;
      exfalso; apply Ht; unfold waiting; auto. }
  rewrite <- app_assoc, omap_app, Hend, app_nil_r. clear.
  assert (Hnames : forall l : list string,
            omap (fun a => match a with StreamPodLogs n => Some n | _ => None end)
                 (map StreamPodLogs l) = l).
  { induction l as [| n l IHl]; [reflexivity |]. cbn. f_equal. exact IHl. }
  induction pre as [| ev pre IH]; [reflexivity |].
  cbn [map concat]. rewrite omap_app, IH. f_equal.
  destruct ev as [[] | | | | |]; try reflexivity. apply Hnames.
Qed.

Lemma ptrBool_fresh (fl : flags) (b : bool) :
  fl !! snd (ptrBool fl b) = None
  /\ fst (ptrBool fl b) !! snd (ptrBool fl b) = Some b
  /\ forall p, p ∈ dom fl -> fst (ptrBool fl b) !! p = fl !! p.
Proof.
  unfold ptrBool. cbn [fst snd].
  assert (Hf : fresh (dom fl) ∉ dom fl) by apply is_fresh.
  split; [apply not_elem_of_dom, Hf |].
  split; [apply lookup_insert_eq |].
  intros p Hp. apply lookup_insert_ne. intros <-. exact (Hf Hp).
Qed.

(** X24. A flag is used once.  A call of [streamPodLogs] through a
    flag that is false sets it before anything else and asks for the
    log stream; the flag stays set when the call fails, and when the
    task that copies the stream ends, since that task resets a
    variable of its own.  Every later call through the flag returns
    [nil] and does nothing. *)
Theorem streamPodLogs_once (env env' : LogEnv) (pod container : string)
        (fl : flags) (p : positive) :
  logClient env = None -> logClient env' = None -> fl !! p = Some false ->
  exists acts r,
    streamPodLogs env pod fl (Some p) container
    = (<[p := true]> fl, GetLogs container :: acts, LogReturns r)
    /\ (In (Follow container p) acts
        <-> stream env = None /\ mkdirAll env = None /\ openFile env = None)
    /\ (r = None <-> In (Follow container p) acts)
    /\ streamPodLogs env' pod (<[p := true]> fl) (Some p) container
       = (<[p := true]> fl, [], LogReturns None)
    /\ streamPodLogs env' pod (fst (followEnd (<[p := true]> fl) p)) (Some p) container
       = (fst (followEnd (<[p := true]> fl) p), [], LogReturns None).
Proof.
  intros Hc Hc' Hp.
  assert (Hagain : forall fl', fl' !! p = Some true ->
            streamPodLogs env' pod fl' (Some p) container = (fl', [], LogReturns None)).
  { intros fl' H. unfold streamPodLogs. rewrite Hc', H. reflexivity. }
  assert (Hset : <[p := true]> fl !! p = Some true) by apply lookup_insert_eq.
  assert (Hend : fst (followEnd (<[p := true]> fl) p) !! p = Some true).
  { unfold followEnd.
    rewrite (proj2 (proj2 (ptrBool_fresh (<[p := true]> fl) false)) p);
      [exact Hset |]. apply elem_of_dom. eauto. }
  unfold streamPodLogs at 1. rewrite Hc, Hp. cbn [default].
  destruct (stream env) as [e1 |]; [| destruct (mkdirAll env) as [e2 |];
                                      [| destruct (openFile env) as [e3 |]]];
    eexists _, _; (split; [reflexivity |]);
    (split; [| split; [| split; [exact (Hagain _ Hset) | exact (Hagain _ Hend)]]]).
  - split; [intros [] | intros (H & _); discriminate H].
  - split; [discriminate | intros []].
  - split; [intros [H | []]; discriminate H | intros (_ & H & _); discriminate H].
  - split; [discriminate | intros [H | []]; discriminate H].
  - split; [intros [H | [H | []]]; discriminate H | intros (_ & _ & H); discriminate H].
  - split; [discriminate | intros [H | [H | []]]; discriminate H].
  - split; [auto | intros _; right; right; left; reflexivity].
  - split; [intros _; right; right; left; reflexivity | reflexivity].
Qed.

Lemma streamPodLogs_fresh (env : LogEnv) (pod container : string) (fl : flags)
      (p : positive) :
  logClient env = None -> fl !! p = Some false ->
  exists fl' acts r,
    streamPodLogs env pod fl (Some p) container
    = (fl', GetLogs container :: acts, LogReturns r)
    /\ omap (fun a => match a with GetLogs n => Some n | _ => None end) acts = [].
Proof.
  intros Hc Hp. unfold streamPodLogs. rewrite Hc, Hp. cbn [default].
  destruct (stream env); [| destruct (mkdirAll env); [| destruct (openFile env)]];
    eexists _, _, _; split; reflexivity.
Qed.

Lemma streamAll_restarts (env : nat -> LogEnv) (pod : string) (names : list string) :
  (forall k, logClient (env k) = None) ->
  forall st, exists st' acts,
    streamAll env pod names st = (st', acts, false)
    /\ omap (fun a => match a with GetLogs n => Some n | _ => None end) acts = names
    /\ callsMade st' = (callsMade st + length names)%nat.
Proof.
  intros Hc. induction names as [| name rest IH]; intros st; cbn [streamAll].
  - exists st, []. split; [reflexivity |]. split; [reflexivity | cbn; lia].
  - destruct (ptrBool (cells st) false) as [fl p] eqn:Ep.
    pose proof (ptrBool_fresh (cells st) false) as (_ & Hnew & _).
    rewrite Ep in Hnew. cbn [fst snd] in Hnew.
    rewrite lookup_insert_eq.
    destruct (streamPodLogs_fresh (env (callsMade st)) pod name fl p (Hc _) Hnew)
      as (fl' & acts & r & -> & Hacts).
    destruct (IH (mkLogState fl' (<[name := p]> (logStarted st)) (S (callsMade st))))
      as (st' & acts' & -> & Hacts' & Hcalls).
    eexists _, _. split; [reflexivity |]. split.
    + cbn [app omap list_omap]. rewrite omap_app, Hacts, Hacts'. reflexivity.
    + rewrite Hcalls. cbn [callsMade length]. lia.
Qed.

(** X25. The flags do not stop the runner from asking twice: at an
    event that shows the pod running, whatever the earlier events
    left in [logStarted], every container gets a new flag and its log
    stream is asked for again, once, in the order of the containers;
    no call panics. *)
Theorem streamRunning_restarts (env : nat -> LogEnv) (c : Cluster) (st : LogState) :
  (forall k, logClient (env k) = None) ->
  exists st' acts,
    streamRunning env c st = (st', acts, false)
    /\ omap (fun a => match a with GetLogs n => Some n | _ => None end) acts
       = initContainers c ++ containers c
    /\ callsMade st'
       = (callsMade st + length (initContainers c ++ containers c))%nat.
Proof.
  intros Hc. exact (streamAll_restarts env (podName c) _ Hc st).
Qed.

Lemma foldl_env (envVars : list EnvVar) : forall (m : gmap string string) n,
  foldl (fun mapEnvVars v => <[Name v := Value v]> mapEnvVars) m envVars !! n
  = match find (fun v => String.eqb (Name v) n) (rev envVars) with
    | Some v => Some (Value v)
    | None => m !! n
    end.
Proof.
  assert (Hfind : forall (l : list EnvVar) v n,
            find (fun v0 => String.eqb (Name v0) n) (l ++ [v])
            = match find (fun v0 => String.eqb (Name v0) n) l with
              | Some u => Some u
              | None => if String.eqb (Name v) n then Some v else None
              end).
  { induction l as [| u l IHl]; intros v n; cbn [app find].
    - destruct (String.eqb (Name v) n); reflexivity.
    - destruct (String.eqb (Name u) n); [reflexivity | apply IHl]. }
  induction envVars as [| v rest IH]; intros m n; [reflexivity |].
  cbn [foldl rev]. rewrite IH, Hfind. destruct (find _ (rev rest)) as [u |]; [reflexivity |].
  destruct (String.eqb_spec (Name v) n) as [<- | Hne].
  - apply lookup_insert_eq.
  - apply lookup_insert_ne. exact Hne.
Qed.

(** X26. In the environment that [podmanRunner] gives the container,
    [COSA_FORCE_NO_CLUSTER] is always 1, whatever the caller asked
    for; every other variable has the value of its last binding in
    the list of the caller, and no other variable is set. *)
Theorem podmanEnv_bindings (envVars : list EnvVar) (n : string) :
  podmanEnv envVars !! n
  = if String.eqb n localPodEnvVar then Some "1"
    else Value <$> find (fun v => String.eqb (Name v) n) (rev envVars).
Proof.
  unfold podmanEnv. rewrite foldl_env, rev_app_distr. cbn [rev app find Name].
  rewrite (String.eqb_sym localPodEnvVar n).
  destruct (String.eqb_spec n localPodEnvVar) as [-> | Hne]; [reflexivity |].
  destruct (find _ (rev envVars)) as [v |]; [reflexivity |].
  apply lookup_singleton_ne. congruence.
Qed.

End RunnerFacts.

Section RunnerRuns.
Import GoLib Ocp Examples.

Lemma clusterRunner_streams_witness :
  clusterRunner cluster
    ([WatchPod PodRunning; WatchPod PodPending; WatchPod PodRunning]
       ++ WatchPod PodSucceeded :: [Signal])
  = clusterRunner cluster
      ([WatchPod PodRunning; WatchPod PodPending; WatchPod PodRunning]
         ++ [WatchPod PodSucceeded])
  /\ omap (fun a => match a with StreamPodLogs n => Some n | _ => None end)
          (fst (clusterRunner cluster
                  ([WatchPod PodRunning; WatchPod PodPending; WatchPod PodRunning]
                     ++ WatchPod PodSucceeded :: [Signal])))
     = concat (map (fun ev => match ev with
                              | WatchPod PodRunning =>
                                  initContainers cluster ++ containers cluster
                              | _ => []
                              end)
                   [WatchPod PodRunning; WatchPod PodPending; WatchPod PodRunning]).
Proof.
  apply (clusterRunner_streams cluster
           [WatchPod PodRunning; WatchPod PodPending; WatchPod PodRunning]
           [Signal] (WatchPod PodSucceeded)); try reflexivity.
  - constructor; [right; left; reflexivity |].
    constructor; [left; reflexivity |].
    constructor; [right; left; reflexivity | constructor].
  - unfold waiting. intros [H | [H | H]]; discriminate H.
Defined.

Lemma streamPodLogs_once_witness :
  let fl : flags := {[ 1%positive := false ]} in
  exists acts r,
    streamPodLogs streamRefused "build-1-worker-0" fl (Some 1%positive) "init"
    = (<[1%positive := true]> fl, GetLogs "init" :: acts, LogReturns r)
    /\ (In (Follow "init" 1%positive) acts
        <-> stream streamRefused = None /\ mkdirAll streamRefused = None
            /\ openFile streamRefused = None)
    /\ (r = None <-> In (Follow "init" 1%positive) acts)
    /\ streamPodLogs logsFine "build-1-worker-0" (<[1%positive := true]> fl)
         (Some 1%positive) "init"
       = (<[1%positive := true]> fl, [], LogReturns None)
    /\ streamPodLogs logsFine "build-1-worker-0"
         (fst (followEnd (<[1%positive := true]> fl) 1%positive)) (Some 1%positive) "init"
       = (fst (followEnd (<[1%positive := true]> fl) 1%positive), [], LogReturns None).
Proof.
  apply (streamPodLogs_once streamRefused logsFine "build-1-worker-0" "init"
           {[ 1%positive := false ]} 1%positive); reflexivity.
Defined.

Lemma streamRunning_restarts_witness :
  let st := fst (fst (streamRunning (fun _ => logsFine) cluster (mkLogState ∅ ∅ 0))) in
  exists st' acts,
    streamRunning (fun _ => logsFine) cluster st = (st', acts, false)
    /\ omap (fun a => match a with GetLogs n => Some n | _ => None end) acts
       = initContainers cluster ++ containers cluster
    /\ callsMade st'
       = (callsMade st + length (initContainers cluster ++ containers cluster))%nat.
Proof.
  apply (streamRunning_restarts (fun _ => logsFine) cluster). reflexivity.
Defined.

End RunnerRuns.

Section MemoryFacts.
Import GoLib Mem.

Lemma decodeStrings_strings key (vs : list string) :
  Spec.decodeStrings key (map (fun x => Spec.JString (jsonText x)) vs)
  = (map jsonText vs, None).
Proof.
  induction vs as [| v vs IH]; [reflexivity |].
  cbn [map Spec.decodeStrings]. rewrite IH. reflexivity.
Qed.

(** Valid UTF-8 goes through JSON unchanged. *)
Lemma jsonText_valid_upto (n : nat) : forall s,
  (String.length s <= n)%nat -> ValidString s = true -> jsonText s = s.
Proof.
  induction n as [| n IH]; intros s Hlen Hv; destruct s as [| c0 s1];
    try reflexivity; [cbn in Hlen; lia |].
  cbn [String.length] in Hlen.
  cbn [ValidString jsonText] in *.
  destruct (runeWidth c0) as [| [| [| [| [| w]]]]]; try discriminate Hv.
  - f_equal. apply IH; [lia | exact Hv].
  - destruct s1 as [| c1 s2]; [discriminate Hv |]. cbn [String.length] in Hlen.
    destruct (acceptSecond c0 c1); [| discriminate Hv]. cbn [andb] in Hv.
    do 2 f_equal. apply IH; [lia | exact Hv].
  - destruct s1 as [| c1 [| c2 s3]]; try discriminate Hv. cbn [String.length] in Hlen.
    destruct (acceptSecond c0 c1 && continuation c2)%bool; [| discriminate Hv].
    cbn [andb] in Hv. do 3 f_equal. apply IH; [lia | exact Hv].
  - destruct s1 as [| c1 [| c2 [| c3 s4]]]; try discriminate Hv.
    cbn [String.length] in Hlen.
    destruct (acceptSecond c0 c1 && continuation c2 && continuation c3)%bool;
      [| discriminate Hv].
    cbn [andb] in Hv. do 4 f_equal. apply IH; [lia | exact Hv].
Qed.

Lemma jsonText_valid (s : string) : ValidString s = true -> jsonText s = s.
Proof. apply (jsonText_valid_upto (String.length s)). lia. Qed.

Lemma jsonText_all_valid (vs : list string) :
  (forall x, In x vs -> ValidString x = true) -> map jsonText vs = vs.
Proof.
  induction vs as [| v vs IH]; intros H; [reflexivity |].
  cbn [map]. rewrite (jsonText_valid v) by (apply H; left; reflexivity).
  f_equal. apply IH. intros x Hx. apply H. right. exact Hx.
Qed.

Lemma decodeMembers_app l1 l2 ns ns1 :
  Spec.decodeMembers l1 ns = (ns1, None) ->
  Spec.decodeMembers (l1 ++ l2) ns = Spec.decodeMembers l2 ns1.
Proof.
  revert ns ns1. induction l1 as [| [key v] l1 IH]; intros ns ns1 H; simpl in *.
  - injection H as <-. reflexivity.
  - destruct (Spec.decodeMember key v ns) as [nsa erra].
    destruct (Spec.decodeMembers l1 nsa) as [nsb errb] eqn:E.
    destruct erra; [discriminate H |]. injection H as <- ->.
    rewrite (IH _ _ E). destruct (Spec.decodeMembers l2 nsb). reflexivity.
Qed.

(** A member group read into a stage whose field is still zero. *)
Ltac decode_string :=
  intros; unfold Spec.memberString;
  match goal with |- context [String.eqb ?v ""] =>
    destruct (String.eqb_spec v ""); [subst |]; reflexivity end.

Ltac decode_bool :=
  intros; unfold Spec.memberBool;
  match goal with |- context [if ?b then _ else _] => destruct b; reflexivity end.

Ltac decode_int :=
  intros; unfold Spec.memberInt;
  match goal with |- context [(?v =? 0)%Z] =>
    destruct (Z.eqb_spec v 0); [subst |]; reflexivity end.

Ltac decode_strings v :=
  intros; unfold Spec.memberStrings; destruct v as [| x v]; [reflexivity |];
  unfold Spec.decodeMembers, Spec.decodeMember;
  cbn -[Spec.decodeStrings map]; rewrite decodeStrings_strings; reflexivity.

Lemma decode_description a c d e f g h i j k l v :
  Spec.decodeMembers (Spec.memberString "description" v)
    (Spec.mkStage a "" c d e f g h i j k l)
  = (Spec.mkStage a (jsonText v) c d e f g h i j k l, None).
Proof. decode_string. Qed.

Lemma decode_concurrent a b d e f g h i j k l v :
  Spec.decodeMembers (Spec.memberBool "concurrent" v)
    (Spec.mkStage a b false d e f g h i j k l)
  = (Spec.mkStage a b v d e f g h i j k l, None).
Proof. decode_bool. Qed.

Lemma decode_direct_exec a b c e f g h i j k l v :
  Spec.decodeMembers (Spec.memberBool "direct_exec" v)
    (Spec.mkStage a b c false e f g h i j k l)
  = (Spec.mkStage a b c v e f g h i j k l, None).
Proof. decode_bool. Qed.

Lemma decode_not_blocking a b c d f g h i j k l v :
  Spec.decodeMembers (Spec.memberBool "not_blocking" v)
    (Spec.mkStage a b c d false f g h i j k l)
  = (Spec.mkStage a b c d v f g h i j k l, None).
Proof. decode_bool. Qed.

Lemma decode_requires_artifacts a b c d e g h i j k l v :
  Spec.decodeMembers (Spec.memberStrings "requires_artifacts" v)
    (Spec.mkStage a b c d e [] g h i j k l)
  = (Spec.mkStage a b c d e (map jsonText v) g h i j k l, None).
Proof. decode_strings v. Qed.

Lemma decode_build_artifacts a b c d e f h i j k l v :
  Spec.decodeMembers (Spec.memberStrings "build_artifacts" v)
    (Spec.mkStage a b c d e f [] h i j k l)
  = (Spec.mkStage a b c d e f (map jsonText v) h i j k l, None).
Proof. decode_strings v. Qed.

Lemma decode_commands a b c d e f g i j k l v :
  Spec.decodeMembers (Spec.memberStrings "commands" v)
    (Spec.mkStage a b c d e f g [] i j k l)
  = (Spec.mkStage a b c d e f g (map jsonText v) i j k l, None).
Proof. decode_strings v. Qed.

Lemma decode_prep_commands a b c d e f g h j k l v :
  Spec.decodeMembers (Spec.memberStrings "prep_commands" v)
    (Spec.mkStage a b c d e f g h [] j k l)
  = (Spec.mkStage a b c d e f g h (map jsonText v) j k l, None).
Proof. decode_strings v. Qed.

Lemma decode_post_commands a b c d e f g h i k l v :
  Spec.decodeMembers (Spec.memberStrings "post_commands" v)
    (Spec.mkStage a b c d e f g h i [] k l)
  = (Spec.mkStage a b c d e f g h i (map jsonText v) k l, None).
Proof. decode_strings v. Qed.

Lemma decode_post_always a b c d e f g h i j l v :
  Spec.decodeMembers (Spec.memberBool "post_always" v)
    (Spec.mkStage a b c d e f g h i j false l)
  = (Spec.mkStage a b c d e f g h i j v l, None).
Proof. decode_bool. Qed.

Lemma decode_execution_order a b c d e f g h i j k v :
  Spec.decodeMembers (Spec.memberInt "execution_order" v)
    (Spec.mkStage a b c d e f g h i j k 0)
  = (Spec.mkStage a b c d e f g h i j k v, None).
Proof. decode_int. Qed.

(** Rendering a stage to JSON and reading it back gives the stage
    with its strings turned into text. *)
Lemma DeepCopy_value (s : Spec.Stage) :
  Spec.DeepCopy s
  = (Spec.mkStage (jsonText (Spec.ID s)) (jsonText (Spec.Description s))
       (Spec.ConcurrentExecution s) (Spec.DirectExec s) (Spec.NotBlocking s)
       (map jsonText (Spec.RequireArtifacts s)) (map jsonText (Spec.BuildArtifacts s))
       (map jsonText (Spec.Commands s)) (map jsonText (Spec.PrepCommands s))
       (map jsonText (Spec.PostCommands s))
       (Spec.PostAlways s) (Spec.ExecutionOrder s), None).
Proof.
  destruct s as [a b c d e f g h i j k l].
  unfold Spec.DeepCopy, Spec.Marshal, Spec.Unmarshal, Spec.zeroStage.
  cbn [Spec.ID Spec.Description Spec.ConcurrentExecution Spec.DirectExec
       Spec.NotBlocking Spec.RequireArtifacts Spec.BuildArtifacts Spec.Commands
       Spec.PrepCommands Spec.PostCommands Spec.PostAlways Spec.ExecutionOrder].
  rewrite (decodeMembers_app _ _ _
             (Spec.mkStage (jsonText a) "" false false false [] [] [] [] [] false 0))
    by reflexivity.
  rewrite (decodeMembers_app _ _ _ _ (decode_description _ _ _ _ _ _ _ _ _ _ _ _)).
  rewrite (decodeMembers_app _ _ _ _ (decode_concurrent _ _ _ _ _ _ _ _ _ _ _ _)).
  rewrite (decodeMembers_app _ _ _ _ (decode_direct_exec _ _ _ _ _ _ _ _ _ _ _ _)).
  rewrite (decodeMembers_app _ _ _ _ (decode_not_blocking _ _ _ _ _ _ _ _ _ _ _ _)).
  rewrite (decodeMembers_app _ _ _ _ (decode_requires_artifacts _ _ _ _ _ _ _ _ _ _ _ _)).
  rewrite (decodeMembers_app _ _ _ _ (decode_build_artifacts _ _ _ _ _ _ _ _ _ _ _ _)).
  rewrite (decodeMembers_app _ _ _ _ (decode_commands _ _ _ _ _ _ _ _ _ _ _ _)).
  rewrite (decodeMembers_app _ _ _ _ (decode_prep_commands _ _ _ _ _ _ _ _ _ _ _ _)).
  rewrite (decodeMembers_app _ _ _ _ (decode_post_commands _ _ _ _ _ _ _ _ _ _ _ _)).
  rewrite (decodeMembers_app _ _ _ _ (decode_post_always _ _ _ _ _ _ _ _ _ _ _ _)).
  apply decode_execution_order.
Qed.

Lemma extends_refl (h : heap) : extends h h.
Proof. intros l _. reflexivity. Qed.

Lemma extends_dom (h h' : heap) l : extends h h' -> l ∈ dom h -> l ∈ dom h'.
Proof.
  intros He Hl. apply elem_of_dom. rewrite (He l Hl). apply elem_of_dom. exact Hl.
Qed.

Lemma extends_trans (h1 h2 h3 : heap) :
  extends h1 h2 -> extends h2 h3 -> extends h1 h3.
Proof.
  intros H12 H23 l Hl. rewrite (H23 l (extends_dom _ _ _ H12 Hl)). apply H12, Hl.
Qed.

Lemma load_agree (h1 h2 : heap) (hd : header) :
  (forall l, array hd = Some l -> h2 !! l = h1 !! l) -> load h2 hd = load h1 hd.
Proof.
  unfold load. destruct (array hd) as [l |]; [| reflexivity].
  intros H. rewrite (H l eq_refl). reflexivity.
Qed.

(** A new array shows the sequence it was made for, lies outside the
    old heap, and leaves the old arrays as they were. *)
Lemma alloc_spec (h h1 : heap) (vs : list string) (hd : header) :
  alloc h vs = (h1, hd) ->
  load h1 hd = vs
  /\ extends h h1
  /\ (forall l, array hd = Some l -> (l ∉ dom h) /\ (l ∈ dom h1)).
Proof.
  unfold alloc. destruct vs as [| v vs].
  - intros [= <- <-]. split; [reflexivity |]. split; [apply extends_refl |].
    intros l H. discriminate H.
  - intros [= <- <-]. set (l := fresh (dom h)).
    assert (Hl : l ∉ dom h) by apply is_fresh.
    split; [| split].
    + unfold load. simpl. rewrite lookup_insert_eq. simpl.
      rewrite take_ge by reflexivity. reflexivity.
    + intros l' Hl'. apply lookup_insert_ne. intros ->. exact (Hl Hl').
    + intros l' [= <-]. split; [exact Hl |].
      apply elem_of_dom. rewrite lookup_insert_eq. eauto.
Qed.

Lemma alloc_later (h h1 h2 : heap) (vs : list string) (hd : header) :
  alloc h vs = (h1, hd) -> extends h1 h2 -> load h2 hd = vs.
Proof.
  intros Ha He. destruct (alloc_spec _ _ _ _ Ha) as (Hload & _ & Hfresh).
  rewrite <- Hload. apply load_agree. intros l Hl. apply He, (Hfresh l Hl).
Qed.

(** The copy laid out by [place] has the value it was given, in
    arrays of its own. *)
Lemma place_spec (h h' : heap) (v : Spec.Stage) (ns : StageObj) :
  place h v = (h', ns) ->
  valueOf h' ns = v
  /\ extends h h'
  /\ (forall f l, array (seqOf f ns) = Some l -> l ∉ dom h).
Proof.
  unfold place.
  destruct (alloc h (Spec.RequireArtifacts v)) as [h1 ra] eqn:E1.
  destruct (alloc h1 (Spec.BuildArtifacts v)) as [h2 ba] eqn:E2.
  destruct (alloc h2 (Spec.Commands v)) as [h3 cs] eqn:E3.
  destruct (alloc h3 (Spec.PrepCommands v)) as [h4 pre] eqn:E4.
  destruct (alloc h4 (Spec.PostCommands v)) as [h5 post] eqn:E5.
  intros [= <- <-].
  destruct (alloc_spec _ _ _ _ E1) as (_ & X1 & F1).
  destruct (alloc_spec _ _ _ _ E2) as (_ & X2 & F2).
  destruct (alloc_spec _ _ _ _ E3) as (_ & X3 & F3).
  destruct (alloc_spec _ _ _ _ E4) as (_ & X4 & F4).
  destruct (alloc_spec _ _ _ _ E5) as (_ & X5 & F5).
  pose proof (extends_trans _ _ _ X4 X5) as X45.
  pose proof (extends_trans _ _ _ X3 X45) as X35.
  pose proof (extends_trans _ _ _ X2 X35) as X25.
  pose proof (extends_trans _ _ _ X1 X25) as X15.
  split; [| split; [exact X15 |]].
  - unfold valueOf. cbn [RequireArtifacts BuildArtifacts Commands PrepCommands
                         PostCommands ID Description ConcurrentExecution DirectExec
                         NotBlocking PostAlways ExecutionOrder].
    rewrite (alloc_later _ _ _ _ _ E1 X25), (alloc_later _ _ _ _ _ E2 X35),
      (alloc_later _ _ _ _ _ E3 X45), (alloc_later _ _ _ _ _ E4 X5),
      (alloc_later _ _ _ _ _ E5 (extends_refl _)).
    destruct v. reflexivity.
  - intros f l Hl Hin. destruct f; cbn in Hl.
    + exact (proj1 (F1 l Hl) Hin).
    + apply (proj1 (F2 l Hl)), (extends_dom _ _ _ X1 Hin).
    + apply (proj1 (F3 l Hl)), (extends_dom _ _ _ (extends_trans _ _ _ X1 X2) Hin).
    + apply (proj1 (F4 l Hl)).
      apply (extends_dom _ _ _ (extends_trans _ _ _ X1 (extends_trans _ _ _ X2 X3)) Hin).
    + apply (proj1 (F5 l Hl)).
      apply (extends_dom _ _ _
               (extends_trans _ _ _ X1
                  (extends_trans _ _ _ X2 (extends_trans _ _ _ X3 X4))) Hin).
Qed.

(** A stage keeps its value in any heap that holds its arrays
    unchanged. *)
Lemma valueOf_agree (h h' : heap) (o : StageObj) :
  wellFormed h o -> extends h h' -> valueOf h' o = valueOf h o.
Proof.
  intros Hwf He. unfold valueOf.
  rewrite (load_agree h h' (RequireArtifacts o)),
    (load_agree h h' (BuildArtifacts o)), (load_agree h h' (Commands o)),
    (load_agree h h' (PrepCommands o)), (load_agree h h' (PostCommands o));
    [reflexivity | | | | |]; intros l Hl; apply He.
  - exact (Hwf FPostCommands l Hl).
  - exact (Hwf FPrepCommands l Hl).
  - exact (Hwf FCommands l Hl).
  - exact (Hwf FBuildArtifacts l Hl).
  - exact (Hwf FRequireArtifacts l Hl).
Qed.

(** A write through a header changes the array of that header
    only. *)
Lemma setIndex_frame (h h' : heap) (hd : header) (i : nat) (v : string) :
  setIndex h hd i v = Some h' ->
  exists l, array hd = Some l /\ forall l', l' <> l -> h' !! l' = h !! l'.
Proof.
  unfold setIndex. destruct (array hd) as [l |]; [| discriminate].
  destruct (i <? size hd)%nat; [| discriminate]. intros [= <-].
  exists l. split; [reflexivity |]. intros l' Hne. apply lookup_insert_ne. auto.
Qed.

(** C8, amended. [DeepCopy] of a stage returns, without error, a
    stage that has the value of the original with its strings turned
    into valid UTF-8 (every byte at which no valid sequence begins is
    replaced by U+FFFD), hence the value of the original when its
    strings are valid UTF-8; and a write through any of the five
    sequences of the copy leaves the value of the original as it was:
    the copy shares no array with it. *)
Theorem DeepCopy_equal_and_unshared (h : heap) (s : StageObj) :
  wellFormed h s ->
  exists h' ns,
    DeepCopy h s = (h', ns, None)
    /\ valueOf h' ns
       = Spec.mkStage (jsonText (ID s)) (jsonText (Description s))
           (ConcurrentExecution s) (DirectExec s) (NotBlocking s)
           (map jsonText (load h (RequireArtifacts s)))
           (map jsonText (load h (BuildArtifacts s)))
           (map jsonText (load h (Commands s)))
           (map jsonText (load h (PrepCommands s)))
           (map jsonText (load h (PostCommands s)))
           (PostAlways s) (ExecutionOrder s)
    /\ (ValidString (ID s) = true ->
        ValidString (Description s) = true ->
        (forall f x, In x (load h (seqOf f s)) -> ValidString x = true) ->
        valueOf h' ns = valueOf h s)
    /\ valueOf h' s = valueOf h s
    /\ forall f i v h'',
        setIndex h' (seqOf f ns) i v = Some h'' -> valueOf h'' s = valueOf h s.
Proof.
  intros Hwf. unfold DeepCopy. rewrite DeepCopy_value.
  destruct (place h _) as [h' ns] eqn:E.
  destruct (place_spec _ _ _ _ E) as (Hval & Hext & Hfresh).
  exists h', ns. split; [reflexivity |]. split; [exact Hval |]. split.
  { intros Hid Hdesc Hseq. rewrite Hval. unfold valueOf.
    cbn [Spec.ID Spec.Description Spec.ConcurrentExecution Spec.DirectExec
         Spec.NotBlocking Spec.RequireArtifacts Spec.BuildArtifacts Spec.Commands
         Spec.PrepCommands Spec.PostCommands Spec.PostAlways Spec.ExecutionOrder].
    rewrite (jsonText_valid _ Hid), (jsonText_valid _ Hdesc),
      (jsonText_all_valid (load h (RequireArtifacts s)) (Hseq FRequireArtifacts)),
      (jsonText_all_valid (load h (BuildArtifacts s)) (Hseq FBuildArtifacts)),
      (jsonText_all_valid (load h (Commands s)) (Hseq FCommands)),
      (jsonText_all_valid (load h (PrepCommands s)) (Hseq FPrepCommands)),
      (jsonText_all_valid (load h (PostCommands s)) (Hseq FPostCommands)).
    reflexivity. }
  split; [exact (valueOf_agree _ _ _ Hwf Hext) |].
  intros f i v h'' Hset.
  destruct (setIndex_frame _ _ _ _ _ Hset) as (l & Hl & Hframe).
  apply (valueOf_agree _ _ _ Hwf). intros l' Hl'.
  rewrite Hframe; [exact (Hext l' Hl') |].
  intros ->. exact (Hfresh f l Hl Hl').
Qed.

(** The arrays [place] makes: one per sequence that is not empty, all
    new and all different; an empty sequence gets the nil slice. *)
Lemma alloc_empty (h h1 : heap) (vs : list string) (hd : header) :
  alloc h vs = (h1, hd) -> vs = [] -> hd = nilSlice.
Proof. intros H ->. cbn in H. injection H as _ <-. reflexivity. Qed.

Lemma place_layout (h h' : heap) (v : Spec.Stage) (ns : StageObj) :
  place h v = (h', ns) ->
  (forall f g l, f <> g -> array (seqOf f ns) = Some l -> array (seqOf g ns) <> Some l)
  /\ (forall f, load h' (seqOf f ns) = [] -> seqOf f ns = nilSlice).
Proof.
  intros Hp. pose proof (place_spec _ _ _ _ Hp) as (Hval & _ & _).
  revert Hp. unfold place.
  destruct (alloc h (Spec.RequireArtifacts v)) as [h1 ra] eqn:E1.
  destruct (alloc h1 (Spec.BuildArtifacts v)) as [h2 ba] eqn:E2.
  destruct (alloc h2 (Spec.Commands v)) as [h3 cs] eqn:E3.
  destruct (alloc h3 (Spec.PrepCommands v)) as [h4 pre] eqn:E4.
  destruct (alloc h4 (Spec.PostCommands v)) as [h5 post] eqn:E5.
  intros [= <- <-].
  destruct (alloc_spec _ _ _ _ E1) as (_ & X1 & F1).
  destruct (alloc_spec _ _ _ _ E2) as (_ & X2 & F2).
  destruct (alloc_spec _ _ _ _ E3) as (_ & X3 & F3).
  destruct (alloc_spec _ _ _ _ E4) as (_ & X4 & F4).
  destruct (alloc_spec _ _ _ _ E5) as (_ & X5 & F5).
  assert (D12 : forall l, l ∈ dom h1 -> l ∈ dom h2) by (intros l; apply extends_dom, X2).
  assert (D23 : forall l, l ∈ dom h2 -> l ∈ dom h3) by (intros l; apply extends_dom, X3).
  assert (D34 : forall l, l ∈ dom h3 -> l ∈ dom h4) by (intros l; apply extends_dom, X4).
  split.
  - intros f g l Hne Hf Hg.
    destruct f, g; try (destruct (Hne eq_refl)); cbn [seqOf RequireArtifacts
      BuildArtifacts Commands PrepCommands PostCommands] in Hf, Hg;
      repeat match goal with
             | F : forall l, array ?hd = Some l -> _, H : array ?hd = Some _ |- _ =>
                 destruct (F _ H); clear F
             end; auto 10.
  - intros f Hload. destruct f; cbn [seqOf] in *.
    + apply (alloc_empty _ _ _ _ E1). apply (f_equal Spec.RequireArtifacts) in Hval.
      cbn in Hval. rewrite <- Hval. exact Hload.
    + apply (alloc_empty _ _ _ _ E2). apply (f_equal Spec.BuildArtifacts) in Hval.
      cbn in Hval. rewrite <- Hval. exact Hload.
    + apply (alloc_empty _ _ _ _ E3). apply (f_equal Spec.Commands) in Hval.
      cbn in Hval. rewrite <- Hval. exact Hload.
    + apply (alloc_empty _ _ _ _ E4). apply (f_equal Spec.PrepCommands) in Hval.
      cbn in Hval. rewrite <- Hval. exact Hload.
    + apply (alloc_empty _ _ _ _ E5). apply (f_equal Spec.PostCommands) in Hval.
      cbn in Hval. rewrite <- Hval. exact Hload.
Qed.

(** The value of a stage depends on its own arrays only. *)
Lemma valueOf_own (h h' : heap) (o : StageObj) :
  (forall f l, array (seqOf f o) = Some l -> h' !! l = h !! l) ->
  valueOf h' o = valueOf h o.
Proof.
  intros H. unfold valueOf.
  rewrite (load_agree h h' (RequireArtifacts o)),
    (load_agree h h' (BuildArtifacts o)), (load_agree h h' (Commands o)),
    (load_agree h h' (PrepCommands o)), (load_agree h h' (PostCommands o));
    [reflexivity | | | | |]; intros l Hl.
  - exact (H FPostCommands l Hl).
  - exact (H FPrepCommands l Hl).
  - exact (H FCommands l Hl).
  - exact (H FBuildArtifacts l Hl).
  - exact (H FRequireArtifacts l Hl).
Qed.

(** X17. After [DeepCopy], a write through any of the five sequences
    of the original leaves the value of the copy as it was. *)
Theorem DeepCopy_original_writes (h : heap) (s : StageObj) :
  wellFormed h s ->
  forall h' ns err,
    DeepCopy h s = (h', ns, err) ->
    forall f i v h'',
      setIndex h' (seqOf f s) i v = Some h'' -> valueOf h'' ns = valueOf h' ns.
Proof.
  intros Hwf h' ns err. unfold DeepCopy. rewrite DeepCopy_value.
  destruct (place h _) as [h1 ns1] eqn:E. intros [= <- <- <-].
  destruct (place_spec _ _ _ _ E) as (_ & _ & Hfresh).
  intros f i v h'' Hset.
  destruct (setIndex_frame _ _ _ _ _ Hset) as (l & Hl & Hframe).
  apply valueOf_own. intros g l' Hl'. apply Hframe. intros ->.
  exact (Hfresh g l Hl' (Hwf f l Hl)).
Qed.

(** X18. The five sequences of the copy lie apart: a write through
    one of them leaves the other four as they were, also when those of
    the original shared an array. *)
Theorem DeepCopy_sequences_apart (h : heap) (s : StageObj) :
  forall h' ns err,
    DeepCopy h s = (h', ns, err) ->
    forall f g i v h'',
      f <> g ->
      setIndex h' (seqOf f ns) i v = Some h'' ->
      load h'' (seqOf g ns) = load h' (seqOf g ns).
Proof.
  intros h' ns err. unfold DeepCopy. rewrite DeepCopy_value.
  destruct (place h _) as [h1 ns1] eqn:E. intros [= <- <- <-].
  destruct (place_layout _ _ _ _ E) as [Hapart _].
  intros f g i v h'' Hne Hset.
  destruct (setIndex_frame _ _ _ _ _ Hset) as (l & Hl & Hframe).
  apply load_agree. intros l' Hl'. apply Hframe. intros ->.
  exact (Hapart f g l Hne Hl Hl').
Qed.


End MemoryFacts.

Section MemoryClaims.
Import GoLib Mem Examples.

Lemma sharingStage_wellFormed : wellFormed sharedHeap sharingStage.
Proof.
  intros f l Hl. apply elem_of_dom.
  destruct f; cbn in Hl; try discriminate Hl; injection Hl as <-;
    exists ["z"; "a"; "b"; "c"]; reflexivity.
Qed.

Lemma DeepCopy_equal_and_unshared_witness :
  exists h' ns,
    DeepCopy sharedHeap sharingStage = (h', ns, None)
    /\ valueOf h' ns
       = Spec.mkStage (jsonText (ID sharingStage)) (jsonText (Description sharingStage))
           (ConcurrentExecution sharingStage) (DirectExec sharingStage)
           (NotBlocking sharingStage)
           (map jsonText (load sharedHeap (RequireArtifacts sharingStage)))
           (map jsonText (load sharedHeap (BuildArtifacts sharingStage)))
           (map jsonText (load sharedHeap (Commands sharingStage)))
           (map jsonText (load sharedHeap (PrepCommands sharingStage)))
           (map jsonText (load sharedHeap (PostCommands sharingStage)))
           (PostAlways sharingStage) (ExecutionOrder sharingStage)
    /\ (ValidString (ID sharingStage) = true ->
        ValidString (Description sharingStage) = true ->
        (forall f x, In x (load sharedHeap (seqOf f sharingStage)) ->
                     ValidString x = true) ->
        valueOf h' ns = valueOf sharedHeap sharingStage)
    /\ valueOf h' sharingStage = valueOf sharedHeap sharingStage
    /\ forall f i v h'',
        setIndex h' (seqOf f ns) i v = Some h'' ->
        valueOf h'' sharingStage = valueOf sharedHeap sharingStage.
Proof.
  apply (DeepCopy_equal_and_unshared sharedHeap sharingStage).
  exact sharingStage_wellFormed.
Defined.

(** C8, as the claim has it, fails: the copy of a stage whose [ID] is
    the single byte 0xFF, which is not UTF-8, has the [ID] U+FFFD, and
    so not the value of the original. *)
Lemma DeepCopy_invalid_utf8_differs :
  wellFormed (∅ : heap) invalidIDStage
  /\ Spec.ID (valueOf (fst (fst (DeepCopy ∅ invalidIDStage)))
                     (snd (fst (DeepCopy ∅ invalidIDStage))))
     = replacement
  /\ ~ (exists h' ns,
          DeepCopy ∅ invalidIDStage = (h', ns, None)
          /\ valueOf h' ns = valueOf ∅ invalidIDStage).
Proof.
  split; [intros f l Hl; destruct f; discriminate Hl |].
  split; [vm_compute; reflexivity |].
  intros (h' & ns & Hcopy & Hval).
  apply (f_equal (fun r => Spec.ID (valueOf (fst (fst r)) (snd (fst r))))) in Hcopy.
  cbn [fst snd] in Hcopy. rewrite Hval in Hcopy.
  vm_compute in Hcopy. discriminate Hcopy.
Qed.

Lemma emptyWindowStage_wellFormed : wellFormed sharedHeap emptyWindowStage.
Proof.
  intros f l Hl. apply elem_of_dom.
  destruct f; cbn in Hl; try discriminate Hl; injection Hl as <-;
    exists ["z"; "a"; "b"; "c"]; reflexivity.
Qed.

Lemma DeepCopy_original_writes_witness :
  let copy := DeepCopy sharedHeap sharingStage in
  exists h'',
    setIndex (fst (fst copy)) (seqOf FCommands sharingStage) 0 "x" = Some h''
    /\ valueOf h'' (snd (fst copy)) = valueOf (fst (fst copy)) (snd (fst copy)).
Proof.
  cbv zeta. destruct (DeepCopy sharedHeap sharingStage) as [[h' ns] err] eqn:E.
  cbn [fst snd]. eexists. split; [reflexivity |].
  apply (DeepCopy_original_writes sharedHeap sharingStage sharingStage_wellFormed
           h' ns err E FCommands 0%nat "x").
  reflexivity.
Defined.

Lemma DeepCopy_sequences_apart_witness :
  let copy := DeepCopy sharedHeap sharingStage in
  exists h'',
    setIndex (fst (fst copy)) (seqOf FRequireArtifacts (snd (fst copy))) 0 "x" = Some h''
    /\ load h'' (seqOf FCommands (snd (fst copy)))
       = load (fst (fst copy)) (seqOf FCommands (snd (fst copy))).
Proof.
  cbv zeta. eexists. split; [vm_compute; reflexivity |].
  apply (DeepCopy_sequences_apart sharedHeap sharingStage
           _ _ (snd (DeepCopy sharedHeap sharingStage)) ltac:(vm_compute; reflexivity)
           FRequireArtifacts FCommands 0%nat "x").
  - discriminate.
  - vm_compute. reflexivity.
Defined.


End MemoryClaims.
